(** * Diffie-Hellman exchange object and leak-detecting allocator of charon

    A shallow embedding of [Source/charon/transforms/diffie_hellman.c] and of
    the LEAK_DETECTIVE build of [Source/charon/utils/allocator.c], with the
    properties of the design document proved about them.

    Layout:
    - bytes, chunks and the big-integer adapter ([gmp_helper_t]);
    - the compiled-in MODP group table and [set_modulus];
    - the exchange object, its constructor, accessors and destructor, written
      in a small writer/error monad that logs every acquisition and release;
    - the allocator: a heap of [memory_hdr_t] headers linked through
      [older]/[newer];
    - the theorems. *)

From Stdlib Require Import ZArith Zpow_facts List Lia Bool Strings.Byte.
From stdpp Require Import base option list gmap.
Import ListNotations.

Local Open Scope Z_scope.

(** ** Bytes and chunks *)

Definition u_int8_t : Type := Byte.byte.

(** [chunk_t] is a pointer plus a length; its contents are the [len] bytes
    behind the pointer. *)
Definition chunk_t : Type := list u_int8_t.

Definition byte_to_Z (b : u_int8_t) : Z := Z.of_N (Byte.to_N b).

Definition Z_to_byte (z : Z) : u_int8_t :=
  match Byte.of_N (Z.to_N (z mod 256)) with
  | Some b => b
  | None => Byte.x00
  end.

(** The status codes the two source files return. *)
Inductive status_t : Type :=
| SUCCESS
| FAILED
| NOT_FOUND.

Definition status_eqb (a b : status_t) : bool :=
  match a, b with
  | SUCCESS, SUCCESS | FAILED, FAILED | NOT_FOUND, NOT_FOUND => true
  | _, _ => false
  end.

(** ** The big-integer adapter *)

Module GmpHelper.

(** Modelled from the spec: [chunk_to_mpz] of gmp_helper.c, which is not among
    the sources.  Section 4.2, bytes_to_integer: the chunk is read as a
    big-endian unsigned magnitude, leading zero bytes do not change the
    value. *)
Definition chunk_to_mpz (data : chunk_t) : Z :=
  fold_left (fun acc b => acc * 256 + byte_to_Z b) data 0.

(** The number of bytes of the shortest big-endian encoding of [v]
    (zero has the empty encoding). *)
Definition natural_length (v : Z) : nat :=
  if v <=? 0 then O else Z.to_nat (Z.log2 v / 8 + 1).

(** The [n] low-order bytes of [v], least significant first. *)
Fixpoint le_bytes (n : nat) (v : Z) : list u_int8_t :=
  match n with
  | O => []
  | S k => Z_to_byte v :: le_bytes k (v / 256)
  end.

Definition be_bytes (n : nat) (v : Z) : chunk_t := rev (le_bytes n v).

(** Modelled from the spec: [mpz_to_chunk] of gmp_helper.c, which is not among
    the sources.  Section 4.2, integer_to_bytes: exactly [bytes] bytes,
    big-endian, zero-padded on the left; the call fails when the natural
    encoding of the integer is longer than [bytes].  The buffer for the chunk
    is taken to be available. *)
Definition mpz_to_chunk (v : Z) (bytes : nat) : status_t * option chunk_t :=
  if (natural_length v <=? bytes)%nat
  then (SUCCESS,
        Some (repeat Byte.x00 (bytes - natural_length v)
                ++ be_bytes (natural_length v) v))
  else (FAILED, None).

End GmpHelper.

(** ** Modular exponentiation

    [mpz_powm] is GMP's; section 4.2 fixes it as [base^exponent mod modulus]
    by square and multiply.  Exponents here are imported magnitudes and so
    never negative. *)

Fixpoint powm_pos (base : Z) (e : positive) (m : Z) : Z :=
  match e with
  | xH => base mod m
  | xO e' => let r := powm_pos base e' m in (r * r) mod m
  | xI e' => let r := powm_pos base e' m in ((r * r) mod m * base) mod m
  end.

Definition mpz_powm (base exp m : Z) : Z :=
  match exp with
  | Z0 => 1 mod m
  | Zpos e => powm_pos base e m
  | Zneg _ => 0 mod m
  end.

(** ** The group table *)

(** Modelled from the spec: the enumerators of [diffie_hellman_group_t] are
    declared in diffie_hellman.h, which is not among the sources.  The values
    are the IKE group numbers the comments on the modulus arrays give
    (Group 1, 2, 5, 14, 15, 16, 17 and 18). *)
Definition MODP_768_BIT : Z := 1.
Definition MODP_1024_BIT : Z := 2.
Definition MODP_1536_BIT : Z := 5.
Definition MODP_2048_BIT : Z := 14.
Definition MODP_3072_BIT : Z := 15.
Definition MODP_4096_BIT : Z := 16.
Definition MODP_6144_BIT : Z := 17.
Definition MODP_8192_BIT : Z := 18.

Module Moduli.
Import Byte.

(** The bytes of [group1_modulus] in diffie_hellman.c, in order. *)
Definition group1_modulus : list u_int8_t :=
  [
    xff; xff; xff; xff; xff; xff; xff; xff; xc9; x0f; xda; xa2; x21; x68; xc2; x34;
    xc4; xc6; x62; x8b; x80; xdc; x1c; xd1; x29; x02; x4e; x08; x8a; x67; xcc; x74;
    x02; x0b; xbe; xa6; x3b; x13; x9b; x22; x51; x4a; x08; x79; x8e; x34; x04; xdd;
    xef; x95; x19; xb3; xcd; x3a; x43; x1b; x30; x2b; x0a; x6d; xf2; x5f; x14; x37;
    x4f; xe1; x35; x6d; x6d; x51; xc2; x45; xe4; x85; xb5; x76; x62; x5e; x7e; xc6;
    xf4; x4c; x42; xe9; xa6; x3a; x36; x20; xff; xff; xff; xff; xff; xff; xff; xff
  ].

(** The bytes of [group2_modulus] in diffie_hellman.c, in order. *)
Definition group2_modulus : list u_int8_t :=
  [
    xff; xff; xff; xff; xff; xff; xff; xff; xc9; x0f; xda; xa2; x21; x68; xc2; x34;
    xc4; xc6; x62; x8b; x80; xdc; x1c; xd1; x29; x02; x4e; x08; x8a; x67; xcc; x74;
    x02; x0b; xbe; xa6; x3b; x13; x9b; x22; x51; x4a; x08; x79; x8e; x34; x04; xdd;
    xef; x95; x19; xb3; xcd; x3a; x43; x1b; x30; x2b; x0a; x6d; xf2; x5f; x14; x37;
    x4f; xe1; x35; x6d; x6d; x51; xc2; x45; xe4; x85; xb5; x76; x62; x5e; x7e; xc6;
    xf4; x4c; x42; xe9; xa6; x37; xed; x6b; x0b; xff; x5c; xb6; xf4; x06; xb7; xed;
    xee; x38; x6b; xfb; x5a; x89; x9f; xa5; xae; x9f; x24; x11; x7c; x4b; x1f; xe6;
    x49; x28; x66; x51; xec; xe6; x53; x81; xff; xff; xff; xff; xff; xff; xff; xff
  ].

(** The bytes of [group5_modulus] in diffie_hellman.c, in order. *)
Definition group5_modulus : list u_int8_t :=
  [
    xff; xff; xff; xff; xff; xff; xff; xff; xc9; x0f; xda; xa2; x21; x68; xc2; x34;
    xc4; xc6; x62; x8b; x80; xdc; x1c; xd1; x29; x02; x4e; x08; x8a; x67; xcc; x74;
    x02; x0b; xbe; xa6; x3b; x13; x9b; x22; x51; x4a; x08; x79; x8e; x34; x04; xdd;
    xef; x95; x19; xb3; xcd; x3a; x43; x1b; x30; x2b; x0a; x6d; xf2; x5f; x14; x37;
    x4f; xe1; x35; x6d; x6d; x51; xc2; x45; xe4; x85; xb5; x76; x62; x5e; x7e; xc6;
    xf4; x4c; x42; xe9; xa6; x37; xed; x6b; x0b; xff; x5c; xb6; xf4; x06; xb7; xed;
    xee; x38; x6b; xfb; x5a; x89; x9f; xa5; xae; x9f; x24; x11; x7c; x4b; x1f; xe6;
    x49; x28; x66; x51; xec; xe4; x5b; x3d; xc2; x00; x7c; xb8; xa1; x63; xbf; x05;
    x98; xda; x48; x36; x1c; x55; xd3; x9a; x69; x16; x3f; xa8; xfd; x24; xcf; x5f;
    x83; x65; x5d; x23; xdc; xa3; xad; x96; x1c; x62; xf3; x56; x20; x85; x52; xbb;
    x9e; xd5; x29; x07; x70; x96; x96; x6d; x67; x0c; x35; x4e; x4a; xbc; x98; x04;
    xf1; x74; x6c; x08; xca; x23; x73; x27; xff; xff; xff; xff; xff; xff; xff; xff
  ].

(** The bytes of [group14_modulus] in diffie_hellman.c, in order. *)
Definition group14_modulus : list u_int8_t :=
  [
    xff; xff; xff; xff; xff; xff; xff; xff; xc9; x0f; xda; xa2; x21; x68; xc2; x34;
    xc4; xc6; x62; x8b; x80; xdc; x1c; xd1; x29; x02; x4e; x08; x8a; x67; xcc; x74;
    x02; x0b; xbe; xa6; x3b; x13; x9b; x22; x51; x4a; x08; x79; x8e; x34; x04; xdd;
    xef; x95; x19; xb3; xcd; x3a; x43; x1b; x30; x2b; x0a; x6d; xf2; x5f; x14; x37;
    x4f; xe1; x35; x6d; x6d; x51; xc2; x45; xe4; x85; xb5; x76; x62; x5e; x7e; xc6;
    xf4; x4c; x42; xe9; xa6; x37; xed; x6b; x0b; xff; x5c; xb6; xf4; x06; xb7; xed;
    xee; x38; x6b; xfb; x5a; x89; x9f; xa5; xae; x9f; x24; x11; x7c; x4b; x1f; xe6;
    x49; x28; x66; x51; xec; xe4; x5b; x3d; xc2; x00; x7c; xb8; xa1; x63; xbf; x05;
    x98; xda; x48; x36; x1c; x55; xd3; x9a; x69; x16; x3f; xa8; xfd; x24; xcf; x5f;
    x83; x65; x5d; x23; xdc; xa3; xad; x96; x1c; x62; xf3; x56; x20; x85; x52; xbb;
    x9e; xd5; x29; x07; x70; x96; x96; x6d; x67; x0c; x35; x4e; x4a; xbc; x98; x04;
    xf1; x74; x6c; x08; xca; x18; x21; x7c; x32; x90; x5e; x46; x2e; x36; xce; x3b;
    xe3; x9e; x77; x2c; x18; x0e; x86; x03; x9b; x27; x83; xa2; xec; x07; xa2; x8f;
    xb5; xc5; x5d; xf0; x6f; x4c; x52; xc9; xde; x2b; xcb; xf6; x95; x58; x17; x18;
    x39; x95; x49; x7c; xea; x95; x6a; xe5; x15; xd2; x26; x18; x98; xfa; x05; x10;
    x15; x72; x8e; x5a; x8a; xac; xaa; x68; xff; xff; xff; xff; xff; xff; xff; xff
  ].

(** The bytes of [group15_modulus] in diffie_hellman.c, in order. *)
Definition group15_modulus : list u_int8_t :=
  [
    xff; xff; xff; xff; xff; xff; xff; xff; xc9; x0f; xda; xa2; x21; x68; xc2; x34;
    xc4; xc6; x62; x8b; x80; xdc; x1c; xd1; x29; x02; x4e; x08; x8a; x67; xcc; x74;
    x02; x0b; xbe; xa6; x3b; x13; x9b; x22; x51; x4a; x08; x79; x8e; x34; x04; xdd;
    xef; x95; x19; xb3; xcd; x3a; x43; x1b; x30; x2b; x0a; x6d; xf2; x5f; x14; x37;
    x4f; xe1; x35; x6d; x6d; x51; xc2; x45; xe4; x85; xb5; x76; x62; x5e; x7e; xc6;
    xf4; x4c; x42; xe9; xa6; x37; xed; x6b; x0b; xff; x5c; xb6; xf4; x06; xb7; xed;
    xee; x38; x6b; xfb; x5a; x89; x9f; xa5; xae; x9f; x24; x11; x7c; x4b; x1f; xe6;
    x49; x28; x66; x51; xec; xe4; x5b; x3d; xc2; x00; x7c; xb8; xa1; x63; xbf; x05;
    x98; xda; x48; x36; x1c; x55; xd3; x9a; x69; x16; x3f; xa8; xfd; x24; xcf; x5f;
    x83; x65; x5d; x23; xdc; xa3; xad; x96; x1c; x62; xf3; x56; x20; x85; x52; xbb;
    x9e; xd5; x29; x07; x70; x96; x96; x6d; x67; x0c; x35; x4e; x4a; xbc; x98; x04;
    xf1; x74; x6c; x08; xca; x18; x21; x7c; x32; x90; x5e; x46; x2e; x36; xce; x3b;
    xe3; x9e; x77; x2c; x18; x0e; x86; x03; x9b; x27; x83; xa2; xec; x07; xa2; x8f;
    xb5; xc5; x5d; xf0; x6f; x4c; x52; xc9; xde; x2b; xcb; xf6; x95; x58; x17; x18;
    x39; x95; x49; x7c; xea; x95; x6a; xe5; x15; xd2; x26; x18; x98; xfa; x05; x10;
    x15; x72; x8e; x5a; x8a; xaa; xc4; x2d; xad; x33; x17; x0d; x04; x50; x7a; x33;
    xa8; x55; x21; xab; xdf; x1c; xba; x64; xec; xfb; x85; x04; x58; xdb; xef; x0a;
    x8a; xea; x71; x57; x5d; x06; x0c; x7d; xb3; x97; x0f; x85; xa6; xe1; xe4; xc7;
    xab; xf5; xae; x8c; xdb; x09; x33; xd7; x1e; x8c; x94; xe0; x4a; x25; x61; x9d;
    xce; xe3; xd2; x26; x1a; xd2; xee; x6b; xf1; x2f; xfa; x06; xd9; x8a; x08; x64;
    xd8; x76; x02; x73; x3e; xc8; x6a; x64; x52; x1f; x2b; x18; x17; x7b; x20; x0c;
    xbb; xe1; x17; x57; x7a; x61; x5d; x6c; x77; x09; x88; xc0; xba; xd9; x46; xe2;
    x08; xe2; x4f; xa0; x74; xe5; xab; x31; x43; xdb; x5b; xfc; xe0; xfd; x10; x8e;
    x4b; x82; xd1; x20; xa9; x3a; xd2; xca; xff; xff; xff; xff; xff; xff; xff; xff
  ].

(** The bytes of [group16_modulus] in diffie_hellman.c, in order. *)
Definition group16_modulus : list u_int8_t :=
  [
    xff; xff; xff; xff; xff; xff; xff; xff; xc9; x0f; xda; xa2; x21; x68; xc2; x34;
    xc4; xc6; x62; x8b; x80; xdc; x1c; xd1; x29; x02; x4e; x08; x8a; x67; xcc; x74;
    x02; x0b; xbe; xa6; x3b; x13; x9b; x22; x51; x4a; x08; x79; x8e; x34; x04; xdd;
    xef; x95; x19; xb3; xcd; x3a; x43; x1b; x30; x2b; x0a; x6d; xf2; x5f; x14; x37;
    x4f; xe1; x35; x6d; x6d; x51; xc2; x45; xe4; x85; xb5; x76; x62; x5e; x7e; xc6;
    xf4; x4c; x42; xe9; xa6; x37; xed; x6b; x0b; xff; x5c; xb6; xf4; x06; xb7; xed;
    xee; x38; x6b; xfb; x5a; x89; x9f; xa5; xae; x9f; x24; x11; x7c; x4b; x1f; xe6;
    x49; x28; x66; x51; xec; xe4; x5b; x3d; xc2; x00; x7c; xb8; xa1; x63; xbf; x05;
    x98; xda; x48; x36; x1c; x55; xd3; x9a; x69; x16; x3f; xa8; xfd; x24; xcf; x5f;
    x83; x65; x5d; x23; xdc; xa3; xad; x96; x1c; x62; xf3; x56; x20; x85; x52; xbb;
    x9e; xd5; x29; x07; x70; x96; x96; x6d; x67; x0c; x35; x4e; x4a; xbc; x98; x04;
    xf1; x74; x6c; x08; xca; x18; x21; x7c; x32; x90; x5e; x46; x2e; x36; xce; x3b;
    xe3; x9e; x77; x2c; x18; x0e; x86; x03; x9b; x27; x83; xa2; xec; x07; xa2; x8f;
    xb5; xc5; x5d; xf0; x6f; x4c; x52; xc9; xde; x2b; xcb; xf6; x95; x58; x17; x18;
    x39; x95; x49; x7c; xea; x95; x6a; xe5; x15; xd2; x26; x18; x98; xfa; x05; x10;
    x15; x72; x8e; x5a; x8a; xaa; xc4; x2d; xad; x33; x17; x0d; x04; x50; x7a; x33;
    xa8; x55; x21; xab; xdf; x1c; xba; x64; xec; xfb; x85; x04; x58; xdb; xef; x0a;
    x8a; xea; x71; x57; x5d; x06; x0c; x7d; xb3; x97; x0f; x85; xa6; xe1; xe4; xc7;
    xab; xf5; xae; x8c; xdb; x09; x33; xd7; x1e; x8c; x94; xe0; x4a; x25; x61; x9d;
    xce; xe3; xd2; x26; x1a; xd2; xee; x6b; xf1; x2f; xfa; x06; xd9; x8a; x08; x64;
    xd8; x76; x02; x73; x3e; xc8; x6a; x64; x52; x1f; x2b; x18; x17; x7b; x20; x0c;
    xbb; xe1; x17; x57; x7a; x61; x5d; x6c; x77; x09; x88; xc0; xba; xd9; x46; xe2;
    x08; xe2; x4f; xa0; x74; xe5; xab; x31; x43; xdb; x5b; xfc; xe0; xfd; x10; x8e;
    x4b; x82; xd1; x20; xa9; x21; x08; x01; x1a; x72; x3c; x12; xa7; x87; xe6; xd7;
    x88; x71; x9a; x10; xbd; xba; x5b; x26; x99; xc3; x27; x18; x6a; xf4; xe2; x3c;
    x1a; x94; x68; x34; xb6; x15; x0b; xda; x25; x83; xe9; xca; x2a; xd4; x4c; xe8;
    xdb; xbb; xc2; xdb; x04; xde; x8e; xf9; x2e; x8e; xfc; x14; x1f; xbe; xca; xa6;
    x28; x7c; x59; x47; x4e; x6b; xc0; x5d; x99; xb2; x96; x4f; xa0; x90; xc3; xa2;
    x23; x3b; xa1; x86; x51; x5b; xe7; xed; x1f; x61; x29; x70; xce; xe2; xd7; xaf;
    xb8; x1b; xdd; x76; x21; x70; x48; x1c; xd0; x06; x91; x27; xd5; xb0; x5a; xa9;
    x93; xb4; xea; x98; x8d; x8f; xdd; xc1; x86; xff; xb7; xdc; x90; xa6; xc0; x8f;
    x4d; xf4; x35; xc9; x34; x06; x31; x99; xff; xff; xff; xff; xff; xff; xff; xff
  ].

(** The bytes of [group17_modulus] in diffie_hellman.c, in order. *)
Definition group17_modulus : list u_int8_t :=
  [
    xff; xff; xff; xff; xff; xff; xff; xff; xc9; x0f; xda; xa2; x21; x68; xc2; x34;
    xc4; xc6; x62; x8b; x80; xdc; x1c; xd1; x29; x02; x4e; x08; x8a; x67; xcc; x74;
    x02; x0b; xbe; xa6; x3b; x13; x9b; x22; x51; x4a; x08; x79; x8e; x34; x04; xdd;
    xef; x95; x19; xb3; xcd; x3a; x43; x1b; x30; x2b; x0a; x6d; xf2; x5f; x14; x37;
    x4f; xe1; x35; x6d; x6d; x51; xc2; x45; xe4; x85; xb5; x76; x62; x5e; x7e; xc6;
    xf4; x4c; x42; xe9; xa6; x37; xed; x6b; x0b; xff; x5c; xb6; xf4; x06; xb7; xed;
    xee; x38; x6b; xfb; x5a; x89; x9f; xa5; xae; x9f; x24; x11; x7c; x4b; x1f; xe6;
    x49; x28; x66; x51; xec; xe4; x5b; x3d; xc2; x00; x7c; xb8; xa1; x63; xbf; x05;
    x98; xda; x48; x36; x1c; x55; xd3; x9a; x69; x16; x3f; xa8; xfd; x24; xcf; x5f;
    x83; x65; x5d; x23; xdc; xa3; xad; x96; x1c; x62; xf3; x56; x20; x85; x52; xbb;
    x9e; xd5; x29; x07; x70; x96; x96; x6d; x67; x0c; x35; x4e; x4a; xbc; x98; x04;
    xf1; x74; x6c; x08; xca; x18; x21; x7c; x32; x90; x5e; x46; x2e; x36; xce; x3b;
    xe3; x9e; x77; x2c; x18; x0e; x86; x03; x9b; x27; x83; xa2; xec; x07; xa2; x8f;
    xb5; xc5; x5d; xf0; x6f; x4c; x52; xc9; xde; x2b; xcb; xf6; x95; x58; x17; x18;
    x39; x95; x49; x7c; xea; x95; x6a; xe5; x15; xd2; x26; x18; x98; xfa; x05; x10;
    x15; x72; x8e; x5a; x8a; xaa; xc4; x2d; xad; x33; x17; x0d; x04; x50; x7a; x33;
    xa8; x55; x21; xab; xdf; x1c; xba; x64; xec; xfb; x85; x04; x58; xdb; xef; x0a;
    x8a; xea; x71; x57; x5d; x06; x0c; x7d; xb3; x97; x0f; x85; xa6; xe1; xe4; xc7;
    xab; xf5; xae; x8c; xdb; x09; x33; xd7; x1e; x8c; x94; xe0; x4a; x25; x61; x9d;
    xce; xe3; xd2; x26; x1a; xd2; xee; x6b; xf1; x2f; xfa; x06; xd9; x8a; x08; x64;
    xd8; x76; x02; x73; x3e; xc8; x6a; x64; x52; x1f; x2b; x18; x17; x7b; x20; x0c;
    xbb; xe1; x17; x57; x7a; x61; x5d; x6c; x77; x09; x88; xc0; xba; xd9; x46; xe2;
    x08; xe2; x4f; xa0; x74; xe5; xab; x31; x43; xdb; x5b; xfc; xe0; xfd; x10; x8e;
    x4b; x82; xd1; x20; xa9; x21; x08; x01; x1a; x72; x3c; x12; xa7; x87; xe6; xd7;
    x88; x71; x9a; x10; xbd; xba; x5b; x26; x99; xc3; x27; x18; x6a; xf4; xe2; x3c;
    x1a; x94; x68; x34; xb6; x15; x0b; xda; x25; x83; xe9; xca; x2a; xd4; x4c; xe8;
    xdb; xbb; xc2; xdb; x04; xde; x8e; xf9; x2e; x8e; xfc; x14; x1f; xbe; xca; xa6;
    x28; x7c; x59; x47; x4e; x6b; xc0; x5d; x99; xb2; x96; x4f; xa0; x90; xc3; xa2;
    x23; x3b; xa1; x86; x51; x5b; xe7; xed; x1f; x61; x29; x70; xce; xe2; xd7; xaf;
    xb8; x1b; xdd; x76; x21; x70; x48; x1c; xd0; x06; x91; x27; xd5; xb0; x5a; xa9;
    x93; xb4; xea; x98; x8d; x8f; xdd; xc1; x86; xff; xb7; xdc; x90; xa6; xc0; x8f;
    x4d; xf4; x35; xc9; x34; x02; x84; x92; x36; xc3; xfa; xb4; xd2; x7c; x70; x26;
    xc1; xd4; xdc; xb2; x60; x26; x46; xde; xc9; x75; x1e; x76; x3d; xba; x37; xbd;
    xf8; xff; x94; x06; xad; x9e; x53; x0e; xe5; xdb; x38; x2f; x41; x30; x01; xae;
    xb0; x6a; x53; xed; x90; x27; xd8; x31; x17; x97; x27; xb0; x86; x5a; x89; x18;
    xda; x3e; xdb; xeb; xcf; x9b; x14; xed; x44; xce; x6c; xba; xce; xd4; xbb; x1b;
    xdb; x7f; x14; x47; xe6; xcc; x25; x4b; x33; x20; x51; x51; x2b; xd7; xaf; x42;
    x6f; xb8; xf4; x01; x37; x8c; xd2; xbf; x59; x83; xca; x01; xc6; x4b; x92; xec;
    xf0; x32; xea; x15; xd1; x72; x1d; x03; xf4; x82; xd7; xce; x6e; x74; xfe; xf6;
    xd5; x5e; x70; x2f; x46; x98; x0c; x82; xb5; xa8; x40; x31; x90; x0b; x1c; x9e;
    x59; xe7; xc9; x7f; xbe; xc7; xe8; xf3; x23; xa9; x7a; x7e; x36; xcc; x88; xbe;
    x0f; x1d; x45; xb7; xff; x58; x5a; xc5; x4b; xd4; x07; xb2; x2b; x41; x54; xaa;
    xcc; x8f; x6d; x7e; xbf; x48; xe1; xd8; x14; xcc; x5e; xd2; x0f; x80; x37; xe0;
    xa7; x97; x15; xee; xf2; x9b; xe3; x28; x06; xa1; xd5; x8b; xb7; xc5; xda; x76;
    xf5; x50; xaa; x3d; x8a; x1f; xbf; xf0; xeb; x19; xcc; xb1; xa3; x13; xd5; x5c;
    xda; x56; xc9; xec; x2e; xf2; x96; x32; x38; x7f; xe8; xd7; x6e; x3c; x04; x68;
    x04; x3e; x8f; x66; x3f; x48; x60; xee; x12; xbf; x2d; x5b; x0b; x74; x74; xd6;
    xe6; x94; xf9; x1e; x6d; xcc; x40; x24; xff; xff; xff; xff; xff; xff; xff; xff
  ].

(** The bytes of [group18_modulus] in diffie_hellman.c, in order. *)
Definition group18_modulus : list u_int8_t :=
  [
    xff; xff; xff; xff; xff; xff; xff; xff; xc9; x0f; xda; xa2; x21; x68; xc2; x34;
    xc4; xc6; x62; x8b; x80; xdc; x1c; xd1; x29; x02; x4e; x08; x8a; x67; xcc; x74;
    x02; x0b; xbe; xa6; x3b; x13; x9b; x22; x51; x4a; x08; x79; x8e; x34; x04; xdd;
    xef; x95; x19; xb3; xcd; x3a; x43; x1b; x30; x2b; x0a; x6d; xf2; x5f; x14; x37;
    x4f; xe1; x35; x6d; x6d; x51; xc2; x45; xe4; x85; xb5; x76; x62; x5e; x7e; xc6;
    xf4; x4c; x42; xe9; xa6; x37; xed; x6b; x0b; xff; x5c; xb6; xf4; x06; xb7; xed;
    xee; x38; x6b; xfb; x5a; x89; x9f; xa5; xae; x9f; x24; x11; x7c; x4b; x1f; xe6;
    x49; x28; x66; x51; xec; xe4; x5b; x3d; xc2; x00; x7c; xb8; xa1; x63; xbf; x05;
    x98; xda; x48; x36; x1c; x55; xd3; x9a; x69; x16; x3f; xa8; xfd; x24; xcf; x5f;
    x83; x65; x5d; x23; xdc; xa3; xad; x96; x1c; x62; xf3; x56; x20; x85; x52; xbb;
    x9e; xd5; x29; x07; x70; x96; x96; x6d; x67; x0c; x35; x4e; x4a; xbc; x98; x04;
    xf1; x74; x6c; x08; xca; x18; x21; x7c; x32; x90; x5e; x46; x2e; x36; xce; x3b;
    xe3; x9e; x77; x2c; x18; x0e; x86; x03; x9b; x27; x83; xa2; xec; x07; xa2; x8f;
    xb5; xc5; x5d; xf0; x6f; x4c; x52; xc9; xde; x2b; xcb; xf6; x95; x58; x17; x18;
    x39; x95; x49; x7c; xea; x95; x6a; xe5; x15; xd2; x26; x18; x98; xfa; x05; x10;
    x15; x72; x8e; x5a; x8a; xaa; xc4; x2d; xad; x33; x17; x0d; x04; x50; x7a; x33;
    xa8; x55; x21; xab; xdf; x1c; xba; x64; xec; xfb; x85; x04; x58; xdb; xef; x0a;
    x8a; xea; x71; x57; x5d; x06; x0c; x7d; xb3; x97; x0f; x85; xa6; xe1; xe4; xc7;
    xab; xf5; xae; x8c; xdb; x09; x33; xd7; x1e; x8c; x94; xe0; x4a; x25; x61; x9d;
    xce; xe3; xd2; x26; x1a; xd2; xee; x6b; xf1; x2f; xfa; x06; xd9; x8a; x08; x64;
    xd8; x76; x02; x73; x3e; xc8; x6a; x64; x52; x1f; x2b; x18; x17; x7b; x20; x0c;
    xbb; xe1; x17; x57; x7a; x61; x5d; x6c; x77; x09; x88; xc0; xba; xd9; x46; xe2;
    x08; xe2; x4f; xa0; x74; xe5; xab; x31; x43; xdb; x5b; xfc; xe0; xfd; x10; x8e;
    x4b; x82; xd1; x20; xa9; x21; x08; x01; x1a; x72; x3c; x12; xa7; x87; xe6; xd7;
    x88; x71; x9a; x10; xbd; xba; x5b; x26; x99; xc3; x27; x18; x6a; xf4; xe2; x3c;
    x1a; x94; x68; x34; xb6; x15; x0b; xda; x25; x83; xe9; xca; x2a; xd4; x4c; xe8;
    xdb; xbb; xc2; xdb; x04; xde; x8e; xf9; x2e; x8e; xfc; x14; x1f; xbe; xca; xa6;
    x28; x7c; x59; x47; x4e; x6b; xc0; x5d; x99; xb2; x96; x4f; xa0; x90; xc3; xa2;
    x23; x3b; xa1; x86; x51; x5b; xe7; xed; x1f; x61; x29; x70; xce; xe2; xd7; xaf;
    xb8; x1b; xdd; x76; x21; x70; x48; x1c; xd0; x06; x91; x27; xd5; xb0; x5a; xa9;
    x93; xb4; xea; x98; x8d; x8f; xdd; xc1; x86; xff; xb7; xdc; x90; xa6; xc0; x8f;
    x4d; xf4; x35; xc9; x34; x02; x84; x92; x36; xc3; xfa; xb4; xd2; x7c; x70; x26;
    xc1; xd4; xdc; xb2; x60; x26; x46; xde; xc9; x75; x1e; x76; x3d; xba; x37; xbd;
    xf8; xff; x94; x06; xad; x9e; x53; x0e; xe5; xdb; x38; x2f; x41; x30; x01; xae;
    xb0; x6a; x53; xed; x90; x27; xd8; x31; x17; x97; x27; xb0; x86; x5a; x89; x18;
    xda; x3e; xdb; xeb; xcf; x9b; x14; xed; x44; xce; x6c; xba; xce; xd4; xbb; x1b;
    xdb; x7f; x14; x47; xe6; xcc; x25; x4b; x33; x20; x51; x51; x2b; xd7; xaf; x42;
    x6f; xb8; xf4; x01; x37; x8c; xd2; xbf; x59; x83; xca; x01; xc6; x4b; x92; xec;
    xf0; x32; xea; x15; xd1; x72; x1d; x03; xf4; x82; xd7; xce; x6e; x74; xfe; xf6;
    xd5; x5e; x70; x2f; x46; x98; x0c; x82; xb5; xa8; x40; x31; x90; x0b; x1c; x9e;
    x59; xe7; xc9; x7f; xbe; xc7; xe8; xf3; x23; xa9; x7a; x7e; x36; xcc; x88; xbe;
    x0f; x1d; x45; xb7; xff; x58; x5a; xc5; x4b; xd4; x07; xb2; x2b; x41; x54; xaa;
    xcc; x8f; x6d; x7e; xbf; x48; xe1; xd8; x14; xcc; x5e; xd2; x0f; x80; x37; xe0;
    xa7; x97; x15; xee; xf2; x9b; xe3; x28; x06; xa1; xd5; x8b; xb7; xc5; xda; x76;
    xf5; x50; xaa; x3d; x8a; x1f; xbf; xf0; xeb; x19; xcc; xb1; xa3; x13; xd5; x5c;
    xda; x56; xc9; xec; x2e; xf2; x96; x32; x38; x7f; xe8; xd7; x6e; x3c; x04; x68;
    x04; x3e; x8f; x66; x3f; x48; x60; xee; x12; xbf; x2d; x5b; x0b; x74; x74; xd6;
    xe6; x94; xf9; x1e; x6d; xbe; x11; x59; x74; xa3; x92; x6f; x12; xfe; xe5; xe4;
    x38; x77; x7c; xb6; xa9; x32; xdf; x8c; xd8; xbe; xc4; xd0; x73; xb9; x31; xba;
    x3b; xc8; x32; xb6; x8d; x9d; xd3; x00; x74; x1f; xa7; xbf; x8a; xfc; x47; xed;
    x25; x76; xf6; x93; x6b; xa4; x24; x66; x3a; xab; x63; x9c; x5a; xe4; xf5; x68;
    x34; x23; xb4; x74; x2b; xf1; xc9; x78; x23; x8f; x16; xcb; xe3; x9d; x65; x2d;
    xe3; xfd; xb8; xbe; xfc; x84; x8a; xd9; x22; x22; x2e; x04; xa4; x03; x7c; x07;
    x13; xeb; x57; xa8; x1a; x23; xf0; xc7; x34; x73; xfc; x64; x6c; xea; x30; x6b;
    x4b; xcb; xc8; x86; x2f; x83; x85; xdd; xfa; x9d; x4b; x7f; xa2; xc0; x87; xe8;
    x79; x68; x33; x03; xed; x5b; xdd; x3a; x06; x2b; x3c; xf5; xb3; xa2; x78; xa6;
    x6d; x2a; x13; xf8; x3f; x44; xf8; x2d; xdf; x31; x0e; xe0; x74; xab; x6a; x36;
    x45; x97; xe8; x99; xa0; x25; x5d; xc1; x64; xf3; x1c; xc5; x08; x46; x85; x1d;
    xf9; xab; x48; x19; x5d; xed; x7e; xa1; xb1; xd5; x10; xbd; x7e; xe7; x4d; x73;
    xfa; xf3; x6b; xc3; x1e; xcf; xa2; x68; x35; x90; x46; xf4; xeb; x87; x9f; x92;
    x40; x09; x43; x8b; x48; x1c; x6c; xd7; x88; x9a; x00; x2e; xd5; xee; x38; x2b;
    xc9; x19; x0d; xa6; xfc; x02; x6e; x47; x95; x58; xe4; x47; x56; x77; xe9; xaa;
    x9e; x30; x50; xe2; x76; x56; x94; xdf; xc8; x1f; x56; xe8; x80; xb9; x6e; x71;
    x60; xc9; x80; xdd; x98; xed; xd3; xdf; xff; xff; xff; xff; xff; xff; xff; xff
  ].

End Moduli.
Export Moduli.

Record modulus_info_entry_t : Type := {
  group : Z;
  entry_modulus : list u_int8_t;
  entry_modulus_length : nat;
  entry_generator : Z
}.

Definition modulus_info_entries : list modulus_info_entry_t :=
  [ {| group := MODP_768_BIT; entry_modulus := group1_modulus;
       entry_modulus_length := length group1_modulus; entry_generator := 2 |};
    {| group := MODP_1024_BIT; entry_modulus := group2_modulus;
       entry_modulus_length := length group2_modulus; entry_generator := 2 |};
    {| group := MODP_1536_BIT; entry_modulus := group5_modulus;
       entry_modulus_length := length group5_modulus; entry_generator := 2 |};
    {| group := MODP_2048_BIT; entry_modulus := group14_modulus;
       entry_modulus_length := length group14_modulus; entry_generator := 2 |};
    {| group := MODP_3072_BIT; entry_modulus := group15_modulus;
       entry_modulus_length := length group15_modulus; entry_generator := 2 |};
    {| group := MODP_4096_BIT; entry_modulus := group16_modulus;
       entry_modulus_length := length group16_modulus; entry_generator := 2 |};
    {| group := MODP_6144_BIT; entry_modulus := group17_modulus;
       entry_modulus_length := length group17_modulus; entry_generator := 2 |};
    {| group := MODP_8192_BIT; entry_modulus := group18_modulus;
       entry_modulus_length := length group18_modulus; entry_generator := 2 |} ].

(** ** Resources and the effect monad

    The exchange object owns its own block, a [gmp_helper_t] and up to five
    big integers.  Every acquisition and release, and every call of
    [mpz_powm], is logged; undefined behaviour of the C program (using or
    clearing a big integer that was never initialised) ends the computation
    with [None]. *)

Inductive mpz_name : Type :=
| N_modulus
| N_my_prime
| N_my_public_value
| N_other_public_value
| N_shared_secret
| N_generator.

Inductive resource : Type :=
| R_object
| R_gmp_helper
| R_mpz (n : mpz_name).

Inductive event : Type :=
| Acquire (r : resource)
| Release (r : resource)
| Powm.

Definition mpz_name_eqb (a b : mpz_name) : bool :=
  match a, b with
  | N_modulus, N_modulus | N_my_prime, N_my_prime
  | N_my_public_value, N_my_public_value
  | N_other_public_value, N_other_public_value
  | N_shared_secret, N_shared_secret | N_generator, N_generator => true
  | _, _ => false
  end.

Definition resource_eqb (a b : resource) : bool :=
  match a, b with
  | R_object, R_object | R_gmp_helper, R_gmp_helper => true
  | R_mpz x, R_mpz y => mpz_name_eqb x y
  | _, _ => false
  end.

Fixpoint remove_first (r : resource) (l : list resource) : list resource :=
  match l with
  | [] => []
  | x :: l' => if resource_eqb r x then l' else x :: remove_first r l'
  end.

(** What is still allocated after a log of events, starting from [held]. *)
Definition outstanding_from (held : list resource) (log : list event)
  : list resource :=
  fold_left (fun live e =>
               match e with
               | Acquire r => r :: live
               | Release r => remove_first r live
               | Powm => live
               end) log held.

Definition outstanding (log : list event) : list resource :=
  outstanding_from [] log.

Definition powm_calls (log : list event) : nat :=
  length (List.filter (fun e => match e with Powm => true | _ => false end) log).

Definition releases (log : list event) : list resource :=
  flat_map (fun e => match e with Release r => [r] | _ => [] end) log.

Definition M (A : Type) : Type := option (A * list event).

Definition ret {A} (a : A) : M A := Some (a, []).

Definition bind {A B} (m : M A) (k : A -> M B) : M B :=
  match m with
  | None => None
  | Some (a, l1) =>
      match k a with
      | None => None
      | Some (b, l2) => Some (b, l1 ++ l2)
      end
  end.

Definition emit (e : event) : M unit := Some (tt, [e]).

Definition undefined {A} : M A := None.

Notation "x <- m ;; k" := (bind m (fun x => k))
  (at level 100, m at next level, right associativity).
Notation "m ;;; k" := (bind m (fun _ => k))
  (at level 100, right associativity).

(** An [mpz_t] is initialised ([Some v]) or not ([None]). *)
Definition mpz_t : Type := option Z.

(** [mpz_init]: a fresh integer of value 0.  Whatever the variable held
    before is overwritten without being cleared. *)
Definition mpz_init (n : mpz_name) : M mpz_t :=
  emit (Acquire (R_mpz n)) ;;; ret (Some 0).

Definition mpz_init_set_ui (n : mpz_name) (v : Z) : M mpz_t :=
  emit (Acquire (R_mpz n)) ;;; ret (Some v).

(** [mpz_clear] of an integer that was never initialised is undefined. *)
Definition mpz_clear (n : mpz_name) (x : mpz_t) : M unit :=
  match x with
  | None => undefined
  | Some _ => emit (Release (R_mpz n))
  end.

(** [mpz_powm (rop, base, exp, mod)]: all four operands must be initialised. *)
Definition mpz_powm_op (rop base exp m : mpz_t) : M mpz_t :=
  match rop, base, exp, m with
  | Some _, Some b, Some e, Some p => emit Powm ;;; ret (Some (mpz_powm b e p))
  | _, _, _, _ => undefined
  end.

(** The [gmp_helper_t] methods as the exchange object calls them.  The helper
    initialises the target itself before importing the bytes: [destroy]
    clears [modulus] and [other_public_value], which nothing but
    [chunk_to_mpz] ever writes. *)
Definition helper_chunk_to_mpz (n : mpz_name) (data : chunk_t) : M mpz_t :=
  mpz_init n ;;; ret (Some (GmpHelper.chunk_to_mpz data)).

Definition helper_mpz_to_chunk (x : mpz_t) (bytes : nat)
  : M (status_t * option chunk_t) :=
  match x with
  | None => undefined
  | Some v => ret (GmpHelper.mpz_to_chunk v bytes)
  end.

(** What the surroundings decide during construction. *)
Record environment : Type := {
  alloc_thing_ok : bool;     (* allocator_alloc_thing returned a block *)
  gmp_helper_ok : bool;      (* gmp_helper_create returned a helper *)
  random_bytes : nat -> option chunk_t  (* the random source, by byte count *)
}.

(** Modelled from the spec: [init_prime] of gmp_helper.c, which is not among
    the sources.  Section 4.2, generate_exponent: a secret integer sized to
    [bytes] bytes drawn from the random source; when the source fails the
    call fails and no integer is produced. *)
Definition helper_init_prime (env : environment) (bytes : nat)
  : M (status_t * mpz_t) :=
  match random_bytes env bytes with
  | None => ret (FAILED, None)
  | Some c => v <- helper_chunk_to_mpz N_my_prime c ;; ret (SUCCESS, v)
  end.

(** ** The exchange object *)

(** The data members of [private_diffie_hellman_t].  The function pointers of
    the public interface and the three private ones always hold the functions
    below, and the helper pointer always holds the helper acquired in the
    constructor. *)
Record private_diffie_hellman_t : Type := {
  dh_group_number : Z;
  modulus : mpz_t;
  modulus_length : nat;
  generator : Z;
  my_prime : mpz_t;
  my_public_value : mpz_t;
  other_public_value : mpz_t;
  shared_secret : mpz_t;
  my_public_value_is_computed : bool;
  shared_secret_is_computed : bool
}.

Definition with_modulus (this : private_diffie_hellman_t) (v : mpz_t)
  (len : nat) (g : Z) : private_diffie_hellman_t :=
  {| dh_group_number := dh_group_number this;
     modulus := v; modulus_length := len; generator := g;
     my_prime := my_prime this;
     my_public_value := my_public_value this;
     other_public_value := other_public_value this;
     shared_secret := shared_secret this;
     my_public_value_is_computed := my_public_value_is_computed this;
     shared_secret_is_computed := shared_secret_is_computed this |}.

Definition with_my_prime (this : private_diffie_hellman_t) (v : mpz_t)
  : private_diffie_hellman_t :=
  {| dh_group_number := dh_group_number this;
     modulus := modulus this; modulus_length := modulus_length this;
     generator := generator this;
     my_prime := v;
     my_public_value := my_public_value this;
     other_public_value := other_public_value this;
     shared_secret := shared_secret this;
     my_public_value_is_computed := my_public_value_is_computed this;
     shared_secret_is_computed := shared_secret_is_computed this |}.

Definition with_my_public_value (this : private_diffie_hellman_t) (v : mpz_t)
  : private_diffie_hellman_t :=
  {| dh_group_number := dh_group_number this;
     modulus := modulus this; modulus_length := modulus_length this;
     generator := generator this;
     my_prime := my_prime this;
     my_public_value := v;
     other_public_value := other_public_value this;
     shared_secret := shared_secret this;
     my_public_value_is_computed := my_public_value_is_computed this;
     shared_secret_is_computed := shared_secret_is_computed this |}.

Definition with_other_public_value (this : private_diffie_hellman_t)
  (v : mpz_t) : private_diffie_hellman_t :=
  {| dh_group_number := dh_group_number this;
     modulus := modulus this; modulus_length := modulus_length this;
     generator := generator this;
     my_prime := my_prime this;
     my_public_value := my_public_value this;
     other_public_value := v;
     shared_secret := shared_secret this;
     my_public_value_is_computed := my_public_value_is_computed this;
     shared_secret_is_computed := shared_secret_is_computed this |}.

Definition with_shared_secret (this : private_diffie_hellman_t) (v : mpz_t)
  : private_diffie_hellman_t :=
  {| dh_group_number := dh_group_number this;
     modulus := modulus this; modulus_length := modulus_length this;
     generator := generator this;
     my_prime := my_prime this;
     my_public_value := my_public_value this;
     other_public_value := other_public_value this;
     shared_secret := v;
     my_public_value_is_computed := my_public_value_is_computed this;
     shared_secret_is_computed := shared_secret_is_computed this |}.

Definition with_flags (this : private_diffie_hellman_t) (pub sec : bool)
  : private_diffie_hellman_t :=
  {| dh_group_number := dh_group_number this;
     modulus := modulus this; modulus_length := modulus_length this;
     generator := generator this;
     my_prime := my_prime this;
     my_public_value := my_public_value this;
     other_public_value := other_public_value this;
     shared_secret := shared_secret this;
     my_public_value_is_computed := pub;
     shared_secret_is_computed := sec |}.

(** [set_modulus]: walk the table from index 0 and stop at the first entry of
    the object's group. *)
Fixpoint set_modulus_from (entries : list modulus_info_entry_t)
  (this : private_diffie_hellman_t)
  : M (status_t * private_diffie_hellman_t) :=
  match entries with
  | [] => ret (NOT_FOUND, this)
  | e :: rest =>
      if group e =? dh_group_number this
      then
        let modulus_chunk := firstn (entry_modulus_length e) (entry_modulus e) in
        v <- helper_chunk_to_mpz N_modulus modulus_chunk ;;
        ret (SUCCESS,
             with_modulus this v (length modulus_chunk) (entry_generator e))
      else set_modulus_from rest this
  end.

Definition set_modulus (this : private_diffie_hellman_t)
  : M (status_t * private_diffie_hellman_t) :=
  set_modulus_from modulus_info_entries this.

Definition compute_shared_secret (this : private_diffie_hellman_t)
  : M private_diffie_hellman_t :=
  s <- mpz_init N_shared_secret ;;
  s' <- mpz_powm_op s (other_public_value this) (my_prime this) (modulus this) ;;
  let this := with_shared_secret this s' in
  ret (with_flags this (my_public_value_is_computed this) true).

Definition set_other_public_value (this : private_diffie_hellman_t)
  (public_value : chunk_t) : M (status_t * private_diffie_hellman_t) :=
  v <- helper_chunk_to_mpz N_other_public_value public_value ;;
  this <- compute_shared_secret (with_other_public_value this v) ;;
  ret (SUCCESS, this).

Definition get_other_public_value (this : private_diffie_hellman_t)
  : M (status_t * option chunk_t) :=
  if negb (shared_secret_is_computed this)
  then ret (FAILED, None)
  else helper_mpz_to_chunk (other_public_value this) (modulus_length this).

Definition compute_public_value (this : private_diffie_hellman_t)
  : M private_diffie_hellman_t :=
  generator_mpz <- mpz_init_set_ui N_generator (generator this) ;;
  p <- mpz_init N_my_public_value ;;
  p' <- mpz_powm_op p generator_mpz (my_prime this) (modulus this) ;;
  mpz_clear N_generator generator_mpz ;;;
  let this := with_my_public_value this p' in
  ret (with_flags this true (shared_secret_is_computed this)).

Definition get_my_public_value (this : private_diffie_hellman_t)
  : M (status_t * option chunk_t * private_diffie_hellman_t) :=
  this <- (if negb (my_public_value_is_computed this)
           then compute_public_value this
           else ret this) ;;
  r <- helper_mpz_to_chunk (my_public_value this) (modulus_length this) ;;
  ret (r, this).

Definition get_shared_secret (this : private_diffie_hellman_t)
  : M (status_t * option chunk_t) :=
  if negb (shared_secret_is_computed this)
  then ret (FAILED, None)
  else helper_mpz_to_chunk (shared_secret this) (modulus_length this).

Definition destroy (this : private_diffie_hellman_t) : M status_t :=
  emit (Release R_gmp_helper) ;;;
  mpz_clear N_modulus (modulus this) ;;;
  mpz_clear N_my_prime (my_prime this) ;;;
  (if my_public_value_is_computed this
   then mpz_clear N_my_public_value (my_public_value this)
   else ret tt) ;;;
  (if shared_secret_is_computed this
   then mpz_clear N_other_public_value (other_public_value this) ;;;
        mpz_clear N_shared_secret (shared_secret this)
   else ret tt) ;;;
  emit (Release R_object) ;;;
  ret SUCCESS.

(** The block [allocator_alloc_thing] hands out: nothing in it is initialised
    yet.  The constructor assigns every scalar member before it returns the
    object, so the placeholder values below are never observed. *)
Definition fresh_object : private_diffie_hellman_t :=
  {| dh_group_number := 0;
     modulus := None; modulus_length := O; generator := 0;
     my_prime := None; my_public_value := None;
     other_public_value := None; shared_secret := None;
     my_public_value_is_computed := false;
     shared_secret_is_computed := false |}.

(** The parameter is a [diffie_hellman_group_t]; the member it is stored in
    is a [u_int16_t]. *)
Definition diffie_hellman_create (env : environment) (group_number : Z)
  : M (option private_diffie_hellman_t) :=
  if negb (alloc_thing_ok env) then ret None
  else
    emit (Acquire R_object) ;;;
    let this :=
      {| dh_group_number := group_number mod 65536;
         modulus := modulus fresh_object;
         modulus_length := modulus_length fresh_object;
         generator := generator fresh_object;
         my_prime := my_prime fresh_object;
         my_public_value := my_public_value fresh_object;
         other_public_value := other_public_value fresh_object;
         shared_secret := shared_secret fresh_object;
         my_public_value_is_computed := my_public_value_is_computed fresh_object;
         shared_secret_is_computed := shared_secret_is_computed fresh_object |} in
    if negb (gmp_helper_ok env)
    then emit (Release R_object) ;;; ret None
    else
      emit (Acquire R_gmp_helper) ;;;
      r <- set_modulus this ;;
      let '(status, this) := r in
      if negb (status_eqb status SUCCESS)
      then emit (Release R_gmp_helper) ;;; emit (Release R_object) ;;; ret None
      else
        r <- helper_init_prime env (modulus_length this) ;;
        let '(status, prime) := r in
        if negb (status_eqb status SUCCESS)
        then emit (Release R_gmp_helper) ;;; emit (Release R_object) ;;; ret None
        else
          let this := with_my_prime this prime in
          ret (Some (with_flags this false false)).

(** ** The allocator, LEAK_DETECTIVE build *)

Module Allocator.

Local Open Scope N_scope.

(** Pointers are addresses counted in units of one header; 0 is NULL.  The
    user's memory starts one header after the block's address
    ([allocated_memory + 1]). *)
Definition NULL : N := 0.

Record memory_hdr_t : Type := {
  filename : N;           (* a [const char *], compared as a pointer *)
  line : Z;
  size_of_memory : N;
  older : N;
  newer : N
}.

(** A block is its header followed by the user's bytes. *)
Record block : Type := {
  info : memory_hdr_t;
  contents : list u_int8_t
}.

Definition set_older (b : block) (p : N) : block :=
  {| info := {| filename := filename (info b); line := line (info b);
                size_of_memory := size_of_memory (info b);
                older := p; newer := newer (info b) |};
     contents := contents b |}.

Definition set_newer (b : block) (p : N) : block :=
  {| info := {| filename := filename (info b); line := line (info b);
                size_of_memory := size_of_memory (info b);
                older := older (info b); newer := p |};
     contents := contents b |}.

Definition set_contents (b : block) (c : list u_int8_t) : block :=
  {| info := info b; contents := c |}.

(** The [private_allocator_t] singleton together with the blocks that
    [malloc] has handed to it. *)
Record state : Type := {
  heap : gmap N block;
  allocations : N
}.

Definition initial : state := {| heap := ∅; allocations := NULL |}.

Inductive outcome (A : Type) : Type :=
| Done (a : A)
| AssertionFailed
| Undefined.
Arguments Done {A} a.
Arguments AssertionFailed {A}.
Arguments Undefined {A}.

Definition obind {A B} (m : outcome A) (k : A -> outcome B) : outcome B :=
  match m with
  | Done a => k a
  | AssertionFailed => AssertionFailed
  | Undefined => Undefined
  end.

Notation "x <~ m ;; k" := (obind m (fun x => k))
  (at level 100, m at next level, right associativity).
Notation "m ;;~ k" := (obind m (fun _ => k))
  (at level 100, right associativity).

(** Reading or writing through a pointer that is not a live block is
    undefined. *)
Definition load (h : gmap N block) (p : N) : outcome block :=
  match h !! p with
  | Some b => Done b
  | None => Undefined
  end.

Definition store (h : gmap N block) (p : N) (b : block)
  : outcome (gmap N block) :=
  match h !! p with
  | Some _ => Done (<[p := b]> h)
  | None => Undefined
  end.

Definition assert (c : bool) : outcome unit :=
  if c then Done tt else AssertionFailed.

(** [memcpy (dst, src, n)] on the contents of a block. *)
Definition memcpy (dst src : list u_int8_t) (n : N) : list u_int8_t :=
  firstn (N.to_nat n) src ++ skipn (N.to_nat n) dst.

(** [size_t] has 64 bits, and a header takes 40 bytes: a pointer, two
    [size_t] and two more pointers of 8 bytes each. *)
Definition SIZE_MAX : N := 18446744073709551615.

Definition sizeof_memory_hdr_t : N := 40.

(** The argument of [malloc] in [allocate_special]: the sum
    [sizeof(memory_hdr_t) + bytes] is taken in [size_t] and wraps around. *)
Definition malloc_size (bytes : N) : N :=
  (sizeof_memory_hdr_t + bytes) mod (SIZE_MAX + 1).

(** [allocate_special].  [malloc_result] is what [malloc] answered for
    [malloc_size bytes]: NULL or the address of a block of that size.  When
    the sum has wrapped the block is shorter than the header and the [bytes]
    bytes behind it, and the stores to the header and the [memset] run off
    it.  The mutex is not modelled: calls are taken one at a time. *)
Definition allocate_special (this : state) (bytes : N) (file : N) (line : Z)
  (use_mutex : bool) (malloc_result : N) : outcome (N * state) :=
  let allocated_memory := malloc_result in
  if allocated_memory =? NULL then Done (allocated_memory, this)
  else if malloc_size bytes <? sizeof_memory_hdr_t + bytes then Undefined
  else
    let h :=
      <[allocated_memory :=
          {| info := {| filename := file; line := line;
                        size_of_memory := bytes;
                        older := allocations this; newer := NULL |};
             contents := [] |}]> (heap this) in
    h <~ (if negb (allocations this =? NULL)
          then b <~ load h (allocations this) ;;
               store h (allocations this) (set_newer b allocated_memory)
          else Done h) ;;
    b <~ load h allocated_memory ;;
    h <~ store h allocated_memory (set_newer b NULL) ;;
    b <~ load h allocated_memory ;;
    h <~ store h allocated_memory
           (set_contents b (repeat Byte.x00 (N.to_nat bytes))) ;;
    Done (allocated_memory + 1,
          {| heap := h; allocations := allocated_memory |}).

Definition allocate (this : state) (bytes : N) (file : N) (line : Z)
  (malloc_result : N) : outcome (N * state) :=
  allocate_special this bytes file line true malloc_result.

(** The chunk is returned as its pointer and its length. *)
Definition allocate_as_chunk (this : state) (bytes : N) (file : N) (line : Z)
  (malloc_result : N) : outcome (N * N * state) :=
  r <~ allocate_special this bytes file line true malloc_result ;;
  let '(ptr, this) := r in
  Done (ptr, if ptr =? NULL then 0 else bytes, this).

Definition free_pointer (this : state) (pointer : N) : outcome state :=
  if pointer =? NULL then Done this
  else
    let allocated_memory := pointer - 1 in
    let h := heap this in
    b <~ load h allocated_memory ;;
    h <~ (if negb (older (info b) =? NULL)
          then ob <~ load h (older (info b)) ;;
               assert (newer (info ob) =? allocated_memory) ;;~
               store h (older (info b)) (set_newer ob (newer (info b)))
          else Done h) ;;
    b <~ load h allocated_memory ;;
    r <~ (if newer (info b) =? NULL
          then assert (allocated_memory =? allocations this) ;;~
               Done (h, older (info b))
          else nb <~ load h (newer (info b)) ;;
               assert (older (info nb) =? allocated_memory) ;;~
               h <~ store h (newer (info b)) (set_older nb (older (info b))) ;;
               Done (h, allocations this)) ;;
    let '(h, head) := r in
    b <~ load h allocated_memory ;;
    Done {| heap := delete allocated_memory h; allocations := head |}.

Definition reallocate (this : state) (old : N) (bytes : N) (file : N)
  (line : Z) (malloc_result : N) : outcome (N * state) :=
  if old =? NULL then Done (NULL, this)
  else
    let allocated_memory := old - 1 in
    r <~ allocate_special this bytes file line false malloc_result ;;
    let '(new_space, this) := r in
    if new_space =? NULL
    then this <~ free_pointer this old ;; Done (NULL, this)
    else
      ob <~ load (heap this) allocated_memory ;;
      nb <~ load (heap this) (new_space - 1) ;;
      let n := if size_of_memory (info ob) <? bytes
               then size_of_memory (info ob) else bytes in
      h <~ store (heap this) (new_space - 1)
             (set_contents nb (memcpy (contents nb) (contents ob) n)) ;;
      this <~ free_pointer {| heap := h; allocations := allocations this |} old ;;
      Done (new_space, this).

(** [to_clone] is NULL ([None]) or points at the given bytes. *)
Definition clone_bytes (this : state) (to_clone : option (list u_int8_t))
  (bytes : N) (file : N) (line : Z) (malloc_result : N)
  : outcome (N * state) :=
  match to_clone with
  | None => Done (NULL, this)
  | Some src =>
      r <~ allocate_special this bytes file line true malloc_result ;;
      let '(new_space, this) := r in
      if new_space =? NULL then Done (NULL, this)
      else
        nb <~ load (heap this) (new_space - 1) ;;
        h <~ store (heap this) (new_space - 1)
               (set_contents nb (memcpy (contents nb) src bytes)) ;;
        Done (new_space, {| heap := h; allocations := allocations this |})
  end.

(** One line of the leak report: the count and the call site. *)
Record leak_line : Type := {
  leak_count : N;
  leak_file : N;
  leak_line_number : Z
}.

(** The loop of [allocator_report_memory_leaks].  [fuel] bounds the number of
    iterations; [visited] records, oldest visit last, the blocks the loop has
    stood on.  The result is [None] when the fuel runs out. *)
Fixpoint report_loop (fuel : nat) (h : gmap N block) (p pprev : N) (n : N)
  (visited : list N) (printed : list leak_line)
  : option (outcome (list N * list leak_line)) :=
  if p =? NULL then Some (Done (rev visited, rev printed))
  else
    match fuel with
    | O => None
    | S fuel' =>
        match load h p with
        | Done b =>
            if negb (pprev =? newer (info b)) then Some AssertionFailed
            else
              let pprev' := p in
              let p' := older (info b) in
              let n' := n + 1 in
              match (if p' =? NULL then Done true
                     else pb <~ load h p' ;;
                          Done (negb (filename (info b)
                                        =? filename (info pb)))) with
              | Done true =>
                  report_loop fuel' h p' pprev' 0 (pprev' :: visited)
                    ({| leak_count := n'; leak_file := filename (info b);
                        leak_line_number := line (info b) |} :: printed)
              | Done false =>
                  report_loop fuel' h p' pprev' n' (pprev' :: visited) printed
              | AssertionFailed => Some AssertionFailed
              | Undefined => Some Undefined
              end
        | AssertionFailed => Some AssertionFailed
        | Undefined => Some Undefined
        end
    end.

Definition allocator_report_memory_leaks (fuel : nat) (this : state)
  : option (outcome (list N * list leak_line)) :=
  report_loop fuel (heap this) (allocations this) NULL 0 [] [].

(** *** Sequences of calls *)

Inductive call : Type :=
| Call_allocate (bytes file : N) (line : Z) (malloc_result : N)
| Call_allocate_as_chunk (bytes file : N) (line : Z) (malloc_result : N)
| Call_clone_bytes (to_clone : option (list u_int8_t)) (bytes file : N)
    (line : Z) (malloc_result : N)
| Call_reallocate (old : N) (bytes file : N) (line : Z) (malloc_result : N)
| Call_free_pointer (pointer : N).

(** A call returns the pointer it hands out (NULL for none). *)
Definition exec (c : call) (this : state) : outcome (N * state) :=
  match c with
  | Call_allocate bytes file line m => allocate this bytes file line m
  | Call_allocate_as_chunk bytes file line m =>
      r <~ allocate_as_chunk this bytes file line m ;;
      let '(ptr, _, this) := r in Done (ptr, this)
  | Call_clone_bytes src bytes file line m =>
      clone_bytes this src bytes file line m
  | Call_reallocate old bytes file line m =>
      reallocate this old bytes file line m
  | Call_free_pointer p =>
      this <~ free_pointer this p ;; Done (NULL, this)
  end.

(** The pointer a call gives back to the allocator (NULL for none). *)
Definition given_back (c : call) : N :=
  match c with
  | Call_reallocate old _ _ _ _ => old
  | Call_free_pointer p => p
  | _ => NULL
  end.

Definition malloc_answer (c : call) : N :=
  match c with
  | Call_allocate _ _ _ m | Call_allocate_as_chunk _ _ _ m
  | Call_clone_bytes _ _ _ _ m | Call_reallocate _ _ _ _ m => m
  | Call_free_pointer _ => NULL
  end.

Definition mem (p : N) (l : list N) : bool := existsb (N.eqb p) l.

(** The caller's bookkeeping: the pointers handed out and not yet given
    back, newest first. *)
Definition account (handed : list N) (c : call) (returned : N) : list N :=
  let kept := List.filter (fun q => negb (q =? given_back c)) handed in
  if returned =? NULL then kept else returned :: kept.

(** The bytes behind [to_clone] cover what [clone_bytes] copies. *)
Definition source_readable (c : call) : bool :=
  match c with
  | Call_clone_bytes (Some src) bytes _ _ _ => bytes <=? N.of_nat (length src)
  | _ => true
  end.

(** The number of bytes a call asks for. *)
Definition requested (c : call) : N :=
  match c with
  | Call_allocate bytes _ _ _ | Call_allocate_as_chunk bytes _ _ _
  | Call_clone_bytes _ bytes _ _ _ | Call_reallocate _ bytes _ _ _ => bytes
  | Call_free_pointer _ => 0
  end.

(** A request that leaves room for the header within [size_t]. *)
Definition size_fits (bytes : N) : bool :=
  bytes <=? SIZE_MAX - sizeof_memory_hdr_t.

(** What the program around the allocator has to respect: [malloc] answers
    NULL or a block that is not in use, only pointers that were handed out
    and not yet given back are freed or reallocated, a buffer to clone
    is as long as the caller says, and a request that [malloc] serves leaves
    room for the header within [size_t]. *)
Definition legal (c : call) (this : state) (handed : list N) : bool :=
  ((malloc_answer c =? NULL)
   || match heap this !! malloc_answer c with None => true | Some _ => false end)
  && ((given_back c =? NULL) || mem (given_back c) handed)
  && source_readable c
  && ((malloc_answer c =? NULL) || size_fits (requested c)).

Fixpoint run (calls : list call) (this : state) (handed : list N)
  : outcome (state * list N) :=
  match calls with
  | [] => Done (this, handed)
  | c :: rest =>
      r <~ exec c this ;;
      let '(returned, this') := r in
      run rest this' (account handed c returned)
  end.

Fixpoint legal_run (calls : list call) (this : state) (handed : list N)
  : bool :=
  match calls with
  | [] => true
  | c :: rest =>
      legal c this handed
      && match exec c this with
         | Done (returned, this') =>
             legal_run rest this' (account handed c returned)
         | _ => true
         end
  end.

(** *** The shape of the allocation list *)

(** [chain h prev l last]: the blocks [l] are linked in this order through
    [older], each one's [newer] is its predecessor ([prev] for the first),
    and the [older] of the final one is [last]. *)
Fixpoint chain (h : gmap N block) (prev : N) (l : list N) (last : N) : Prop :=
  match l with
  | [] => True
  | a :: l' =>
      exists b, h !! a = Some b
                /\ newer (info b) = prev
                /\ older (info b) = hd last l'
                /\ chain h a l' last
  end.

(** The allocator holds exactly the blocks [nodes], newest first, as a
    doubly linked list starting at [allocations]. *)
Record well_formed (this : state) (nodes : list N) : Prop := {
  wf_head : allocations this = hd NULL nodes;
  wf_chain : chain (heap this) NULL nodes NULL;
  wf_nodup : List.NoDup nodes;
  wf_nonnull : ~ In NULL nodes;
  wf_domain : forall a, is_Some (heap this !! a) <-> In a nodes
}.

(** The list without the block at [a]. *)
Definition without (a : N) (l : list N) : list N :=
  List.filter (fun x => negb (x =? a)) l.

(** The pointer the user holds for the block at [a]. *)
Definition user_pointer (a : N) : N := a + 1.

(** The number of allocations a leak report accounts for. *)
Definition reported (lines : list leak_line) : N :=
  fold_right (fun l acc => leak_count l + acc) 0 lines.

(** A sample run: three allocations from two call sites, the middle one
    freed, the first one reallocated. *)
Definition sample_calls : list call :=
  [ Call_allocate 16 100 10 8;
    Call_allocate_as_chunk 4 100 11 20;
    Call_clone_bytes (Some [Byte.x01; Byte.x02]) 2 200 7 32;
    Call_free_pointer 21;
    Call_reallocate 9 32 100 12 40 ].

End Allocator.

(** ** Definitions used to state the properties *)

(** Group resolution as a function of the group number alone: the entry
    [set_modulus] stops at. *)
Definition lookup_group (g : Z) : option modulus_info_entry_t :=
  List.find (fun e => group e =? g) modulus_info_entries.

(** The bit length each enumerator carries in its name. *)
Definition standard_bits (g : Z) : option Z :=
  if g =? MODP_768_BIT then Some 768
  else if g =? MODP_1024_BIT then Some 1024
  else if g =? MODP_1536_BIT then Some 1536
  else if g =? MODP_2048_BIT then Some 2048
  else if g =? MODP_3072_BIT then Some 3072
  else if g =? MODP_4096_BIT then Some 4096
  else if g =? MODP_6144_BIT then Some 6144
  else if g =? MODP_8192_BIT then Some 8192
  else None.

Definition high_bit_set (b : u_int8_t) : bool := Z.testbit (byte_to_Z b) 7.

Definition mpz_eqb (x y : mpz_t) : bool :=
  match x, y with
  | Some a, Some b => a =? b
  | None, None => true
  | _, _ => false
  end.

(** What every entry of the table satisfies: the length is the length of
    the array, the generator is 2, the modulus is positive with the high bit
    of its first byte set, and the length is the bit length of the group
    over 8. *)
Definition entry_ok (e : modulus_info_entry_t) : bool :=
  (entry_modulus_length e =? length (entry_modulus e))%nat
  && (entry_generator e =? 2)
  && (0 <? GmpHelper.chunk_to_mpz (entry_modulus e))
  && match entry_modulus e with
     | b :: _ => high_bit_set b
     | [] => false
     end
  && match standard_bits (group e) with
     | Some bits => Z.of_nat (entry_modulus_length e) =? bits / 8
     | None => false
     end.

(** The big-integer member of an object that a resource name stands for;
    [N_generator] names the local of [compute_public_value], which no object
    holds. *)
Definition member (this : private_diffie_hellman_t) (n : mpz_name) : mpz_t :=
  match n with
  | N_modulus => modulus this
  | N_my_prime => my_prime this
  | N_my_public_value => my_public_value this
  | N_other_public_value => other_public_value this
  | N_shared_secret => shared_secret this
  | N_generator => None
  end.

Definition initialised (this : private_diffie_hellman_t) (n : mpz_name) : Prop :=
  member this n <> None.

(** The representation invariant of an exchange object: its group is in the
    table and the modulus, length and generator are the entry's; the private
    exponent and the peer's value are imported magnitudes; each flag says
    whether the integers it guards are initialised, and those hold the values
    the object computes from its exponent. *)
Definition valid (this : private_diffie_hellman_t) : bool :=
  match lookup_group (dh_group_number this), my_prime this with
  | Some e, Some a =>
      let p := GmpHelper.chunk_to_mpz (entry_modulus e) in
      mpz_eqb (modulus this) (Some p)
      && (modulus_length this =? entry_modulus_length e)%nat
      && (generator this =? entry_generator e)
      && (0 <=? a)
      && (if my_public_value_is_computed this
          then mpz_eqb (my_public_value this)
                 (Some (mpz_powm (generator this) a p))
          else mpz_eqb (my_public_value this) None)
      && (if shared_secret_is_computed this
          then match other_public_value this with
               | Some o =>
                   (0 <=? o)
                   && mpz_eqb (shared_secret this) (Some (mpz_powm o a p))
               | None => false
               end
          else mpz_eqb (other_public_value this) None
               && mpz_eqb (shared_secret this) None)
  | _, _ => false
  end.

(** The invariant, unfolded. *)
Record valid_facts (this : private_diffie_hellman_t)
  (e : modulus_info_entry_t) (a p : Z) : Prop := {
  vf_lookup : lookup_group (dh_group_number this) = Some e;
  vf_prime : my_prime this = Some a;
  vf_prime_nonneg : 0 <= a;
  vf_p : p = GmpHelper.chunk_to_mpz (entry_modulus e);
  vf_modulus : modulus this = Some p;
  vf_length : modulus_length this = entry_modulus_length e;
  vf_generator : generator this = entry_generator e;
  vf_public :
    if my_public_value_is_computed this
    then my_public_value this = Some (mpz_powm (generator this) a p)
    else my_public_value this = None;
  vf_shared :
    if shared_secret_is_computed this
    then exists o, other_public_value this = Some o
                   /\ 0 <= o
                   /\ shared_secret this = Some (mpz_powm o a p)
    else other_public_value this = None /\ shared_secret this = None
}.

(** What [set_other_public_value] leaves, as a function of the object and
    the decoded peer value. *)
Definition after_set (this : private_diffie_hellman_t) (o a p : Z)
  : private_diffie_hellman_t :=
  with_flags
    (with_shared_secret (with_other_public_value this (Some o))
       (Some (mpz_powm o a p)))
    (my_public_value_is_computed this) true.

(** The calls a holder of the object can make before destroying it. *)
Inductive operation : Type :=
| Get_my_public_value
| Set_other_public_value (public_value : chunk_t)
| Get_other_public_value
| Get_shared_secret.

(** One call; what it returns is dropped, what it leaves of the object is
    kept. *)
Definition perform (o : operation) (this : private_diffie_hellman_t)
  : M private_diffie_hellman_t :=
  match o with
  | Get_my_public_value =>
      r <- get_my_public_value this ;; let '(_, this) := r in ret this
  | Set_other_public_value c =>
      r <- set_other_public_value this c ;; let '(_, this) := r in ret this
  | Get_other_public_value => get_other_public_value this ;;; ret this
  | Get_shared_secret => get_shared_secret this ;;; ret this
  end.

Fixpoint perform_all (ops : list operation) (this : private_diffie_hellman_t)
  : M private_diffie_hellman_t :=
  match ops with
  | [] => ret this
  | o :: rest => this <- perform o this ;; perform_all rest this
  end.

(** An object's life so far: construction for a group, then a sequence of
    calls.  The result is the object as it stands ([None] when the
    constructor returned NULL). *)
Definition lifetime (env : environment) (group_number : Z)
  (ops : list operation) : M (option private_diffie_hellman_t) :=
  r <- diffie_hellman_create env group_number ;;
  match r with
  | None => ret None
  | Some this => this <- perform_all ops this ;; ret (Some this)
  end.

(** The chunk of the latest [set_other_public_value] among the calls. *)
Fixpoint last_peer (ops : list operation) : option chunk_t :=
  match ops with
  | [] => None
  | o :: rest =>
      match last_peer rest with
      | Some c => Some c
      | None =>
          match o with
          | Set_other_public_value c => Some c
          | _ => None
          end
      end
  end.

(** A chunk is the wire form of [v] at width [n]: [n] bytes, the shortest
    big-endian encoding of [v] with zero bytes in front. *)
Definition wire_form (c : chunk_t) (v : Z) (n : nat) : Prop :=
  length c = n
  /\ c = repeat Byte.x00 (n - GmpHelper.natural_length v)
           ++ GmpHelper.be_bytes (GmpHelper.natural_length v) v
  /\ GmpHelper.chunk_to_mpz c = v.

(** Surroundings in which construction goes through and the random source
    delivers the given bytes. *)
Definition environment_with (random : chunk_t) : environment :=
  {| alloc_thing_ok := true; gmp_helper_ok := true;
     random_bytes := fun _ => Some random |}.

(** Surroundings in which the random source fails. *)
Definition environment_without_randomness : environment :=
  {| alloc_thing_ok := true; gmp_helper_ok := true;
     random_bytes := fun _ => None |}.

(** *** Sample objects

    Two parties on the 768-bit group whose random sources deliver 96 bytes
    each, encoding the exponents 5 and 7, and a peer value one byte longer
    than the group's width. *)
Definition alice_env : environment :=
  environment_with (repeat Byte.x00 95 ++ [Byte.x05]).
Definition bob_env : environment :=
  environment_with (repeat Byte.x00 95 ++ [Byte.x07]).

Definition object_after (env : environment) (ops : list operation)
  : private_diffie_hellman_t :=
  match lifetime env MODP_768_BIT ops with
  | Some (Some this, _) => this
  | _ => fresh_object
  end.

Definition log_after (env : environment) (ops : list operation)
  : list event :=
  match lifetime env MODP_768_BIT ops with
  | Some (_, log) => log
  | None => []
  end.

Definition oversized_chunk : chunk_t := Byte.x01 :: repeat Byte.x00 96.

Definition small_chunk : chunk_t := [Byte.x09].

(** Alice's object after the peer's value 9 has been set. *)
Definition alice_midway : private_diffie_hellman_t :=
  object_after alice_env [Set_other_public_value small_chunk].

(** Alice's object after the oversized peer value has been set. *)
Definition alice_oversized : private_diffie_hellman_t :=
  object_after alice_env [Set_other_public_value oversized_chunk].

(** ** More about the allocator: definitions *)

Section AllocatorDetails.

Import Allocator.
Local Open Scope N_scope.

(** The block [allocate_special] leaves behind for a request. *)
Definition fresh_block (bytes file : N) (line : Z) (head : N) : block :=
  {| info := {| filename := file; line := line; size_of_memory := bytes;
                older := head; newer := NULL |};
     contents := repeat Byte.x00 (N.to_nat bytes) |}.

(** What a holder of a block can observe of it: the call site it was
    allocated from, its size and its bytes. *)
Definition payload (b : block) : N * Z * N * list u_int8_t :=
  (filename (info b), line (info b), size_of_memory (info b), contents b).

(** Every block holds as many bytes as its header says. *)
Definition sized (this : state) : Prop :=
  forall a b, heap this !! a = Some b ->
              length (contents b) = N.to_nat (size_of_memory (info b)).

(** The bytes a reallocation carries over: as many as the smaller of the
    two sizes. *)
Definition carried_over (b : block) (bytes : N) : N :=
  if size_of_memory (info b) <? bytes then size_of_memory (info b) else bytes.

(** The block a call adds, as its address and what its holder observes of
    it; [None] when the call adds none. *)
Definition added (c : call) (this : state)
  : option (N * (N * Z * N * list u_int8_t)) :=
  let zeros bytes := repeat Byte.x00 (N.to_nat bytes) in
  match c with
  | Call_allocate bytes file line m
  | Call_allocate_as_chunk bytes file line m =>
      if m =? NULL then None else Some (m, (file, line, bytes, zeros bytes))
  | Call_clone_bytes (Some src) bytes file line m =>
      if m =? NULL then None
      else Some (m, (file, line, bytes, memcpy (zeros bytes) src bytes))
  | Call_clone_bytes None _ _ _ _ => None
  | Call_reallocate old bytes file line m =>
      if (old =? NULL) || (m =? NULL) then None
      else
        match heap this !! (old - 1) with
        | Some ob =>
            Some (m, (file, line, bytes,
                      memcpy (zeros bytes) (contents ob)
                        (carried_over ob bytes)))
        | None => None
        end
  | Call_free_pointer _ => None
  end.

(** What the holders of blocks observe after a call, block by block. *)
Definition observed_after (c : call) (this : state) (j : N)
  : option (N * Z * N * list u_int8_t) :=
  match added c this with
  | Some (m, p) =>
      if j =? m then Some p
      else if user_pointer j =? given_back c then None
           else payload <$> (heap this !! j)
  | None =>
      if user_pointer j =? given_back c then None
      else payload <$> (heap this !! j)
  end.

(** The call site recorded in the block at [a]. *)
Definition site_at (h : gmap N block) (a : N) : N * Z :=
  match h !! a with
  | Some b => (filename (info b), line (info b))
  | None => (NULL, 0%Z)
  end.

(** The lines of a leak report for a list of call sites, newest first: one
    line per maximal run of equal file names, with the length of the run
    ([n] counts the sites of the current run already passed) and the line
    number of the run's final site. *)
Fixpoint runs (n : N) (sites : list (N * Z)) : list leak_line :=
  match sites with
  | [] => []
  | (f, ln) :: rest =>
      match rest with
      | [] => [ {| leak_count := n + 1; leak_file := f;
                   leak_line_number := ln |} ]
      | (f', _) :: _ =>
          if f =? f' then runs (n + 1) rest
          else {| leak_count := n + 1; leak_file := f;
                  leak_line_number := ln |} :: runs 0 rest
      end
  end.

(** The allocator and the caller's account after the sample run. *)
Definition sample_state : state :=
  match run sample_calls initial [] with
  | Done (this, _) => this
  | _ => initial
  end.

Definition sample_handed : list N :=
  match run sample_calls initial [] with
  | Done (_, handed) => handed
  | _ => []
  end.

(** A run that leaves three blocks, all allocated from one file. *)
Definition one_file_calls : list call :=
  [ Call_allocate 4 100 10 8;
    Call_allocate 4 100 20 16;
    Call_allocate 2 100 30 24 ].

Definition one_file_state : state :=
  match run one_file_calls initial [] with
  | Done (this, _) => this
  | _ => initial
  end.

Definition one_file_handed : list N :=
  match run one_file_calls initial [] with
  | Done (_, handed) => handed
  | _ => []
  end.

End AllocatorDetails.

(** ** More about the exchange object: definitions *)

(** How many times a resource occurs among those still allocated. *)
Fixpoint tally (r : resource) (l : list resource) : nat :=
  match l with
  | [] => 0
  | x :: l' => (if resource_eqb r x then 1 else 0) + tally r l'
  end.

Definition is_set (o : operation) : bool :=
  match o with
  | Set_other_public_value _ => true
  | _ => false
  end.

(** The number of [set_other_public_value] calls among the calls. *)
Definition peer_sets (ops : list operation) : nat :=
  length (List.filter is_set ops).

(** What an object holds while it is alive, resource by resource, when
    [set_other_public_value] has been called [k] times on it. *)
Definition held_by (this : private_diffie_hellman_t) (k : nat) (r : resource)
  : nat :=
  match r with
  | R_object | R_gmp_helper | R_mpz N_modulus | R_mpz N_my_prime => 1
  | R_mpz N_my_public_value =>
      if my_public_value_is_computed this then 1 else 0
  | R_mpz N_other_public_value | R_mpz N_shared_secret => k
  | R_mpz N_generator => 0
  end.

(** Alice's object after two peers have been set, one after the other. *)
Definition two_peers : list operation :=
  [ Set_other_public_value small_chunk;
    Get_my_public_value;
    Set_other_public_value [Byte.x01; Byte.x00] ].

Definition zero_chunk : chunk_t := repeat Byte.x00 96.

Definition is_get_my_public_value (o : operation) : bool :=
  match o with
  | Get_my_public_value => true
  | _ => false
  end.

(** The members of an object that its constructor fills in for good. *)
Definition parameters (this : private_diffie_hellman_t)
  : Z * mpz_t * nat * Z * mpz_t :=
  (dh_group_number this, modulus this, modulus_length this, generator this,
   my_prime this).

(** * Properties *)

(** ** Bytes and the adapter *)

Section Adapter.

Import GmpHelper.

Lemma byte_to_Z_range (b : u_int8_t) : 0 <= byte_to_Z b < 256.
Proof.
  unfold byte_to_Z. pose proof (Byte.to_N_bounded b). lia.
Qed.

Lemma byte_to_Z_of_Z (z : Z) : byte_to_Z (Z_to_byte z) = z mod 256.
Proof.
  unfold byte_to_Z, Z_to_byte.
  assert (Hr : 0 <= z mod 256 < 256) by (apply Z.mod_pos_bound; lia).
  destruct (Byte.of_N (Z.to_N (z mod 256))) as [b|] eqn:E.
  - apply Byte.to_of_N in E. rewrite E. lia.
  - apply Byte.of_N_None_iff in E. lia.
Qed.

Lemma Z_to_byte_zero : Z_to_byte 0 = Byte.x00.
Proof. reflexivity. Qed.

Lemma chunk_to_mpz_snoc (l : chunk_t) (b : u_int8_t) :
  chunk_to_mpz (l ++ [b]) = chunk_to_mpz l * 256 + byte_to_Z b.
Proof. unfold chunk_to_mpz. rewrite fold_left_app. reflexivity. Qed.

Lemma chunk_to_mpz_bounds (l : chunk_t) :
  0 <= chunk_to_mpz l < 256 ^ Z.of_nat (length l).
Proof.
  induction l as [|b l IH] using rev_ind.
  - cbn. lia.
  - rewrite chunk_to_mpz_snoc, length_app, Nat2Z.inj_add. cbn [length].
    rewrite Z.pow_add_r by lia. change (256 ^ Z.of_nat 1) with 256.
    pose proof (byte_to_Z_range b). nia.
Qed.

Lemma chunk_to_mpz_nonneg (l : chunk_t) : 0 <= chunk_to_mpz l.
Proof. apply chunk_to_mpz_bounds. Qed.

Lemma chunk_to_mpz_be_bytes (n : nat) (v : Z) :
  chunk_to_mpz (be_bytes n v) = v mod 256 ^ Z.of_nat n.
Proof.
  unfold be_bytes. revert v.
  induction n as [|n IH]; intros v.
  - cbn. now rewrite Z.mod_1_r.
  - cbn [le_bytes rev]. rewrite chunk_to_mpz_snoc, IH, byte_to_Z_of_Z.
    rewrite Nat2Z.inj_succ, Z.pow_succ_r by lia.
    rewrite Z.rem_mul_r by lia.
    lia.
Qed.

Lemma length_le_bytes (n : nat) (v : Z) : length (le_bytes n v) = n.
Proof. revert v. induction n; intros; cbn; congruence. Qed.

Lemma length_be_bytes (n : nat) (v : Z) : length (be_bytes n v) = n.
Proof. unfold be_bytes. now rewrite length_rev, length_le_bytes. Qed.

Lemma le_bytes_zero (n : nat) : le_bytes n 0 = repeat Byte.x00 n.
Proof.
  induction n as [|n IH]; [reflexivity|].
  cbn [le_bytes repeat]. change (0 / 256) with 0. rewrite IH.
  reflexivity.
Qed.

Lemma le_bytes_add (a b : nat) (v : Z) :
  le_bytes (a + b) v = le_bytes a v ++ le_bytes b (v / 256 ^ Z.of_nat a).
Proof.
  revert v. induction a as [|a IH]; intros v.
  - cbn. now rewrite Z.div_1_r.
  - cbn [Nat.add le_bytes app]. rewrite IH. f_equal. f_equal.
    rewrite Nat2Z.inj_succ, Z.pow_succ_r by lia.
    rewrite Z.div_div by lia. reflexivity.
Qed.

Lemma natural_length_fits (v : Z) :
  0 <= v -> v < 256 ^ Z.of_nat (natural_length v).
Proof.
  intros Hv. unfold natural_length.
  destruct (v <=? 0) eqn:E.
  - apply Z.leb_le in E. cbn. lia.
  - apply Z.leb_gt in E.
    pose proof (Z.log2_nonneg v) as Hl.
    assert (Hq : 0 <= Z.log2 v / 8) by (apply Z.div_pos; lia).
    rewrite Z2Nat.id by lia.
    change 256 with (2 ^ 8). rewrite <- Z.pow_mul_r by lia.
    apply Z.log2_lt_pow2; [lia|].
    pose proof (Z.mul_succ_div_gt (Z.log2 v) 8 ltac:(lia)). lia.
Qed.

Lemma natural_length_le (v : Z) (n : nat) :
  0 <= v < 256 ^ Z.of_nat n -> (natural_length v <= n)%nat.
Proof.
  intros [Hv Hlt]. unfold natural_length.
  destruct (v <=? 0) eqn:E; [lia|].
  apply Z.leb_gt in E.
  change 256 with (2 ^ 8) in Hlt. rewrite <- Z.pow_mul_r in Hlt by lia.
  apply Z.log2_lt_pow2 in Hlt; [|lia].
  pose proof (Z.log2_nonneg v) as Hl.
  assert (Hq : Z.log2 v / 8 < Z.of_nat n)
    by (apply Z.div_lt_upper_bound; lia).
  assert (0 <= Z.log2 v / 8) by (apply Z.div_pos; lia).
  lia.
Qed.

Lemma natural_length_minimal (v : Z) (n : nat) :
  0 <= v -> (natural_length v <= n)%nat -> v < 256 ^ Z.of_nat n.
Proof.
  intros Hv Hn. pose proof (natural_length_fits v Hv) as Hf.
  eapply Z.lt_le_trans; [exact Hf|].
  apply Z.pow_le_mono_r; lia.
Qed.

(** Padding the natural encoding on the left is the fixed-width encoding. *)
Lemma pad_be_bytes (v : Z) (n : nat) :
  0 <= v -> (natural_length v <= n)%nat ->
  repeat Byte.x00 (n - natural_length v) ++ be_bytes (natural_length v) v
  = be_bytes n v.
Proof.
  intros Hv Hn. unfold be_bytes.
  replace n with (natural_length v + (n - natural_length v))%nat at 2 by lia.
  rewrite le_bytes_add, rev_app_distr.
  rewrite Z.div_small by (split; [lia|now apply natural_length_fits]).
  rewrite le_bytes_zero. f_equal.
  generalize (n - natural_length v)%nat as k.
  induction k as [|k IH]; [reflexivity|].
  cbn [repeat rev]. rewrite <- IH. apply repeat_cons.
Qed.

Lemma mpz_to_chunk_fits (v : Z) (n : nat) :
  0 <= v < 256 ^ Z.of_nat n ->
  mpz_to_chunk v n = (SUCCESS, Some (be_bytes n v)).
Proof.
  intros Hv. unfold mpz_to_chunk.
  pose proof (natural_length_le v n Hv) as Hn.
  destruct (Nat.leb_spec (natural_length v) n); [|lia].
  now rewrite pad_be_bytes by lia.
Qed.

Lemma mpz_to_chunk_too_long (v : Z) (n : nat) :
  256 ^ Z.of_nat n <= v -> mpz_to_chunk v n = (FAILED, None).
Proof.
  intros Hv. unfold mpz_to_chunk.
  destruct (Nat.leb_spec (natural_length v) n) as [Hn|]; [|reflexivity].
  assert (0 <= v) by (pose proof (Z.pow_nonneg 256 (Z.of_nat n)); lia).
  pose proof (natural_length_minimal v n ltac:(lia) Hn). lia.
Qed.

Lemma chunk_to_mpz_leading_zeros (k : nat) (l : chunk_t) :
  chunk_to_mpz (repeat Byte.x00 k ++ l) = chunk_to_mpz l.
Proof.
  unfold chunk_to_mpz. rewrite fold_left_app. f_equal.
  induction k; [reflexivity|]. cbn [repeat fold_left]. exact IHk.
Qed.

End Adapter.

(** ** Modular exponentiation *)

Lemma powm_pos_spec (b : Z) (e : positive) (m : Z) :
  powm_pos b e m = (b ^ Zpos e) mod m.
Proof.
  induction e as [e IH|e IH|]; cbn [powm_pos].
  - rewrite IH. rewrite Pos2Z.inj_xI.
    replace (2 * Z.pos e + 1) with (Z.pos e + Z.pos e + 1) by lia.
    rewrite !Z.pow_add_r, Z.pow_1_r by lia.
    rewrite <- Zmult_mod. now rewrite Zmult_mod_idemp_l.
  - rewrite IH. rewrite Pos2Z.inj_xO.
    replace (2 * Z.pos e) with (Z.pos e + Z.pos e) by lia.
    rewrite Z.pow_add_r by lia.
    now rewrite <- Zmult_mod.
  - now rewrite Z.pow_1_r.
Qed.

Lemma mpz_powm_spec (b e m : Z) : mpz_powm b e m = (b ^ e) mod m.
Proof.
  destruct e as [|e|e]; cbn [mpz_powm].
  - reflexivity.
  - apply powm_pos_spec.
  - reflexivity.
Qed.

Lemma mpz_powm_range (b e m : Z) : 0 < m -> 0 <= mpz_powm b e m < m.
Proof. intros Hm. rewrite mpz_powm_spec. apply Z.mod_pos_bound, Hm. Qed.

(** The heart of the exchange: exponents commute under the modulus. *)
Lemma mpz_powm_exchange (g a b p : Z) :
  0 < p -> 0 <= a -> 0 <= b ->
  mpz_powm (mpz_powm g a p) b p = (g ^ (a * b)) mod p.
Proof.
  intros Hp Ha Hb. rewrite !mpz_powm_spec.
  rewrite <- Zpower_mod by lia. now rewrite <- Z.pow_mul_r.
Qed.

Arguments mpz_powm : simpl never.
Arguments GmpHelper.chunk_to_mpz : simpl never.
Arguments GmpHelper.mpz_to_chunk : simpl never.
Arguments GmpHelper.be_bytes : simpl never.

(** ** The group table *)

Section GroupTable.

Import GmpHelper.

Lemma entries_ok : forallb entry_ok modulus_info_entries = true.
Proof. vm_compute. reflexivity. Qed.

Lemma lookup_group_In (g : Z) (e : modulus_info_entry_t) :
  lookup_group g = Some e -> In e modulus_info_entries /\ group e = g.
Proof.
  unfold lookup_group. intros H. apply find_some in H.
  destruct H as [Hin Hg]. apply Z.eqb_eq in Hg. auto.
Qed.

Lemma lookup_group_ok (g : Z) (e : modulus_info_entry_t) :
  lookup_group g = Some e -> entry_ok e = true /\ group e = g.
Proof.
  intros H. apply lookup_group_In in H. destruct H as [Hin Hg].
  split; [|exact Hg].
  pose proof entries_ok as Hall. rewrite forallb_forall in Hall. auto.
Qed.

Lemma lookup_group_standard (g : Z) :
  lookup_group g = None <-> standard_bits g = None.
Proof.
  unfold lookup_group, standard_bits, modulus_info_entries.
  cbn [List.find group].
  rewrite !(Z.eqb_sym _ g).
  repeat destruct (g =? _); split; intros; congruence.
Qed.

Lemma entry_ok_facts (e : modulus_info_entry_t) :
  entry_ok e = true ->
  entry_modulus_length e = length (entry_modulus e)
  /\ entry_generator e = 2
  /\ 0 < chunk_to_mpz (entry_modulus e)
       < 256 ^ Z.of_nat (entry_modulus_length e).
Proof.
  unfold entry_ok. rewrite !andb_true_iff.
  intros [[[[Hl Hg] Hp] _] _].
  apply Nat.eqb_eq in Hl. apply Z.eqb_eq in Hg. apply Z.ltb_lt in Hp.
  repeat split; try assumption.
  rewrite Hl. apply chunk_to_mpz_bounds.
Qed.

Lemma set_modulus_from_find (entries : list modulus_info_entry_t)
  (this : private_diffie_hellman_t) :
  set_modulus_from entries this =
  match List.find (fun e => group e =? dh_group_number this) entries with
  | Some e =>
      Some ((SUCCESS,
             with_modulus this
               (Some (chunk_to_mpz
                        (firstn (entry_modulus_length e) (entry_modulus e))))
               (length (firstn (entry_modulus_length e) (entry_modulus e)))
               (entry_generator e)),
            [Acquire (R_mpz N_modulus)])
  | None => Some ((NOT_FOUND, this), [])
  end.
Proof.
  induction entries as [|e rest IH]; [reflexivity|].
  cbn [set_modulus_from List.find].
  destruct (group e =? dh_group_number this); [reflexivity|exact IH].
Qed.

Lemma set_modulus_lookup (this : private_diffie_hellman_t) :
  set_modulus this =
  match lookup_group (dh_group_number this) with
  | Some e =>
      Some ((SUCCESS,
             with_modulus this (Some (chunk_to_mpz (entry_modulus e)))
               (entry_modulus_length e) (entry_generator e)),
            [Acquire (R_mpz N_modulus)])
  | None => Some ((NOT_FOUND, this), [])
  end.
Proof.
  unfold set_modulus, lookup_group. rewrite set_modulus_from_find.
  destruct (List.find _ modulus_info_entries) as [e|] eqn:E; [|reflexivity].
  destruct (lookup_group_ok _ _ E) as [Hok _].
  apply entry_ok_facts in Hok. destruct Hok as [Hl _].
  rewrite Hl, firstn_all. reflexivity.
Qed.

End GroupTable.

(** ** The exchange object *)

Section Exchange.

Import GmpHelper.

Lemma mpz_eqb_eq (x y : mpz_t) : mpz_eqb x y = true <-> x = y.
Proof.
  destruct x as [a|], y as [b|]; cbn; try (split; congruence).
  rewrite Z.eqb_eq. split; congruence.
Qed.

Lemma valid_iff (this : private_diffie_hellman_t) :
  valid this = true <-> exists e a p, valid_facts this e a p.
Proof.
  unfold valid. split.
  - destruct (lookup_group (dh_group_number this)) as [e|] eqn:El;
      [|discriminate].
    destruct (my_prime this) as [a|] eqn:Ea; [|discriminate].
    rewrite !andb_true_iff.
    intros [[[[[Hm Hl] Hg] Hn] Hpub] Hsec].
    exists e, a, (chunk_to_mpz (entry_modulus e)).
    apply mpz_eqb_eq in Hm. apply Nat.eqb_eq in Hl.
    apply Z.eqb_eq in Hg. apply Z.leb_le in Hn.
    constructor; try assumption; try reflexivity.
    + destruct (my_public_value_is_computed this);
        now apply mpz_eqb_eq in Hpub.
    + destruct (shared_secret_is_computed this).
      * destruct (other_public_value this) as [o|]; [|discriminate].
        apply andb_true_iff in Hsec. destruct Hsec as [Ho Hs].
        exists o. split; [reflexivity|].
        split; [now apply Z.leb_le|now apply mpz_eqb_eq].
      * apply andb_true_iff in Hsec. destruct Hsec as [H1 H2].
        split; now apply mpz_eqb_eq.
  - intros (e & a & p & [Hl Ha Hn Hp Hm Hlen Hg Hpub Hsec]).
    rewrite Hl, Ha. subst p. rewrite !andb_true_iff. repeat split.
    + now apply mpz_eqb_eq.
    + now apply Nat.eqb_eq.
    + now apply Z.eqb_eq.
    + now apply Z.leb_le.
    + destruct (my_public_value_is_computed this); now apply mpz_eqb_eq.
    + destruct (shared_secret_is_computed this).
      * destruct Hsec as (o & Ho & Hoo & Hs). rewrite Ho.
        apply andb_true_iff. split; [now apply Z.leb_le|now apply mpz_eqb_eq].
      * destruct Hsec as [H1 H2]. apply andb_true_iff.
        split; now apply mpz_eqb_eq.
Qed.

(** The modulus of a valid object is positive and fits its wire width. *)
Lemma valid_facts_modulus this e a p :
  valid_facts this e a p ->
  generator this = 2 /\ 0 < p < 256 ^ Z.of_nat (modulus_length this).
Proof.
  intros [Hl _ _ Hp _ Hlen Hg _ _].
  destruct (lookup_group_ok _ _ Hl) as [Hok _].
  apply entry_ok_facts in Hok. destruct Hok as (_ & Hg2 & Hb).
  subst p. rewrite Hlen, Hg. auto.
Qed.

Lemma residue_to_chunk (v p : Z) (n : nat) :
  0 < p < 256 ^ Z.of_nat n -> 0 <= v < p ->
  mpz_to_chunk v n = (SUCCESS, Some (be_bytes n v)).
Proof. intros Hp Hv. apply mpz_to_chunk_fits. lia. Qed.

(** *** Construction *)

Lemma create_outcomes (env : environment) (g : Z) :
  diffie_hellman_create env g =
  if negb (alloc_thing_ok env) then Some (None, [])
  else if negb (gmp_helper_ok env)
  then Some (None, [Acquire R_object; Release R_object])
  else
    match lookup_group (g mod 65536) with
    | None =>
        Some (None, [Acquire R_object; Acquire R_gmp_helper;
                     Release R_gmp_helper; Release R_object])
    | Some e =>
        match random_bytes env (entry_modulus_length e) with
        | None =>
            Some (None, [Acquire R_object; Acquire R_gmp_helper;
                         Acquire (R_mpz N_modulus);
                         Release R_gmp_helper; Release R_object])
        | Some c =>
            Some (Some {| dh_group_number := g mod 65536;
                          modulus := Some (chunk_to_mpz (entry_modulus e));
                          modulus_length := entry_modulus_length e;
                          generator := entry_generator e;
                          my_prime := Some (chunk_to_mpz c);
                          my_public_value := None;
                          other_public_value := None;
                          shared_secret := None;
                          my_public_value_is_computed := false;
                          shared_secret_is_computed := false |},
                  [Acquire R_object; Acquire R_gmp_helper;
                   Acquire (R_mpz N_modulus); Acquire (R_mpz N_my_prime)])
        end
    end.
Proof.
  unfold diffie_hellman_create.
  destruct (alloc_thing_ok env); [|reflexivity].
  destruct (gmp_helper_ok env); [|reflexivity].
  cbn [negb]. rewrite set_modulus_lookup. cbn [dh_group_number].
  destruct (lookup_group (g mod 65536)) as [e|]; [|reflexivity].
  unfold helper_init_prime. cbn.
  destruct (random_bytes env (entry_modulus_length e)); reflexivity.
Qed.

Lemma create_valid env g this log :
  diffie_hellman_create env g = Some (Some this, log) ->
  valid this = true
  /\ my_public_value_is_computed this = false
  /\ shared_secret_is_computed this = false.
Proof.
  rewrite create_outcomes.
  destruct (alloc_thing_ok env); [|discriminate].
  destruct (gmp_helper_ok env); [|discriminate].
  cbn [negb].
  destruct (lookup_group (g mod 65536)) as [e|] eqn:El; [|discriminate].
  destruct (random_bytes env (entry_modulus_length e)) as [c|];
    [|discriminate].
  intros H. injection H as <- <-. cbn. repeat split.
  apply valid_iff. exists e, (chunk_to_mpz c), (chunk_to_mpz (entry_modulus e)).
  constructor; cbn; auto using chunk_to_mpz_nonneg.
Qed.

(** *** The operations on a valid object *)

Lemma get_my_public_value_valid this e a p :
  valid_facts this e a p ->
  let v := mpz_powm (generator this) a p in
  get_my_public_value this =
  Some ((SUCCESS, Some (be_bytes (modulus_length this) v)),
        (if my_public_value_is_computed this then this
         else with_flags (with_my_public_value this (Some v)) true
                (shared_secret_is_computed this)),
        (if my_public_value_is_computed this then []
         else [Acquire (R_mpz N_generator); Acquire (R_mpz N_my_public_value);
               Powm; Release (R_mpz N_generator)])).
Proof.
  intros Hv v.
  destruct (valid_facts_modulus _ _ _ _ Hv) as [_ Hp].
  assert (Hr : 0 <= v < p) by (apply mpz_powm_range; lia).
  pose proof (residue_to_chunk v p _ Hp Hr) as Hc.
  destruct Hv as [_ Ha _ _ Hm _ _ Hpub _].
  unfold get_my_public_value.
  destruct (my_public_value_is_computed this) eqn:Ef; cbn [negb].
  - cbn. rewrite Hpub. cbn. fold v. rewrite Hc. reflexivity.
  - unfold compute_public_value. cbn. rewrite Ha, Hm. cbn.
    fold v. rewrite Hc. reflexivity.
Qed.

Lemma set_other_public_value_valid this e a p (chunk : chunk_t) :
  valid_facts this e a p ->
  let o := chunk_to_mpz chunk in
  set_other_public_value this chunk =
  Some ((SUCCESS, after_set this o a p),
        [Acquire (R_mpz N_other_public_value);
         Acquire (R_mpz N_shared_secret); Powm]).
Proof.
  intros [_ Ha _ _ Hm _ _ _ _] o.
  unfold set_other_public_value, compute_shared_secret. cbn.
  rewrite Ha, Hm. reflexivity.
Qed.

Lemma get_shared_secret_valid this e a p :
  valid_facts this e a p ->
  get_shared_secret this =
  if shared_secret_is_computed this
  then match shared_secret this with
       | Some s => Some ((SUCCESS, Some (be_bytes (modulus_length this) s)), [])
       | None => None
       end
  else Some ((FAILED, None), []).
Proof.
  intros Hv.
  destruct (valid_facts_modulus _ _ _ _ Hv) as [_ Hp].
  destruct Hv as [_ _ _ _ _ _ _ _ Hsec].
  unfold get_shared_secret.
  destruct (shared_secret_is_computed this); [|reflexivity].
  destruct Hsec as (o & _ & _ & Hs). rewrite Hs. cbn.
  rewrite (residue_to_chunk _ p); [reflexivity|exact Hp|].
  apply mpz_powm_range. lia.
Qed.

Lemma get_other_public_value_valid this e a p :
  valid_facts this e a p ->
  get_other_public_value this =
  if shared_secret_is_computed this
  then match other_public_value this with
       | Some o => Some (mpz_to_chunk o (modulus_length this), [])
       | None => None
       end
  else Some ((FAILED, None), []).
Proof.
  intros [_ _ _ _ _ _ _ _ Hsec].
  unfold get_other_public_value.
  destruct (shared_secret_is_computed this); [|reflexivity].
  destruct Hsec as (o & Ho & _). rewrite Ho. reflexivity.
Qed.

Lemma get_shared_secret_after_set this e a p (o : Z) :
  valid_facts this e a p ->
  get_shared_secret (after_set this o a p) =
  Some ((SUCCESS, Some (be_bytes (modulus_length this) (mpz_powm o a p))), []).
Proof.
  intros Hv.
  destruct (valid_facts_modulus _ _ _ _ Hv) as [_ Hp].
  unfold get_shared_secret, after_set. cbn.
  rewrite (residue_to_chunk _ p); [reflexivity|exact Hp|].
  apply mpz_powm_range. lia.
Qed.

Lemma get_other_public_value_after_set this (o a p : Z) :
  get_other_public_value (after_set this o a p) =
  Some (mpz_to_chunk o (modulus_length this), []).
Proof. reflexivity. Qed.

(** *** The invariant is kept *)

Lemma get_my_public_value_facts this e a p r this' log :
  valid_facts this e a p ->
  get_my_public_value this = Some (r, this', log) ->
  valid_facts this' e a p.
Proof.
  intros Hv. rewrite (get_my_public_value_valid _ _ _ _ Hv).
  intros H. injection H as _ <- _.
  destruct (my_public_value_is_computed this) eqn:Ef; [exact Hv|].
  destruct Hv as [Hl Ha Hn Hp Hm Hlen Hg Hpub Hsec].
  constructor; cbn; auto.
Qed.

Lemma set_other_public_value_facts this e a p chunk r this' log :
  valid_facts this e a p ->
  set_other_public_value this chunk = Some ((r, this'), log) ->
  valid_facts this' e a p.
Proof.
  intros Hv. rewrite (set_other_public_value_valid _ _ _ _ _ Hv).
  intros H. injection H as _ <- _.
  destruct Hv as [Hl Ha Hn Hp Hm Hlen Hg Hpub Hsec].
  constructor; cbn; auto.
  exists (chunk_to_mpz chunk). auto using chunk_to_mpz_nonneg.
Qed.

Lemma perform_total this e a p (o : operation) :
  valid_facts this e a p ->
  exists this' log,
    perform o this = Some (this', log)
    /\ valid_facts this' e a p
    /\ match o with
       | Set_other_public_value c =>
           shared_secret_is_computed this' = true
           /\ other_public_value this' = Some (chunk_to_mpz c)
       | _ =>
           shared_secret_is_computed this' = shared_secret_is_computed this
           /\ other_public_value this' = other_public_value this
       end.
Proof.
  intros Hv. destruct o as [|c| |]; unfold perform.
  - pose proof (get_my_public_value_valid _ _ _ _ Hv) as Hg. cbv zeta in Hg.
    rewrite Hg. cbn. eexists _, _. split; [reflexivity|]. split.
    + eapply get_my_public_value_facts; eauto.
    + destruct (my_public_value_is_computed this); auto.
  - pose proof (set_other_public_value_valid _ _ _ _ c Hv) as Hs.
    cbv zeta in Hs. rewrite Hs. cbn. eexists _, _.
    split; [reflexivity|]. split; [|auto].
    eapply set_other_public_value_facts; eauto.
  - rewrite (get_other_public_value_valid _ _ _ _ Hv).
    pose proof (vf_shared _ _ _ _ Hv) as Hsec.
    destruct (shared_secret_is_computed this) eqn:Ef.
    + destruct Hsec as (o & Ho & _). rewrite Ho. cbn.
      exists this, []. rewrite Ef. auto.
    + cbn. exists this, []. rewrite Ef. auto.
  - rewrite (get_shared_secret_valid _ _ _ _ Hv).
    pose proof (vf_shared _ _ _ _ Hv) as Hsec.
    destruct (shared_secret_is_computed this) eqn:Ef.
    + destruct Hsec as (o & _ & _ & Hs). rewrite Hs. cbn.
      exists this, []. rewrite Ef. auto.
    + cbn. exists this, []. rewrite Ef. auto.
Qed.

Lemma perform_all_total (ops : list operation) this e a p :
  valid_facts this e a p ->
  exists this' log,
    perform_all ops this = Some (this', log)
    /\ valid_facts this' e a p
    /\ match last_peer ops with
       | Some c =>
           shared_secret_is_computed this' = true
           /\ other_public_value this' = Some (chunk_to_mpz c)
       | None =>
           shared_secret_is_computed this' = shared_secret_is_computed this
           /\ other_public_value this' = other_public_value this
       end.
Proof.
  revert this. induction ops as [|o rest IH]; intros this Hv.
  - cbn. eauto 6.
  - destruct (perform_total _ _ _ _ o Hv) as (this1 & l1 & H1 & Hv1 & Ho).
    destruct (IH _ Hv1) as (this2 & l2 & H2 & Hv2 & Hrest).
    cbn [perform_all last_peer]. rewrite H1. cbn. rewrite H2.
    eexists _, _. split; [reflexivity|]. split; [exact Hv2|].
    destruct (last_peer rest) as [c|]; [exact Hrest|].
    destruct Hrest as [Hf Hp].
    destruct o; destruct Ho as [Hf1 Hp1]; split; congruence.
Qed.

(** An object in the middle of its life satisfies the invariant, and its
    shared-secret flag says whether the peer's value was ever set. *)
Lemma lifetime_facts env g ops this log :
  lifetime env g ops = Some (Some this, log) ->
  exists e a p,
    valid_facts this e a p
    /\ match last_peer ops with
       | Some c =>
           shared_secret_is_computed this = true
           /\ other_public_value this = Some (chunk_to_mpz c)
       | None =>
           shared_secret_is_computed this = false
           /\ other_public_value this = None
       end.
Proof.
  unfold lifetime.
  destruct (diffie_hellman_create env g) as [[[this0|] l0]|] eqn:Ec;
    cbn; try discriminate.
  destruct (create_valid _ _ _ _ Ec) as (Hv & _ & Hf).
  apply valid_iff in Hv. destruct Hv as (e & a & p & Hv).
  destruct (perform_all_total ops _ _ _ _ Hv) as (this1 & l1 & H1 & Hv1 & Hl).
  rewrite H1. intros H. injection H as <- _.
  exists e, a, p. split; [exact Hv1|].
  destruct (last_peer ops); [exact Hl|].
  pose proof (vf_shared _ _ _ _ Hv) as Hsec. rewrite Hf in Hsec.
  destruct Hl as [-> ->]. tauto.
Qed.

Lemma lifetime_valid env g ops this log :
  lifetime env g ops = Some (Some this, log) -> valid this = true.
Proof.
  intros H. apply lifetime_facts in H. destruct H as (e & a & p & Hv & _).
  apply valid_iff. eauto.
Qed.

(** No sequence of calls runs into undefined behaviour. *)
Lemma lifetime_defined env g ops : lifetime env g ops <> None.
Proof.
  unfold lifetime.
  destruct (diffie_hellman_create env g) as [[[this0|] l0]|] eqn:Ec; cbn.
  - destruct (create_valid _ _ _ _ Ec) as (Hv & _).
    apply valid_iff in Hv. destruct Hv as (e & a & p & Hv).
    destruct (perform_all_total ops _ _ _ _ Hv) as (this1 & l1 & H1 & _).
    rewrite H1. discriminate.
  - discriminate.
  - rewrite create_outcomes in Ec.
    destruct (alloc_thing_ok env), (gmp_helper_ok env); try discriminate.
    cbn [negb] in Ec.
    destruct (lookup_group (g mod 65536)); [|discriminate].
    destruct (random_bytes env _); discriminate.
Qed.

End Exchange.

(** ** The properties of the design document: the exchange object *)

Section Claims.

Import GmpHelper.

(** C1.  Two objects constructed for the same group that are handed each
    other's public value derive the same shared secret: both
    [get_shared_secret] calls succeed with the same chunk, and the chunk
    encodes [generator ^ (a * b) mod modulus] for the two private
    exponents [a] and [b]. *)
Theorem C1_shared_secret_agreement (env_a env_b : environment) (g : Z)
  (A B : private_diffie_hellman_t) (log_a log_b : list event) :
  diffie_hellman_create env_a g = Some (Some A, log_a) ->
  diffie_hellman_create env_b g = Some (Some B, log_b) ->
  exists pa pb A1 B1 A2 B2 s l1 l2 l3 l4 a b p,
    get_my_public_value A = Some ((SUCCESS, Some pa), A1, l1)
    /\ get_my_public_value B = Some ((SUCCESS, Some pb), B1, l2)
    /\ set_other_public_value A1 pb = Some ((SUCCESS, A2), l3)
    /\ set_other_public_value B1 pa = Some ((SUCCESS, B2), l4)
    /\ get_shared_secret A2 = Some ((SUCCESS, Some s), [])
    /\ get_shared_secret B2 = Some ((SUCCESS, Some s), [])
    /\ my_prime A = Some a /\ my_prime B = Some b /\ modulus A = Some p
    /\ chunk_to_mpz s = (generator A ^ (a * b)) mod p.
Proof.
  intros Ha Hb.
  assert (Hg : dh_group_number A = dh_group_number B).
  { rewrite create_outcomes in Ha, Hb.
    destruct (alloc_thing_ok env_a), (gmp_helper_ok env_a); try discriminate.
    destruct (alloc_thing_ok env_b), (gmp_helper_ok env_b); try discriminate.
    cbn [negb] in Ha, Hb.
    destruct (lookup_group (g mod 65536)) as [e|]; [|discriminate].
    destruct (random_bytes env_a _); [|discriminate].
    destruct (random_bytes env_b _); [|discriminate].
    injection Ha as <- _. injection Hb as <- _. reflexivity. }
  apply create_valid in Ha, Hb.
  destruct Ha as (Ha & _), Hb as (Hb & _).
  apply valid_iff in Ha, Hb.
  destruct Ha as (e & a & p & Hva), Hb as (e' & b & p' & Hvb).
  assert (e' = e).
  { pose proof (vf_lookup _ _ _ _ Hva). pose proof (vf_lookup _ _ _ _ Hvb).
    congruence. }
  subst e'.
  assert (p' = p).
  { rewrite (vf_p _ _ _ _ Hva), (vf_p _ _ _ _ Hvb). reflexivity. }
  subst p'.
  destruct (valid_facts_modulus _ _ _ _ Hva) as [Hga Hp].
  destruct (valid_facts_modulus _ _ _ _ Hvb) as [Hgb Hp'].
  assert (Hlen : modulus_length B = modulus_length A).
  { rewrite (vf_length _ _ _ _ Hva), (vf_length _ _ _ _ Hvb). reflexivity. }
  pose proof (get_my_public_value_valid _ _ _ _ Hva) as Ga.
  pose proof (get_my_public_value_valid _ _ _ _ Hvb) as Gb.
  cbv zeta in Ga, Gb.
  pose proof (get_my_public_value_facts _ _ _ _ _ _ _ Hva Ga) as Hva1.
  pose proof (get_my_public_value_facts _ _ _ _ _ _ _ Hvb Gb) as Hvb1.
  set (A1 := if my_public_value_is_computed A then A else _) in *.
  set (B1 := if my_public_value_is_computed B then B else _) in *.
  set (pa := be_bytes (modulus_length A) _) in *.
  set (pb := be_bytes (modulus_length B) _) in *.
  pose proof (set_other_public_value_valid _ _ _ _ pb Hva1) as Sa.
  pose proof (set_other_public_value_valid _ _ _ _ pa Hvb1) as Sb.
  cbv zeta in Sa, Sb.
  pose proof (set_other_public_value_facts _ _ _ _ _ _ _ _ Hva1 Sa) as Hva2.
  pose proof (set_other_public_value_facts _ _ _ _ _ _ _ _ Hvb1 Sb) as Hvb2.
  pose proof (get_shared_secret_after_set _ _ _ _ (chunk_to_mpz pb) Hva1) as Ra.
  pose proof (get_shared_secret_after_set _ _ _ _ (chunk_to_mpz pa) Hvb1) as Rb.
  assert (Hpa : chunk_to_mpz pa = mpz_powm 2 a p).
  { unfold pa. rewrite chunk_to_mpz_be_bytes, Hga.
    apply Z.mod_small. pose proof (mpz_powm_range 2 a p); lia. }
  assert (Hpb : chunk_to_mpz pb = mpz_powm 2 b p).
  { unfold pb. rewrite chunk_to_mpz_be_bytes, Hgb, Hlen.
    apply Z.mod_small. pose proof (mpz_powm_range 2 b p); lia. }
  pose proof (vf_prime_nonneg _ _ _ _ Hva) as Hna.
  pose proof (vf_prime_nonneg _ _ _ _ Hvb) as Hnb.
  assert (Hl1 : modulus_length A1 = modulus_length A)
    by (unfold A1; destruct (my_public_value_is_computed A); reflexivity).
  assert (Hl2 : modulus_length B1 = modulus_length A)
    by (unfold B1; destruct (my_public_value_is_computed B); exact Hlen).
  exists pa, pb, A1, B1,
    (after_set A1 (chunk_to_mpz pb) a p), (after_set B1 (chunk_to_mpz pa) b p),
    (be_bytes (modulus_length A) ((2 ^ (a * b)) mod p)).
  eexists _, _, _, _, a, b, p.
  split; [exact Ga|]. split; [exact Gb|].
  split; [exact Sa|]. split; [exact Sb|].
  split.
  { rewrite Ra, Hpb, Hl1, (mpz_powm_exchange 2 b a p) by lia.
    now rewrite (Z.mul_comm b a). }
  split.
  { now rewrite Rb, Hpa, Hl2, (mpz_powm_exchange 2 a b p) by lia. }
  split; [exact (vf_prime _ _ _ _ Hva)|].
  split; [exact (vf_prime _ _ _ _ Hvb)|].
  split; [exact (vf_modulus _ _ _ _ Hva)|].
  rewrite chunk_to_mpz_be_bytes, Hga.
  rewrite Z.mod_small; [reflexivity|].
  pose proof (Z.mod_pos_bound (2 ^ (a * b)) p). lia.
Qed.

Lemma C1_shared_secret_agreement_witness :
  diffie_hellman_create alice_env MODP_768_BIT
  = Some (Some (object_after alice_env []), log_after alice_env [])
  /\ diffie_hellman_create bob_env MODP_768_BIT
     = Some (Some (object_after bob_env []), log_after bob_env [])
  /\ exists pa pb A1 B1 A2 B2 s l1 l2 l3 l4 a b p,
       get_my_public_value (object_after alice_env [])
       = Some ((SUCCESS, Some pa), A1, l1)
       /\ get_my_public_value (object_after bob_env [])
          = Some ((SUCCESS, Some pb), B1, l2)
       /\ set_other_public_value A1 pb = Some ((SUCCESS, A2), l3)
       /\ set_other_public_value B1 pa = Some ((SUCCESS, B2), l4)
       /\ get_shared_secret A2 = Some ((SUCCESS, Some s), [])
       /\ get_shared_secret B2 = Some ((SUCCESS, Some s), [])
       /\ my_prime (object_after alice_env []) = Some a
       /\ my_prime (object_after bob_env []) = Some b
       /\ modulus (object_after alice_env []) = Some p
       /\ chunk_to_mpz s
          = (generator (object_after alice_env []) ^ (a * b)) mod p.
Proof.
  split; [vm_compute; reflexivity|].
  split; [vm_compute; reflexivity|].
  apply (C1_shared_secret_agreement alice_env bob_env MODP_768_BIT
           (object_after alice_env []) (object_after bob_env [])
           (log_after alice_env []) (log_after bob_env []));
    vm_compute; reflexivity.
Defined.

(** C2.  At every point of an object's life the chunks its three getters
    hand out have exactly [modulus_length] bytes and are the big-endian
    encoding of the value with zero bytes in front: [get_my_public_value]
    always returns such a chunk, [get_shared_secret] does once the shared
    secret is computed, whatever chunk [get_other_public_value] returns has
    this form, and it returns one whenever the peer's value fits the
    width. *)
Theorem C2_fixed_width_chunks (env : environment) (g : Z)
  (ops : list operation) (this : private_diffie_hellman_t)
  (log : list event) :
  lifetime env g ops = Some (Some this, log) ->
  (exists c v this' l,
      get_my_public_value this = Some ((SUCCESS, Some c), this', l)
      /\ my_public_value this' = Some v
      /\ wire_form c v (modulus_length this))
  /\ (shared_secret_is_computed this = true ->
      exists c v,
        get_shared_secret this = Some ((SUCCESS, Some c), [])
        /\ shared_secret this = Some v
        /\ wire_form c v (modulus_length this))
  /\ (forall st c l,
        get_other_public_value this = Some ((st, Some c), l) ->
        exists v,
          st = SUCCESS
          /\ other_public_value this = Some v
          /\ wire_form c v (modulus_length this))
  /\ (shared_secret_is_computed this = true ->
      exists v,
        other_public_value this = Some v
        /\ (v < 256 ^ Z.of_nat (modulus_length this) ->
            exists c,
              get_other_public_value this = Some ((SUCCESS, Some c), [])
              /\ wire_form c v (modulus_length this))).
Proof.
  intros Hlife. apply lifetime_facts in Hlife.
  destruct Hlife as (e & a & p & Hv & _).
  destruct (valid_facts_modulus _ _ _ _ Hv) as [_ Hp].
  assert (Hwire : forall v, 0 <= v < 256 ^ Z.of_nat (modulus_length this) ->
                            wire_form (be_bytes (modulus_length this) v) v
                              (modulus_length this)).
  { intros v Hr. unfold wire_form. split; [apply length_be_bytes|]. split.
    - symmetry. apply pad_be_bytes; [lia|]. now apply natural_length_le.
    - rewrite chunk_to_mpz_be_bytes. apply Z.mod_small. exact Hr. }
  split; [|split; [|split]].
  - pose proof (get_my_public_value_valid _ _ _ _ Hv) as Hg. cbv zeta in Hg.
    pose proof (get_my_public_value_facts _ _ _ _ _ _ _ Hv Hg) as Hv'.
    eexists _, (mpz_powm (generator this) a p), _, _.
    split; [exact Hg|]. split.
    + pose proof (vf_public _ _ _ _ Hv) as Hpub.
      destruct (my_public_value_is_computed this); [exact Hpub|reflexivity].
    + apply Hwire. pose proof (mpz_powm_range (generator this) a p). lia.
  - intros Hf. rewrite (get_shared_secret_valid _ _ _ _ Hv), Hf.
    pose proof (vf_shared _ _ _ _ Hv) as Hsec. rewrite Hf in Hsec.
    destruct Hsec as (o & _ & _ & Hs). rewrite Hs.
    eexists _, _. split; [reflexivity|]. split; [reflexivity|].
    apply Hwire. pose proof (mpz_powm_range o a p). lia.
  - intros st c l. rewrite (get_other_public_value_valid _ _ _ _ Hv).
    pose proof (vf_shared _ _ _ _ Hv) as Hsec.
    destruct (shared_secret_is_computed this); [|discriminate].
    destruct Hsec as (o & Ho & Hoo & _). rewrite Ho.
    unfold mpz_to_chunk.
    destruct (Nat.leb_spec (natural_length o) (modulus_length this))
      as [Hn|Hn]; [|discriminate].
    intros H. injection H as <- <- _.
    exists o. split; [reflexivity|]. split; [reflexivity|].
    rewrite pad_be_bytes by assumption.
    apply Hwire. split; [assumption|].
    now apply natural_length_minimal.
  - intros Hf. rewrite (get_other_public_value_valid _ _ _ _ Hv), Hf.
    pose proof (vf_shared _ _ _ _ Hv) as Hsec. rewrite Hf in Hsec.
    destruct Hsec as (o & Ho & Hoo & _). rewrite Ho.
    exists o. split; [reflexivity|]. intros Hfit.
    rewrite mpz_to_chunk_fits by lia.
    eexists. split; [reflexivity|]. apply Hwire. lia.
Qed.

Lemma C2_fixed_width_chunks_witness :
  lifetime alice_env MODP_768_BIT [Set_other_public_value small_chunk]
  = Some (Some alice_midway,
          log_after alice_env [Set_other_public_value small_chunk])
  /\ (exists c v this' l,
        get_my_public_value alice_midway = Some ((SUCCESS, Some c), this', l)
        /\ my_public_value this' = Some v
        /\ wire_form c v (modulus_length alice_midway))
  /\ (shared_secret_is_computed alice_midway = true ->
      exists c v,
        get_shared_secret alice_midway = Some ((SUCCESS, Some c), [])
        /\ shared_secret alice_midway = Some v
        /\ wire_form c v (modulus_length alice_midway))
  /\ (forall st c l,
        get_other_public_value alice_midway = Some ((st, Some c), l) ->
        exists v,
          st = SUCCESS
          /\ other_public_value alice_midway = Some v
          /\ wire_form c v (modulus_length alice_midway))
  /\ (shared_secret_is_computed alice_midway = true ->
      exists v,
        other_public_value alice_midway = Some v
        /\ (v < 256 ^ Z.of_nat (modulus_length alice_midway) ->
            exists c,
              get_other_public_value alice_midway
              = Some ((SUCCESS, Some c), [])
              /\ wire_form c v (modulus_length alice_midway))).
Proof.
  split; [vm_compute; reflexivity|].
  apply (C2_fixed_width_chunks alice_env MODP_768_BIT
           [Set_other_public_value small_chunk] alice_midway
           (log_after alice_env [Set_other_public_value small_chunk])).
  vm_compute; reflexivity.
Defined.

(** C4, as the code has it.  On an object on which
    [set_other_public_value] was never called, [get_shared_secret] and
    [get_other_public_value] both return FAILED.  After a call of
    [set_other_public_value], [get_shared_secret] succeeds;
    [get_other_public_value] succeeds when the peer value set last is below
    [256 ^ modulus_length], and fails in the adapter's width check
    otherwise. *)
Theorem C4_readiness_guard (env : environment) (g : Z)
  (ops : list operation) (this : private_diffie_hellman_t)
  (log : list event) :
  lifetime env g ops = Some (Some this, log) ->
  match last_peer ops with
  | None =>
      get_shared_secret this = Some ((FAILED, None), [])
      /\ get_other_public_value this = Some ((FAILED, None), [])
  | Some peer =>
      (exists s, get_shared_secret this = Some ((SUCCESS, Some s), []))
      /\ (chunk_to_mpz peer < 256 ^ Z.of_nat (modulus_length this) ->
          exists c, get_other_public_value this = Some ((SUCCESS, Some c), []))
      /\ (256 ^ Z.of_nat (modulus_length this) <= chunk_to_mpz peer ->
          get_other_public_value this = Some ((FAILED, None), []))
  end.
Proof.
  intros Hlife. apply lifetime_facts in Hlife.
  destruct Hlife as (e & a & p & Hv & Hpeer).
  rewrite (get_shared_secret_valid _ _ _ _ Hv).
  rewrite (get_other_public_value_valid _ _ _ _ Hv).
  pose proof (vf_shared _ _ _ _ Hv) as Hsec.
  destruct (last_peer ops) as [peer|].
  - destruct Hpeer as [Hf Ho]. rewrite Hf in *.
    destruct Hsec as (o & Ho' & _ & Hs). rewrite Hs, Ho.
    split; [eauto|]. split.
    + intros Hfit. rewrite mpz_to_chunk_fits; [eauto|].
      split; [apply chunk_to_mpz_nonneg|exact Hfit].
    + intros Hbig. now rewrite mpz_to_chunk_too_long.
  - destruct Hpeer as [Hf _]. rewrite Hf. auto.
Qed.

Lemma C4_readiness_guard_witness :
  lifetime alice_env MODP_768_BIT [Set_other_public_value small_chunk]
  = Some (Some alice_midway,
          log_after alice_env [Set_other_public_value small_chunk])
  /\ (exists s, get_shared_secret alice_midway = Some ((SUCCESS, Some s), []))
  /\ (chunk_to_mpz small_chunk
      < 256 ^ Z.of_nat (modulus_length alice_midway) ->
      exists c,
        get_other_public_value alice_midway = Some ((SUCCESS, Some c), []))
  /\ (256 ^ Z.of_nat (modulus_length alice_midway)
      <= chunk_to_mpz small_chunk ->
      get_other_public_value alice_midway = Some ((FAILED, None), [])).
Proof.
  split; [vm_compute; reflexivity|].
  apply (C4_readiness_guard alice_env MODP_768_BIT
           [Set_other_public_value small_chunk] alice_midway
           (log_after alice_env [Set_other_public_value small_chunk])).
  vm_compute; reflexivity.
Defined.

(** C4 as worded fails: a peer chunk of 97 bytes whose first byte is 1 is
    accepted by [set_other_public_value] on a 768-bit object, and
    [get_other_public_value] then does not succeed. *)
Lemma C4_oversized_peer_value :
  diffie_hellman_create alice_env MODP_768_BIT
  = Some (Some (object_after alice_env []), log_after alice_env [])
  /\ set_other_public_value (object_after alice_env []) oversized_chunk
     = Some ((SUCCESS, alice_oversized),
             [Acquire (R_mpz N_other_public_value);
              Acquire (R_mpz N_shared_secret); Powm])
  /\ get_other_public_value alice_oversized = Some ((FAILED, None), []).
Proof. vm_compute. repeat split. Qed.

(** C5.  On an object at any point of its life and for any chunk,
    [set_other_public_value] succeeds, stores the decoded chunk as the
    peer's value, computes [peer ^ private_exponent mod modulus] with one
    call of [mpz_powm] and sets the flag, all in the same call;
    [get_shared_secret] then returns the encoding of that value and
    computes nothing. *)
Theorem C5_shared_secret_computed_on_set (env : environment) (g : Z)
  (ops : list operation) (this : private_diffie_hellman_t)
  (log : list event) (chunk : chunk_t) :
  lifetime env g ops = Some (Some this, log) ->
  exists a p this' l,
    my_prime this = Some a /\ modulus this = Some p
    /\ set_other_public_value this chunk = Some ((SUCCESS, this'), l)
    /\ other_public_value this' = Some (chunk_to_mpz chunk)
    /\ shared_secret this' = Some ((chunk_to_mpz chunk ^ a) mod p)
    /\ shared_secret_is_computed this' = true
    /\ powm_calls l = 1%nat
    /\ get_shared_secret this'
       = Some ((SUCCESS,
                Some (be_bytes (modulus_length this)
                        ((chunk_to_mpz chunk ^ a) mod p))), []).
Proof.
  intros Hlife. apply lifetime_facts in Hlife.
  destruct Hlife as (e & a & p & Hv & _).
  pose proof (set_other_public_value_valid _ _ _ _ chunk Hv) as Hs.
  cbv zeta in Hs.
  exists a, p. eexists _, _.
  split; [exact (vf_prime _ _ _ _ Hv)|].
  split; [exact (vf_modulus _ _ _ _ Hv)|].
  split; [exact Hs|].
  split; [reflexivity|].
  split; [cbn; now rewrite mpz_powm_spec|].
  split; [reflexivity|].
  split; [reflexivity|].
  rewrite (get_shared_secret_after_set _ _ _ _ _ Hv).
  now rewrite mpz_powm_spec.
Qed.

Lemma C5_shared_secret_computed_on_set_witness :
  lifetime alice_env MODP_768_BIT [] =
  Some (Some (object_after alice_env []), log_after alice_env [])
  /\ exists a p this' l,
       my_prime (object_after alice_env []) = Some a
       /\ modulus (object_after alice_env []) = Some p
       /\ set_other_public_value (object_after alice_env []) small_chunk
          = Some ((SUCCESS, this'), l)
       /\ other_public_value this' = Some (chunk_to_mpz small_chunk)
       /\ shared_secret this' = Some ((chunk_to_mpz small_chunk ^ a) mod p)
       /\ shared_secret_is_computed this' = true
       /\ powm_calls l = 1%nat
       /\ get_shared_secret this'
          = Some ((SUCCESS,
                   Some (be_bytes (modulus_length (object_after alice_env []))
                           ((chunk_to_mpz small_chunk ^ a) mod p))), []).
Proof.
  split; [vm_compute; reflexivity|].
  apply (C5_shared_secret_computed_on_set alice_env MODP_768_BIT []
           (object_after alice_env []) (log_after alice_env []) small_chunk).
  vm_compute; reflexivity.
Defined.

(** C6.  On an object at any point of its life [get_my_public_value]
    succeeds with the encoding of [generator ^ private_exponent mod
    modulus]; a second call returns the same chunk, changes nothing in the
    object and logs no event (so nothing is recomputed); neither call
    touches the peer's value, the shared secret or its flag; and the chunk is
    the same when [set_other_public_value] is called first, with any
    chunk. *)
Theorem C6_public_value_memoised (env : environment) (g : Z)
  (ops : list operation) (this : private_diffie_hellman_t)
  (log : list event) :
  lifetime env g ops = Some (Some this, log) ->
  exists c this1 l1 a p,
    get_my_public_value this = Some ((SUCCESS, Some c), this1, l1)
    /\ get_my_public_value this1 = Some ((SUCCESS, Some c), this1, [])
    /\ my_prime this = Some a /\ modulus this = Some p
    /\ chunk_to_mpz c = (generator this ^ a) mod p
    /\ other_public_value this1 = other_public_value this
    /\ shared_secret this1 = shared_secret this
    /\ shared_secret_is_computed this1 = shared_secret_is_computed this
    /\ (forall chunk, exists this2 l2 this3 l3,
          set_other_public_value this chunk = Some ((SUCCESS, this2), l2)
          /\ get_my_public_value this2 = Some ((SUCCESS, Some c), this3, l3))
    /\ (forall chunk, exists this2 l2,
          set_other_public_value this1 chunk = Some ((SUCCESS, this2), l2)
          /\ get_my_public_value this2 = Some ((SUCCESS, Some c), this2, [])).
Proof.
  intros Hlife. apply lifetime_facts in Hlife.
  destruct Hlife as (e & a & p & Hv & _).
  destruct (valid_facts_modulus _ _ _ _ Hv) as [_ Hp].
  pose proof (get_my_public_value_valid _ _ _ _ Hv) as Hg. cbv zeta in Hg.
  pose proof (get_my_public_value_facts _ _ _ _ _ _ _ Hv Hg) as Hv1.
  set (this1 := if my_public_value_is_computed this then this else _) in *.
  assert (Hflag : my_public_value_is_computed this1 = true).
  { unfold this1. destruct (my_public_value_is_computed this) eqn:E;
      [exact E|reflexivity]. }
  assert (Hsame : generator this1 = generator this
                  /\ modulus_length this1 = modulus_length this
                  /\ other_public_value this1 = other_public_value this
                  /\ shared_secret this1 = shared_secret this
                  /\ shared_secret_is_computed this1
                     = shared_secret_is_computed this).
  { unfold this1. destruct (my_public_value_is_computed this); auto. }
  destruct Hsame as (Hgen & Hlen & Hso & Hss & Hsf).
  pose proof (get_my_public_value_valid _ _ _ _ Hv1) as Hg1. cbv zeta in Hg1.
  rewrite Hflag, Hgen, Hlen in Hg1.
  eexists _, this1, _, a, p.
  split; [exact Hg|]. split; [exact Hg1|].
  split; [exact (vf_prime _ _ _ _ Hv)|].
  split; [exact (vf_modulus _ _ _ _ Hv)|].
  split.
  { rewrite chunk_to_mpz_be_bytes, mpz_powm_spec.
    apply Z.mod_small.
    pose proof (Z.mod_pos_bound (generator this ^ a) p). lia. }
  split; [exact Hso|]. split; [exact Hss|]. split; [exact Hsf|].
  split.
  - intros chunk.
    pose proof (set_other_public_value_valid _ _ _ _ chunk Hv) as Hs.
    cbv zeta in Hs.
    pose proof (set_other_public_value_facts _ _ _ _ _ _ _ _ Hv Hs) as Hv2.
    pose proof (get_my_public_value_valid _ _ _ _ Hv2) as Hg2.
    cbv zeta in Hg2.
    eexists _, _, _, _. split; [exact Hs|]. exact Hg2.
  - intros chunk.
    pose proof (set_other_public_value_valid _ _ _ _ chunk Hv1) as Hs.
    cbv zeta in Hs.
    pose proof (set_other_public_value_facts _ _ _ _ _ _ _ _ Hv1 Hs) as Hv2.
    pose proof (get_my_public_value_valid _ _ _ _ Hv2) as Hg2.
    cbv zeta in Hg2.
    change (my_public_value_is_computed (after_set this1 _ a p))
      with (my_public_value_is_computed this1) in Hg2.
    change (generator (after_set this1 (chunk_to_mpz chunk) a p))
      with (generator this1) in Hg2.
    change (modulus_length (after_set this1 (chunk_to_mpz chunk) a p))
      with (modulus_length this1) in Hg2.
    rewrite Hflag, Hgen, Hlen in Hg2.
    eexists _, _. split; [exact Hs|]. exact Hg2.
Qed.

Lemma C6_public_value_memoised_witness :
  lifetime alice_env MODP_768_BIT [] =
  Some (Some (object_after alice_env []), log_after alice_env [])
  /\ exists c this1 l1 a p,
       get_my_public_value (object_after alice_env [])
       = Some ((SUCCESS, Some c), this1, l1)
       /\ get_my_public_value this1 = Some ((SUCCESS, Some c), this1, [])
       /\ my_prime (object_after alice_env []) = Some a
       /\ modulus (object_after alice_env []) = Some p
       /\ chunk_to_mpz c
          = (generator (object_after alice_env []) ^ a) mod p
       /\ other_public_value this1
          = other_public_value (object_after alice_env [])
       /\ shared_secret this1 = shared_secret (object_after alice_env [])
       /\ shared_secret_is_computed this1
          = shared_secret_is_computed (object_after alice_env [])
       /\ (forall chunk, exists this2 l2 this3 l3,
             set_other_public_value (object_after alice_env []) chunk
             = Some ((SUCCESS, this2), l2)
             /\ get_my_public_value this2
                = Some ((SUCCESS, Some c), this3, l3))
       /\ (forall chunk, exists this2 l2,
             set_other_public_value this1 chunk = Some ((SUCCESS, this2), l2)
             /\ get_my_public_value this2
                = Some ((SUCCESS, Some c), this2, [])).
Proof.
  split; [vm_compute; reflexivity|].
  apply (C6_public_value_memoised alice_env MODP_768_BIT []
           (object_after alice_env []) (log_after alice_env [])).
  vm_compute; reflexivity.
Defined.

(** C7.  For each of the eight group numbers [set_modulus] succeeds, and the
    entry it takes has [bits / 8] bytes of modulus, generator 2 and a modulus
    whose first byte has its high bit set; the object receives that length,
    that generator and the modulus decoded from those bytes.  For every
    other group number [set_modulus] returns NOT_FOUND and leaves the object
    as it was. *)
Theorem C7_group_resolution (this : private_diffie_hellman_t) :
  (In (dh_group_number this)
      [MODP_768_BIT; MODP_1024_BIT; MODP_1536_BIT; MODP_2048_BIT;
       MODP_3072_BIT; MODP_4096_BIT; MODP_6144_BIT; MODP_8192_BIT]
   <-> standard_bits (dh_group_number this) <> None)
  /\ match standard_bits (dh_group_number this) with
     | Some bits =>
         exists e this' first rest,
           set_modulus this
           = Some ((SUCCESS, this'), [Acquire (R_mpz N_modulus)])
           /\ In e modulus_info_entries
           /\ group e = dh_group_number this
           /\ entry_modulus e = first :: rest
           /\ high_bit_set first = true
           /\ length (entry_modulus e) = modulus_length this'
           /\ Z.of_nat (modulus_length this') = bits / 8
           /\ generator this' = 2
           /\ modulus this' = Some (chunk_to_mpz (entry_modulus e))
     | None => set_modulus this = Some ((NOT_FOUND, this), [])
     end.
Proof.
  split.
  { unfold standard_bits. cbn [In].
    unfold MODP_768_BIT, MODP_1024_BIT, MODP_1536_BIT, MODP_2048_BIT,
      MODP_3072_BIT, MODP_4096_BIT, MODP_6144_BIT, MODP_8192_BIT.
    repeat match goal with
           | |- context [?x =? ?c] => destruct (Z.eqb_spec x c)
           end; split; intros; try congruence; try tauto; lia. }
  rewrite set_modulus_lookup.
  destruct (standard_bits (dh_group_number this)) as [bits|] eqn:Eb.
  - destruct (lookup_group (dh_group_number this)) as [e|] eqn:El.
    + destruct (lookup_group_In _ _ El) as [Hin Hg].
      destruct (lookup_group_ok _ _ El) as [Hok _].
      unfold entry_ok in Hok. rewrite !andb_true_iff in Hok.
      destruct Hok as [[[[Hl Hgen] _] Hhigh] Hbits].
      apply Nat.eqb_eq in Hl. apply Z.eqb_eq in Hgen.
      rewrite Hg, Eb in Hbits. apply Z.eqb_eq in Hbits.
      destruct (entry_modulus e) as [|first rest] eqn:Em; [discriminate|].
      eexists e, _, first, rest.
      split; [reflexivity|]. cbn. rewrite <- Em. repeat split; auto.
      now rewrite Em.
    + apply lookup_group_standard in El. congruence.
  - apply lookup_group_standard in Eb. now rewrite Eb.
Qed.

(** C8.  On an object at any point of its life [destroy] runs without
    clearing an uninitialised integer and returns SUCCESS.  It releases the
    helper, the modulus and the private exponent, then the public value if
    [my_public_value_is_computed], then the peer's value and the shared
    secret together if [shared_secret_is_computed], then the object; the big
    integers it releases are exactly the members that are initialised. *)
Theorem C8_destroy_releases_initialised (env : environment) (g : Z)
  (ops : list operation) (this : private_diffie_hellman_t)
  (log : list event) :
  lifetime env g ops = Some (Some this, log) ->
  exists l,
    destroy this = Some (SUCCESS, l)
    /\ releases l
       = [R_gmp_helper; R_mpz N_modulus; R_mpz N_my_prime]
         ++ (if my_public_value_is_computed this
             then [R_mpz N_my_public_value] else [])
         ++ (if shared_secret_is_computed this
             then [R_mpz N_other_public_value; R_mpz N_shared_secret]
             else [])
         ++ [R_object]
    /\ (forall n, In (R_mpz n) (releases l) <-> initialised this n).
Proof.
  intros Hlife. apply lifetime_facts in Hlife.
  destruct Hlife as (e & a & p & Hv & _).
  destruct Hv as [_ Ha _ _ Hm _ _ Hpub Hsec].
  unfold destroy, initialised. rewrite Ha, Hm.
  destruct (my_public_value_is_computed this);
    destruct (shared_secret_is_computed this);
    [destruct Hsec as (o & Ho & _ & Hs)|
     destruct Hsec as [Ho Hs]|
     destruct Hsec as (o & Ho & _ & Hs)|
     destruct Hsec as [Ho Hs]];
    rewrite ?Hpub, ?Ho, ?Hs; cbn;
    (eexists; split; [reflexivity|]; split; [reflexivity|]);
    intros n; destruct n; cbn; rewrite ?Ha, ?Hm, ?Hpub, ?Ho, ?Hs;
    split; intros H; try congruence; try tauto;
    repeat (destruct H as [H|H]; try discriminate H); try contradiction.
Qed.

Lemma C8_destroy_releases_initialised_witness :
  lifetime alice_env MODP_768_BIT [Set_other_public_value small_chunk]
  = Some (Some alice_midway,
          log_after alice_env [Set_other_public_value small_chunk])
  /\ exists l,
       destroy alice_midway = Some (SUCCESS, l)
       /\ releases l
          = [R_gmp_helper; R_mpz N_modulus; R_mpz N_my_prime]
            ++ (if my_public_value_is_computed alice_midway
                then [R_mpz N_my_public_value] else [])
            ++ (if shared_secret_is_computed alice_midway
                then [R_mpz N_other_public_value; R_mpz N_shared_secret]
                else [])
            ++ [R_object]
       /\ (forall n, In (R_mpz n) (releases l)
                     <-> initialised alice_midway n).
Proof.
  split; [vm_compute; reflexivity|].
  apply (C8_destroy_releases_initialised alice_env MODP_768_BIT
           [Set_other_public_value small_chunk] alice_midway
           (log_after alice_env [Set_other_public_value small_chunk])).
  vm_compute; reflexivity.
Defined.

(** C9.  For every group of the table and every integer [x] from 0 up to
    the modulus minus one, [mpz_to_chunk] at the group's modulus length
    succeeds with a chunk of exactly that many bytes, and [chunk_to_mpz]
    reads [x] back from it. *)
Theorem C9_adapter_round_trip (e : modulus_info_entry_t) (x : Z) :
  In e modulus_info_entries ->
  0 <= x < chunk_to_mpz (entry_modulus e) ->
  exists c,
    mpz_to_chunk x (entry_modulus_length e) = (SUCCESS, Some c)
    /\ chunk_to_mpz c = x
    /\ length c = entry_modulus_length e.
Proof.
  intros Hin Hx.
  pose proof entries_ok as Hall. rewrite forallb_forall in Hall.
  apply Hall, entry_ok_facts in Hin. destruct Hin as (_ & _ & Hp).
  exists (be_bytes (entry_modulus_length e) x).
  split; [apply mpz_to_chunk_fits; lia|].
  split; [|apply length_be_bytes].
  rewrite chunk_to_mpz_be_bytes. apply Z.mod_small. lia.
Qed.

Lemma C9_adapter_round_trip_witness :
  In {| group := MODP_768_BIT; entry_modulus := group1_modulus;
        entry_modulus_length := length group1_modulus;
        entry_generator := 2 |} modulus_info_entries
  /\ 0 <= 258 < chunk_to_mpz group1_modulus
  /\ exists c,
       mpz_to_chunk 258 (length group1_modulus) = (SUCCESS, Some c)
       /\ chunk_to_mpz c = 258
       /\ length c = length group1_modulus.
Proof.
  split; [left; reflexivity|].
  split; [vm_compute; split; [discriminate|reflexivity]|].
  apply (C9_adapter_round_trip
           {| group := MODP_768_BIT; entry_modulus := group1_modulus;
              entry_modulus_length := length group1_modulus;
              entry_generator := 2 |} 258).
  - left; reflexivity.
  - vm_compute; split; [discriminate|reflexivity].
Defined.

(** *** Failing construction *)

(** Whatever the constructor logs when it returns NULL leaves nothing
    allocated, except on the branch where the random source fails: there the
    modulus stays. *)
Lemma create_failure_residue (env : environment) (g : Z) (log : list event) :
  diffie_hellman_create env g = Some (None, log) ->
  outstanding log = []
  \/ (exists e, lookup_group (g mod 65536) = Some e
                /\ random_bytes env (entry_modulus_length e) = None
                /\ outstanding log = [R_mpz N_modulus]).
Proof.
  rewrite create_outcomes.
  destruct (alloc_thing_ok env); cbn [negb];
    [|intros H; injection H as <-; now left].
  destruct (gmp_helper_ok env); cbn [negb];
    [|intros H; injection H as <-; now left].
  destruct (lookup_group (g mod 65536)) as [e|] eqn:El;
    [|intros H; injection H as <-; now left].
  destruct (random_bytes env (entry_modulus_length e)) eqn:Er;
    [discriminate|].
  intros H; injection H as <-. right. exists e. auto.
Qed.

(** A group number that is not in the table makes the constructor return
    NULL with nothing left allocated. *)
Lemma create_unsupported_group (env : environment) (g : Z) :
  0 <= g < 65536 -> standard_bits g = None ->
  exists log,
    diffie_hellman_create env g = Some (None, log) /\ outstanding log = [].
Proof.
  intros Hg Hs. rewrite create_outcomes.
  rewrite Z.mod_small by lia.
  apply lookup_group_standard in Hs. rewrite Hs.
  destruct (alloc_thing_ok env), (gmp_helper_ok env); cbn [negb];
    eexists; split; reflexivity.
Qed.

(** In surroundings where nothing fails, the constructor succeeds for each
    of the eight groups. *)
Lemma create_supported_group (g bits : Z) (random : chunk_t) :
  standard_bits g = Some bits ->
  exists this log,
    diffie_hellman_create (environment_with random) g = Some (Some this, log)
    /\ dh_group_number this = g
    /\ Z.of_nat (modulus_length this) = bits / 8
    /\ my_prime this = Some (chunk_to_mpz random).
Proof.
  intros Hs.
  assert (Hg : g mod 65536 = g).
  { unfold standard_bits in Hs.
    unfold MODP_768_BIT, MODP_1024_BIT, MODP_1536_BIT, MODP_2048_BIT,
      MODP_3072_BIT, MODP_4096_BIT, MODP_6144_BIT, MODP_8192_BIT in Hs.
    repeat match type of Hs with
           | context [?x =? ?c] => destruct (Z.eqb_spec x c); [now subst|]
           end.
    discriminate. }
  rewrite create_outcomes, Hg. cbn [environment_with alloc_thing_ok
                                      gmp_helper_ok random_bytes negb].
  destruct (lookup_group g) as [e|] eqn:El.
  - eexists _, _. split; [reflexivity|]. cbn.
    split; [reflexivity|]. split; [|reflexivity].
    destruct (lookup_group_ok _ _ El) as [Hok Hge].
    unfold entry_ok in Hok. rewrite !andb_true_iff in Hok.
    destruct Hok as [_ Hbits]. rewrite Hge, Hs in Hbits.
    now apply Z.eqb_eq in Hbits.
  - apply lookup_group_standard in El. congruence.
Qed.

(** C3 at the failing input.  Constructing a 768-bit object while the random
    source fails returns NULL, and the modulus that [set_modulus] had
    initialised by then is still allocated afterwards. *)
Theorem C3_modulus_outlives_failed_construction :
  diffie_hellman_create environment_without_randomness MODP_768_BIT
  = Some (None,
          [Acquire R_object; Acquire R_gmp_helper; Acquire (R_mpz N_modulus);
           Release R_gmp_helper; Release R_object])
  /\ outstanding
       [Acquire R_object; Acquire R_gmp_helper; Acquire (R_mpz N_modulus);
        Release R_gmp_helper; Release R_object]
     = [R_mpz N_modulus].
Proof. split; reflexivity. Qed.

(** An object that is constructed, used without a second
    [set_other_public_value], and destroyed leaves nothing allocated. *)
Lemma create_destroy_balanced (env : environment) (g : Z)
  (this : private_diffie_hellman_t) (log : list event) :
  diffie_hellman_create env g = Some (Some this, log) ->
  exists l, destroy this = Some (SUCCESS, l) /\ outstanding (log ++ l) = [].
Proof.
  rewrite create_outcomes.
  destruct (alloc_thing_ok env), (gmp_helper_ok env); try discriminate.
  cbn [negb].
  destruct (lookup_group (g mod 65536)) as [e|]; [|discriminate].
  destruct (random_bytes env (entry_modulus_length e)); [|discriminate].
  intros H. injection H as <- <-. eexists. split; reflexivity.
Qed.

(** A second [set_other_public_value] initialises the peer's value and the
    shared secret again without clearing them first: the integers of the
    first call are no member's any more, and [destroy] cannot release
    them. *)
Example second_set_orphans_first :
  match lifetime alice_env MODP_768_BIT
          [Set_other_public_value small_chunk;
           Set_other_public_value small_chunk] with
  | Some (Some this, log) =>
      exists l, destroy this = Some (SUCCESS, l)
                /\ outstanding (log ++ l)
                   = [R_mpz N_shared_secret; R_mpz N_other_public_value]
  | _ => False
  end.
Proof. vm_compute. eexists. split; reflexivity. Qed.

End Claims.

(** ** The allocator *)

Section AllocatorFacts.

Import Allocator.
Local Open Scope N_scope.

Lemma load_lookup (h : gmap N block) (p : N) (b : block) :
  h !! p = Some b -> load h p = Done b.
Proof. unfold load. now intros ->. Qed.

Lemma store_lookup (h : gmap N block) (p : N) (b0 b : block) :
  h !! p = Some b0 -> store h p b = Done (<[p := b]> h).
Proof. unfold store. now intros ->. Qed.

(** *** Chains *)

Lemma chain_ext (h h' : gmap N block) (l : list N) (prev last : N) :
  (forall a, In a l -> h' !! a = h !! a) ->
  chain h prev l last -> chain h' prev l last.
Proof.
  revert prev. induction l as [|a l IH]; intros prev Hext; [trivial|].
  cbn [chain]. intros (b & Hb & Hn & Ho & Hc).
  exists b. rewrite Hext by (left; reflexivity).
  repeat split; try assumption.
  apply IH; [|exact Hc]. intros x Hx. apply Hext. now right.
Qed.

Lemma last_nonempty_default (a : N) (l : list N) (d d' : N) :
  List.last (a :: l) d = List.last (a :: l) d'.
Proof.
  revert a. induction l as [|x l IH]; intros a; [reflexivity|].
  change (List.last (x :: l) d = List.last (x :: l) d'). apply IH.
Qed.

Lemma chain_app (h : gmap N block) (l1 l2 : list N) (prev last : N) :
  chain h prev (l1 ++ l2) last
  <-> chain h prev l1 (hd last l2) /\ chain h (List.last l1 prev) l2 last.
Proof.
  revert prev. induction l1 as [|a l1 IH]; intros prev.
  - cbn. tauto.
  - cbn [app chain]. split.
    + intros (b & Hb & Hn & Ho & Hc). apply IH in Hc. destruct Hc as [H1 H2].
      split.
      * exists b. repeat split; try assumption.
        destruct l1; [exact Ho|exact Ho].
      * destruct l1 as [|a' l1]; [exact H2|].
        change (List.last (a :: a' :: l1) prev) with (List.last (a' :: l1) prev).
        rewrite (last_nonempty_default a' l1 prev a). exact H2.
    + intros [(b & Hb & Hn & Ho & Hc) H2].
      exists b. repeat split; try assumption.
      * destruct l1; [exact Ho|exact Ho].
      * apply IH. split; [exact Hc|].
        destruct l1 as [|a' l1]; [exact H2|].
        change (List.last (a :: a' :: l1) prev)
          with (List.last (a' :: l1) prev) in H2.
        rewrite (last_nonempty_default a' l1 prev a) in H2. exact H2.
Qed.

Lemma chain_set_head_newer (h h' : gmap N block) (a : N) (l : list N)
  (prev prev' last : N) (b : block) :
  chain h prev (a :: l) last ->
  h !! a = Some b -> h' !! a = Some (set_newer b prev') ->
  (forall x, In x l -> h' !! x = h !! x) ->
  chain h' prev' (a :: l) last.
Proof.
  cbn [chain]. intros (b0 & Hb0 & _ & Ho & Hc) Hb Hb' Hext.
  assert (b0 = b) by congruence. subst b0.
  exists (set_newer b prev'). repeat split; try assumption.
  now apply (chain_ext h).
Qed.

Lemma chain_set_last_older (h h' : gmap N block) (l : list N) (x : N)
  (prev last last' : N) (b : block) :
  chain h prev (l ++ [x]) last ->
  h !! x = Some b -> h' !! x = Some (set_older b last') ->
  (forall y, In y l -> h' !! y = h !! y) ->
  chain h' prev (l ++ [x]) last'.
Proof.
  intros Hc Hb Hb' Hext. apply chain_app in Hc. destruct Hc as [H1 H2].
  apply chain_app. split.
  - now apply (chain_ext h).
  - cbn [chain hd] in *. destruct H2 as (b0 & Hb0 & Hn & _ & _).
    assert (b0 = b) by congruence. subst b0.
    exists (set_older b last'). repeat split; assumption.
Qed.

Lemma chain_In_lookup (h : gmap N block) (l : list N) (prev last a : N) :
  chain h prev l last -> In a l -> is_Some (h !! a).
Proof.
  revert prev. induction l as [|x l IH]; intros prev Hc Hin; [destruct Hin|].
  cbn [chain] in Hc. destruct Hc as (b & Hb & _ & _ & Hc).
  destruct Hin as [->|Hin]; [eauto|]. eapply IH; eauto.
Qed.

(** *** Allocation *)

Lemma well_formed_initial : well_formed initial [].
Proof.
  constructor.
  - reflexivity.
  - exact I.
  - constructor.
  - intros [].
  - intros a. cbn [heap initial]. rewrite lookup_empty.
    split; [intros [x Hx]; discriminate|intros []].
Qed.

Lemma allocate_special_failed (this : state) (bytes file : N) (line : Z)
  (use_mutex : bool) :
  allocate_special this bytes file line use_mutex NULL = Done (NULL, this).
Proof. reflexivity. Qed.

Lemma size_fits_no_wrap (bytes : N) :
  size_fits bytes = true ->
  (malloc_size bytes <? sizeof_memory_hdr_t + bytes) = false.
Proof.
  unfold size_fits, malloc_size, SIZE_MAX, sizeof_memory_hdr_t.
  intros H. apply N.leb_le in H.
  rewrite N.mod_small by lia. apply N.ltb_irrefl.
Qed.

Lemma size_wraps (bytes : N) :
  size_fits bytes = false ->
  (malloc_size bytes <? sizeof_memory_hdr_t + bytes) = true.
Proof.
  unfold size_fits, malloc_size, SIZE_MAX, sizeof_memory_hdr_t.
  intros H. apply N.leb_gt in H. apply N.ltb_lt.
  assert (Hm : (40 + bytes) mod (18446744073709551615 + 1)
               < 18446744073709551615 + 1)
    by (apply N.mod_lt; discriminate).
  lia.
Qed.

(** A request whose sum with the header wraps is served from a block that
    is too short: nothing defined follows. *)
Lemma allocate_special_overflow (this : state) (bytes file : N) (line : Z)
  (use_mutex : bool) (m : N) :
  m <> NULL -> size_fits bytes = false ->
  allocate_special this bytes file line use_mutex m = Undefined.
Proof.
  intros Hm Hbig. unfold allocate_special.
  destruct (N.eqb_spec m NULL) as [|_]; [contradiction|].
  now rewrite (size_wraps _ Hbig).
Qed.

Lemma size_of_legal (m bytes : N) :
  m <> NULL -> (m =? NULL) || size_fits bytes = true ->
  size_fits bytes = true.
Proof.
  intros Hm H. destruct (N.eqb_spec m NULL); [contradiction|exact H].
Qed.

Lemma allocate_special_spec (this : state) (nodes : list N)
  (bytes file : N) (line : Z) (use_mutex : bool) (m : N) :
  well_formed this nodes -> m <> NULL -> heap this !! m = None ->
  size_fits bytes = true ->
  exists this',
    allocate_special this bytes file line use_mutex m
    = Done (user_pointer m, this')
    /\ well_formed this' (m :: nodes)
    /\ (exists b, heap this' !! m = Some b
                  /\ size_of_memory (info b) = bytes
                  /\ contents b = repeat Byte.x00 (N.to_nat bytes)).
Proof.
  intros [Hhead Hchain Hnd Hnn Hdom] Hm Hfresh Hfits.
  assert (Hnotin : ~ In m nodes).
  { intros Hin. apply Hdom in Hin. rewrite Hfresh in Hin.
    destruct Hin; discriminate. }
  unfold allocate_special. rewrite (size_fits_no_wrap _ Hfits).
  destruct (N.eqb_spec m NULL) as [|_]; [contradiction|].
  destruct nodes as [|a0 l].
  - cbn [hd] in Hhead. rewrite Hhead. cbn [N.eqb negb NULL obind].
    rewrite !(load_lookup _ m _ (lookup_insert_eq _ _ _)). cbn [obind].
    erewrite store_lookup by apply lookup_insert_eq. cbn [obind].
    rewrite insert_insert_eq.
    rewrite !(load_lookup _ m _ (lookup_insert_eq _ _ _)). cbn [obind].
    erewrite store_lookup by apply lookup_insert_eq. cbn [obind].
    rewrite insert_insert_eq.
    eexists. split; [reflexivity|]. split.
    + constructor; cbn [heap allocations hd].
      * reflexivity.
      * cbn [chain]. eexists. rewrite lookup_insert_eq.
        repeat split; reflexivity.
      * constructor; [exact Hnotin|constructor].
      * intros [H|[]]. now apply Hm.
      * intros a. rewrite lookup_insert. case_decide as Ha.
        -- subst a. split; [now left|eauto].
        -- rewrite Hdom. cbn. split; [tauto|intros [H|[]]; congruence].
    + cbn [heap]. eexists. rewrite lookup_insert_eq.
      split; [reflexivity|]. split; reflexivity.
  - cbn [hd] in Hhead. rewrite Hhead.
    assert (Ha0 : a0 <> NULL) by (intros E; apply Hnn; left; exact E).
    assert (Hne : m <> a0) by (intros E; apply Hnotin; left; now symmetry).
    destruct (N.eqb_spec a0 NULL) as [|_]; [contradiction|].
    cbn [negb].
    pose proof Hchain as Hchain0.
    cbn [chain] in Hchain. destruct Hchain as (b0 & Hb0 & Hn0 & Ho0 & Hc0).
    erewrite (load_lookup _ a0 b0)
      by (rewrite lookup_insert_ne by exact Hne; exact Hb0).
    cbn [obind].
    erewrite (store_lookup _ a0 b0)
      by (rewrite lookup_insert_ne by exact Hne; exact Hb0).
    cbn [obind].
    erewrite (load_lookup _ m)
      by (rewrite lookup_insert_ne by congruence; apply lookup_insert_eq).
    cbn [obind].
    erewrite (store_lookup _ m)
      by (rewrite lookup_insert_ne by congruence; apply lookup_insert_eq).
    cbn [obind].
    erewrite (load_lookup _ m) by apply lookup_insert_eq.
    cbn [obind].
    erewrite (store_lookup _ m) by apply lookup_insert_eq.
    cbn [obind].
    rewrite insert_insert_eq.
    eexists. split; [reflexivity|]. split.
    + constructor; cbn [heap allocations hd].
      * reflexivity.
      * cbn [chain]. eexists. rewrite lookup_insert_eq.
        split; [reflexivity|]. split; [reflexivity|].
        split; [reflexivity|].
        apply (chain_set_head_newer (heap this) _ a0 l NULL m NULL b0).
        -- exact Hchain0.
        -- exact Hb0.
        -- rewrite lookup_insert_ne by exact Hne.
           rewrite lookup_insert_eq. reflexivity.
        -- intros x Hx.
           assert (x <> m) by (intros ->; apply Hnotin; now right).
           assert (x <> a0) by (intros ->; inversion Hnd; contradiction).
           rewrite !lookup_insert_ne by congruence. reflexivity.
      * constructor; [exact Hnotin|exact Hnd].
      * intros [H|H]; [now apply Hm|now apply Hnn].
      * intros a. rewrite lookup_insert. case_decide as Ha.
        -- subst a. split; [now left|eauto].
        -- rewrite lookup_insert. case_decide as Ha'.
           ++ subst a. split; [right; now left|eauto].
           ++ rewrite lookup_insert_ne by exact Ha. rewrite Hdom.
              cbn. split; [tauto|intros [H|H]; [congruence|exact H]].
    + cbn [heap]. eexists. rewrite lookup_insert_eq.
      split; [reflexivity|]. split; reflexivity.
Qed.

(** *** Release *)

Lemma without_notin (a : N) (l : list N) : ~ In a l -> without a l = l.
Proof.
  induction l as [|x l IH]; intros Hn; [reflexivity|].
  cbn. destruct (N.eqb_spec x a) as [->|_].
  - exfalso. apply Hn. now left.
  - cbn. f_equal. apply IH. intros H. apply Hn. now right.
Qed.

Lemma without_split (a : N) (l1 l2 : list N) :
  ~ In a l1 -> ~ In a l2 -> without a (l1 ++ a :: l2) = l1 ++ l2.
Proof.
  intros H1 H2. unfold without. rewrite List.filter_app. cbn.
  rewrite N.eqb_refl. cbn.
  fold (without a l1). fold (without a l2).
  now rewrite !without_notin.
Qed.

Lemma NoDup_split (a : N) (l1 l2 : list N) :
  List.NoDup (l1 ++ a :: l2) ->
  ~ In a l1 /\ ~ In a l2 /\ List.NoDup (l1 ++ l2)
  /\ (forall x, In x l1 -> ~ In x l2).
Proof.
  intros Hnd.
  pose proof (NoDup_remove_1 _ _ _ Hnd) as H1.
  pose proof (NoDup_remove_2 _ _ _ Hnd) as H2.
  repeat split.
  - intros H. apply H2, in_or_app. now left.
  - intros H. apply H2, in_or_app. now right.
  - exact H1.
  - clear -H1. induction l1 as [|y l1 IH]; intros x Hx Hx2; [destruct Hx|].
    cbn in H1. inversion H1 as [|? ? Hy Hrest]; subst.
    destruct Hx as [->|Hx].
    + apply Hy, in_or_app. now right.
    + now apply (IH Hrest x).
Qed.

Lemma snoc_cases (l : list N) : l = [] \/ exists l' x, l = l' ++ [x].
Proof.
  induction l as [|x l IH] using rev_ind; [now left|right; eauto].
Qed.

Lemma last_snoc (l : list N) (x d : N) : List.last (l ++ [x]) d = x.
Proof. apply last_last. Qed.

Lemma hd_app_nonempty (l1 l2 : list N) (x d : N) :
  hd d ((l1 ++ [x]) ++ l2) = hd d (l1 ++ [x]).
Proof. destruct l1; reflexivity. Qed.

Lemma free_pointer_null (this : state) : free_pointer this NULL = Done this.
Proof. reflexivity. Qed.

Lemma free_pointer_spec (this : state) (nodes : list N) (a : N) :
  well_formed this nodes -> In a nodes ->
  exists this',
    free_pointer this (user_pointer a) = Done this'
    /\ well_formed this' (without a nodes).
Proof.
  intros [Hhead Hchain Hnd Hnn Hdom] Hin.
  apply in_split in Hin. destruct Hin as (l1 & l2 & ->).
  destruct (NoDup_split _ _ _ Hnd) as (Ha1 & Ha2 & Hnd' & Hdisj).
  rewrite (without_split _ _ _ Ha1 Ha2).
  apply chain_app in Hchain. destruct Hchain as [Hc1 Hc2].
  cbn [hd] in Hc1.
  pose proof Hc2 as Hc2'. cbn [chain] in Hc2'.
  destruct Hc2' as (b & Hb & Hbn & Hbo & Hc3).
  assert (Hanz : a <> NULL).
  { intros E. apply Hnn, in_or_app. right. left. exact E. }
  unfold free_pointer, user_pointer.
  destruct (N.eqb_spec (a + 1) NULL) as [E|_]; [unfold NULL in E; lia|].
  rewrite N.add_sub.
  rewrite (load_lookup _ _ _ Hb). cbn [obind].
  (* the older neighbour *)
  assert (Hstep1 : exists h1,
    (if negb (older (info b) =? NULL)
     then ob <~ load (heap this) (older (info b)) ;;
          assert (newer (info ob) =? a) ;;~
          store (heap this) (older (info b)) (set_newer ob (newer (info b)))
     else Done (heap this)) = Done h1
    /\ h1 !! a = Some b
    /\ (forall x, In x l1 -> h1 !! x = heap this !! x)
    /\ chain h1 (newer (info b)) l2 NULL
    /\ (forall x, is_Some (h1 !! x) <-> is_Some (heap this !! x))).
  { destruct l2 as [|o l2'].
    - cbn [hd] in Hbo. rewrite Hbo. cbn [N.eqb NULL negb].
      exists (heap this). repeat split; auto.
    - cbn [hd] in Hbo. rewrite Hbo.
      assert (Honz : o <> NULL).
      { intros E. apply Hnn, in_or_app. right. right. left. exact E. }
      assert (Hoa : o <> a) by (intros E; apply Ha2; left; exact E).
      destruct (N.eqb_spec o NULL) as [|_]; [contradiction|]. cbn [negb].
      pose proof Hc3 as Hc3'. cbn [chain] in Hc3'.
      destruct Hc3' as (ob & Hob & Hobn & _ & _).
      rewrite (load_lookup _ _ _ Hob). cbn [obind].
      rewrite Hobn, N.eqb_refl. cbn [assert obind].
      rewrite (store_lookup _ _ _ _ Hob).
      eexists. split; [reflexivity|]. split; [|split; [|split]].
      + rewrite lookup_insert_ne by exact Hoa. exact Hb.
      + intros x Hx. rewrite lookup_insert_ne; [reflexivity|].
        intros ->. apply (Hdisj _ Hx). now left.
      + apply (chain_set_head_newer (heap this) _ o l2' a _ NULL ob).
        * exact Hc3.
        * exact Hob.
        * apply lookup_insert_eq.
        * intros x Hx. rewrite lookup_insert_ne; [reflexivity|].
          intros ->. clear -Hnd Hx.
          apply NoDup_remove_1 in Hnd.
          apply NoDup_app_remove_l in Hnd. inversion Hnd; contradiction.
      + intros x. rewrite lookup_insert. case_decide as Hx; [|reflexivity].
        subst x. split; eauto. }
  destruct Hstep1 as (h1 & -> & Hb1 & Hl1 & Hchain2 & Hdom1).
  cbn [obind]. rewrite (load_lookup _ _ _ Hb1). cbn [obind].
  (* the newer neighbour *)
  destruct (snoc_cases l1) as [->|(l1' & nw & ->)].
  - cbn [List.last] in Hbn. rewrite Hbn in *. cbn [N.eqb NULL].
    cbn [app hd] in Hhead. rewrite Hhead, N.eqb_refl.
    cbn [assert obind]. rewrite (load_lookup _ _ _ Hb1). cbn [obind].
    eexists. split; [reflexivity|].
    constructor; cbn [heap allocations app].
    + exact Hbo.
    + apply (chain_ext h1); [|exact Hchain2].
      intros x Hx. rewrite lookup_delete_ne; [reflexivity|].
      intros ->. contradiction.
    + exact Hnd'.
    + intros H. apply Hnn. right. exact H.
    + intros x. rewrite lookup_delete. case_decide as Hx.
      * subst x. split; [intros [? ?]; discriminate|contradiction].
      * rewrite Hdom1, Hdom. cbn. split; [intros [H|H]; congruence|auto].
  - rewrite last_snoc in Hbn.
    assert (Hnwnz : nw <> NULL).
    { intros E. apply Hnn, in_or_app. left. apply in_or_app. right.
      left. exact E. }
    assert (Hnwa : nw <> a).
    { intros E. apply Ha1, in_or_app. right. left. exact E. }
    rewrite Hbn. destruct (N.eqb_spec nw NULL) as [|_]; [contradiction|].
    pose proof Hc1 as Hc1'. apply chain_app in Hc1'.
    destruct Hc1' as [_ Hnwc]. cbn [chain hd] in Hnwc.
    destruct Hnwc as (nb & Hnb & _ & Hnbo & _).
    assert (Hnb1 : h1 !! nw = Some nb).
    { rewrite Hl1; [exact Hnb|]. apply in_or_app. right. now left. }
    rewrite (load_lookup _ _ _ Hnb1). cbn [obind].
    rewrite Hnbo, N.eqb_refl. cbn [assert obind].
    rewrite (store_lookup _ _ _ _ Hnb1). cbn [obind].
    rewrite (load_lookup _ a b)
      by (rewrite lookup_insert_ne by exact Hnwa; exact Hb1).
    cbn [obind].
    eexists. split; [reflexivity|].
    constructor; cbn [heap allocations].
    + rewrite Hhead. rewrite !hd_app_nonempty. reflexivity.
    + apply chain_app. split.
      * apply (chain_set_last_older (heap this) _ l1' nw NULL a _ nb).
        -- exact Hc1.
        -- exact Hnb.
        -- rewrite lookup_delete_ne by congruence.
           rewrite lookup_insert_eq. now rewrite Hbo.
        -- intros y Hy.
           assert (Hy1 : In y (l1' ++ [nw])) by (apply in_or_app; now left).
           assert (y <> a) by (intros ->; contradiction).
           assert (y <> nw).
           { intros ->. clear -Hnd' Hy.
             apply NoDup_app_remove_r in Hnd'.
             apply NoDup_remove_2 in Hnd'. apply Hnd'.
             rewrite app_nil_r. exact Hy. }
           rewrite lookup_delete_ne by congruence.
           rewrite lookup_insert_ne by congruence.
           now apply Hl1.
      * rewrite last_snoc. rewrite Hbn in Hchain2.
        apply (chain_ext h1); [|exact Hchain2].
        intros x Hx.
        assert (x <> a) by (intros ->; contradiction).
        assert (x <> nw).
        { intros ->. apply (Hdisj nw); [|exact Hx].
          apply in_or_app. right. now left. }
        rewrite lookup_delete_ne by congruence.
        rewrite lookup_insert_ne by congruence. reflexivity.
    + exact Hnd'.
    + intros H. apply Hnn. apply in_app_or in H. apply in_or_app.
      destruct H as [H|H]; [now left|right; now right].
    + intros x. rewrite lookup_delete. case_decide as Hx.
      * subst x. split; [intros [? ?]; discriminate|].
        intros H. apply in_app_or in H. destruct H; contradiction.
      * rewrite lookup_insert. case_decide as Hx'.
        -- subst x. split; [|eauto]. intros _.
           apply in_or_app. left. apply in_or_app. right. now left.
        -- rewrite Hdom1, Hdom. rewrite !in_app_iff. cbn.
           split; [intros [H|[H|H]]; [tauto|congruence|tauto]|tauto].
Qed.

(** *** Contents do not matter to the list *)

Lemma chain_ext_info (h h' : gmap N block) (l : list N) (prev last : N) :
  (forall a, In a l -> info <$> (h' !! a) = info <$> (h !! a)) ->
  chain h prev l last -> chain h' prev l last.
Proof.
  revert prev. induction l as [|a l IH]; intros prev Hext; [trivial|].
  cbn [chain]. intros (b & Hb & Hn & Ho & Hc).
  pose proof (Hext a (or_introl eq_refl)) as Ha. rewrite Hb in Ha.
  destruct (h' !! a) as [b'|]; [|discriminate].
  cbn in Ha. injection Ha as Ha.
  exists b'. rewrite Ha. repeat split; try assumption.
  apply IH; [|exact Hc]. intros x Hx. apply Hext. now right.
Qed.

Lemma well_formed_set_contents (this : state) (nodes : list N) (x : N)
  (b : block) (c : list u_int8_t) :
  well_formed this nodes -> heap this !! x = Some b ->
  well_formed {| heap := <[x := set_contents b c]> (heap this);
                 allocations := allocations this |} nodes.
Proof.
  intros [Hhead Hchain Hnd Hnn Hdom] Hb.
  constructor; cbn [heap allocations]; try assumption.
  - apply (chain_ext_info (heap this)); [|exact Hchain].
    intros a _. rewrite lookup_insert. case_decide as Ha; [|reflexivity].
    subst a. now rewrite Hb.
  - intros a. rewrite <- Hdom. rewrite lookup_insert.
    case_decide as Ha; [|reflexivity]. subst a. rewrite Hb. split; eauto.
Qed.

(** *** One call *)

Lemma user_pointer_nonnull (a : N) : user_pointer a <> NULL.
Proof. unfold user_pointer, NULL. lia. Qed.

Lemma user_pointer_eqb_null (a : N) : (user_pointer a =? NULL) = false.
Proof. apply N.eqb_neq, user_pointer_nonnull. Qed.

Lemma map_without (a : N) (l : list N) :
  map user_pointer (without a l)
  = List.filter (fun q => negb (q =? user_pointer a)) (map user_pointer l).
Proof.
  unfold without. induction l as [|x l IH]; [reflexivity|].
  cbn. replace (user_pointer x =? user_pointer a) with (x =? a).
  - destruct (x =? a); cbn; now rewrite IH.
  - unfold user_pointer.
    destruct (N.eqb_spec x a) as [->|Hne]; symmetry;
      [apply N.eqb_refl|apply N.eqb_neq; lia].
Qed.

Lemma filter_null (l : list N) :
  List.filter (fun q => negb (q =? NULL)) (map user_pointer l)
  = map user_pointer l.
Proof.
  induction l as [|x l IH]; [reflexivity|].
  cbn. destruct (N.eqb_spec (user_pointer x) NULL) as [E|_].
  - now apply user_pointer_nonnull in E.
  - cbn. now rewrite IH.
Qed.

Lemma mem_user_pointer (p : N) (l : list N) :
  mem p (map user_pointer l) = true ->
  exists a, In a l /\ p = user_pointer a.
Proof.
  unfold mem. rewrite existsb_exists. intros (q & Hq & E).
  apply N.eqb_eq in E. subst q. apply in_map_iff in Hq.
  destruct Hq as (a & <- & Ha). eauto.
Qed.

Lemma fresh_answer (this : state) (m : N) :
  (m =? NULL)
  || match heap this !! m with None => true | Some _ => false end = true ->
  m = NULL \/ (m <> NULL /\ heap this !! m = None).
Proof.
  destruct (N.eqb_spec m NULL) as [->|Hm]; [now left|].
  cbn. destruct (heap this !! m); [discriminate|]. now right.
Qed.

Lemma allocating_call (this : state) (nodes : list N)
  (bytes file : N) (line : Z) (use_mutex : bool) (m : N) :
  well_formed this nodes ->
  m = NULL \/ (m <> NULL /\ heap this !! m = None) ->
  (m =? NULL) || size_fits bytes = true ->
  exists returned this' nodes',
    allocate_special this bytes file line use_mutex m = Done (returned, this')
    /\ well_formed this' nodes'
    /\ (returned = NULL /\ m = NULL /\ this' = this /\ nodes' = nodes
        \/ returned = user_pointer m /\ m <> NULL /\ nodes' = m :: nodes
           /\ heap this !! m = None).
Proof.
  intros Hwf [->|[Hm Hfresh]] Hsize.
  - exists NULL, this, nodes. rewrite allocate_special_failed. auto 10.
  - destruct (allocate_special_spec _ _ bytes file line use_mutex m
                Hwf Hm Hfresh (size_of_legal _ _ Hm Hsize))
      as (this' & -> & Hwf' & _).
    exists (user_pointer m), this', (m :: nodes). auto 10.
Qed.

Lemma exec_spec (c : call) (this : state) (nodes : list N) :
  well_formed this nodes ->
  legal c this (map user_pointer nodes) = true ->
  exists returned this' nodes',
    exec c this = Done (returned, this')
    /\ well_formed this' nodes'
    /\ map user_pointer nodes' = account (map user_pointer nodes) c returned.
Proof.
  intros Hwf Hlegal. unfold legal in Hlegal.
  apply andb_true_iff in Hlegal. destruct Hlegal as [Hlegal Hsize].
  apply andb_true_iff in Hlegal. destruct Hlegal as [Hlegal _].
  apply andb_true_iff in Hlegal. destruct Hlegal as [Hm Hback].
  apply fresh_answer in Hm.
  destruct c as [bytes file line m|bytes file line m
                |src bytes file line m|old bytes file line m|ptr];
    cbn [malloc_answer given_back requested] in Hm, Hback, Hsize;
    unfold account; cbn [given_back exec].
  - (* allocate *)
    unfold allocate.
    destruct (allocating_call _ _ bytes file line true m Hwf Hm Hsize)
      as (r & this' & nodes' & -> & Hwf' & Hcase).
    exists r, this', nodes'. split; [reflexivity|]. split; [exact Hwf'|].
    rewrite filter_null.
    destruct Hcase as [(-> & _ & _ & ->)|(-> & _ & -> & _)]; [reflexivity|].
    destruct (N.eqb_spec (user_pointer m) NULL) as [E|_]; [|reflexivity].
    now apply user_pointer_nonnull in E.
  - (* allocate_as_chunk *)
    unfold allocate_as_chunk.
    destruct (allocating_call _ _ bytes file line true m Hwf Hm Hsize)
      as (r & this' & nodes' & -> & Hwf' & Hcase).
    cbn [obind].
    exists r, this', nodes'. split; [reflexivity|]. split; [exact Hwf'|].
    rewrite filter_null.
    destruct Hcase as [(-> & _ & _ & ->)|(-> & _ & -> & _)]; [reflexivity|].
    destruct (N.eqb_spec (user_pointer m) NULL) as [E|_]; [|reflexivity].
    now apply user_pointer_nonnull in E.
  - (* clone_bytes *)
    unfold clone_bytes. rewrite filter_null.
    destruct src as [src|].
    + destruct (allocating_call _ _ bytes file line true m Hwf Hm Hsize)
        as (r & this' & nodes' & -> & Hwf' & Hcase).
      cbn [obind].
      destruct Hcase as [(-> & _ & -> & ->)|(-> & Hmnz & -> & _)].
      * exists NULL, this, nodes. auto.
      * destruct (N.eqb_spec (user_pointer m) NULL) as [E|_];
          [now apply user_pointer_nonnull in E|].
        unfold user_pointer at 1 2. rewrite N.add_sub.
        assert (Hmb : is_Some (heap this' !! m))
          by (apply (wf_domain _ _ Hwf'); now left).
        destruct Hmb as [mb Hmb].
        rewrite (load_lookup _ _ _ Hmb). cbn [obind].
        rewrite (store_lookup _ _ _ _ Hmb). cbn [obind].
        eexists _, _, (m :: nodes). split; [reflexivity|].
        split; [now apply well_formed_set_contents|].
        now rewrite user_pointer_eqb_null.
    + exists NULL, this, nodes. auto.
  - (* reallocate *)
    unfold reallocate.
    destruct (N.eqb_spec old NULL) as [->|Hold].
    + exists NULL, this, nodes. rewrite filter_null. auto.
    + cbn [orb] in Hback.
      destruct (N.eqb_spec old NULL) as [|_]; [contradiction|].
      cbn [orb] in Hback. apply mem_user_pointer in Hback.
      destruct Hback as (a & Ha & ->).
      destruct (allocating_call _ _ bytes file line false m Hwf Hm Hsize)
        as (r & this' & nodes' & -> & Hwf' & Hcase).
      cbn [obind]. rewrite <- map_without.
      destruct Hcase as [(-> & _ & -> & ->)|(-> & Hmnz & -> & Hfresh)].
      * cbn [N.eqb NULL].
        destruct (free_pointer_spec _ _ a Hwf Ha) as (this2 & -> & Hwf2).
        cbn [obind]. exists 0, this2, (without a nodes). auto.
      * destruct (N.eqb_spec (user_pointer m) NULL) as [E|_];
          [now apply user_pointer_nonnull in E|].
        unfold user_pointer at 1 2 3. rewrite !N.add_sub.
        assert (Hab : is_Some (heap this' !! a))
          by (apply (wf_domain _ _ Hwf'); now right).
        destruct Hab as [ab Hab].
        assert (Hmb : is_Some (heap this' !! m))
          by (apply (wf_domain _ _ Hwf'); now left).
        destruct Hmb as [mb Hmb].
        rewrite (load_lookup _ _ _ Hab). cbn [obind].
        rewrite (load_lookup _ _ _ Hmb). cbn [obind].
        rewrite (store_lookup _ _ _ _ Hmb). cbn [obind].
        pose proof (well_formed_set_contents _ _ m mb
                      (memcpy (contents mb) (contents ab)
                         (if size_of_memory (info ab) <? bytes
                          then size_of_memory (info ab) else bytes))
                      Hwf' Hmb) as Hwf1.
        destruct (free_pointer_spec _ _ a Hwf1 (or_intror Ha))
          as (this2 & -> & Hwf2).
        cbn [obind].
        assert (Hma : m <> a).
        { intros ->. apply (wf_domain _ _ Hwf) in Ha. rewrite Hfresh in Ha.
          destruct Ha; discriminate. }
        exists (user_pointer m), this2, (m :: without a nodes).
        split; [reflexivity|].
        split; [|now rewrite user_pointer_eqb_null].
        replace (m :: without a nodes) with (without a (m :: nodes));
          [exact Hwf2|].
        cbn. destruct (N.eqb_spec m a); [contradiction|reflexivity].
  - (* free_pointer *)
    destruct (N.eqb_spec ptr NULL) as [->|Hptr].
    + rewrite free_pointer_null. cbn [obind].
      exists NULL, this, nodes. rewrite filter_null. auto.
    + cbn [orb] in Hback. apply mem_user_pointer in Hback.
      destruct Hback as (a & Ha & ->).
      destruct (free_pointer_spec _ _ a Hwf Ha) as (this2 & -> & Hwf2).
      cbn [obind]. exists NULL, this2, (without a nodes).
      split; [reflexivity|]. split; [exact Hwf2|].
      cbn [N.eqb NULL]. apply map_without.
Qed.

(** *** Sequences of calls *)

Lemma run_spec (calls : list call) (this : state) (nodes : list N) :
  well_formed this nodes ->
  legal_run calls this (map user_pointer nodes) = true ->
  exists this' nodes',
    run calls this (map user_pointer nodes)
    = Done (this', map user_pointer nodes')
    /\ well_formed this' nodes'.
Proof.
  revert this nodes. induction calls as [|c rest IH]; intros this nodes Hwf.
  - intros _. exists this, nodes. split; [reflexivity|exact Hwf].
  - cbn [legal_run run]. intros H. apply andb_true_iff in H.
    destruct H as [Hlegal Hrest].
    destruct (exec_spec c this nodes Hwf Hlegal)
      as (r & this1 & nodes1 & Hexec & Hwf1 & Hacc).
    rewrite Hexec in *. cbn [obind]. rewrite <- Hacc in *.
    now apply IH.
Qed.

(** *** The leak report *)

Lemma reported_app (l1 l2 : list leak_line) :
  reported (l1 ++ l2) = reported l1 + reported l2.
Proof.
  induction l1 as [|x l1 IH].
  - change (reported []) with 0. cbn [app]. lia.
  - cbn [app].
    change (reported (x :: l1 ++ l2)) with (leak_count x + reported (l1 ++ l2)).
    change (reported (x :: l1)) with (leak_count x + reported l1).
    rewrite IH. lia.
Qed.

Lemma report_loop_chain (h : gmap N block) (l : list N) :
  forall (pprev n : N) (visited : list N) (printed : list leak_line)
         (spare : nat),
    chain h pprev l NULL -> ~ In NULL l -> (l = [] -> n = 0) ->
    exists lines,
      report_loop (length l + spare) h (hd NULL l) pprev n visited printed
      = Some (Done (rev visited ++ l, lines))
      /\ reported lines = reported (rev printed) + n + N.of_nat (length l).
Proof.
  induction l as [|a l IH]; intros pprev n visited printed spare Hc Hnn Hn.
  - rewrite (Hn eq_refl). exists (rev printed).
    split; [|cbn; lia].
    cbn [hd]. destruct (length [] + spare)%nat; cbn; now rewrite app_nil_r.
  - cbn [chain] in Hc. destruct Hc as (b & Hb & Hbn & Hbo & Hc).
    assert (Ha : a <> NULL) by (intros E; apply Hnn; left; exact E).
    assert (Hnn' : ~ In NULL l) by (intros H; apply Hnn; now right).
    cbn [length Nat.add hd report_loop].
    destruct (N.eqb_spec a NULL) as [|_]; [contradiction|].
    rewrite (load_lookup _ _ _ Hb). rewrite Hbn, N.eqb_refl. cbn [negb].
    rewrite Hbo.
    assert (Hsplit : forall n' printed', (l = [] -> n' = 0) ->
      reported (rev printed') + n'
      = reported (rev printed) + n + 1 ->
      exists lines,
        report_loop (length l + spare) h (hd NULL l) a n' (a :: visited)
          printed'
        = Some (Done (rev visited ++ a :: l, lines))
        /\ reported lines
           = reported (rev printed) + n + N.of_nat (length (a :: l))).
    { intros n' printed' Hn' Hsum.
      destruct (IH a n' (a :: visited) printed' spare Hc Hnn' Hn')
        as (lines & -> & Htotal).
      exists lines. split.
      - cbn [rev]. now rewrite <- app_assoc.
      - rewrite Htotal, Hsum. cbn [length]. lia. }
    destruct l as [|a' l'].
    + cbn [hd N.eqb NULL]. apply Hsplit; [reflexivity|].
      cbn [rev]. rewrite reported_app. cbn. lia.
    + cbn [hd].
      assert (Ha' : a' <> NULL) by (intros E; apply Hnn'; left; exact E).
      destruct (N.eqb_spec a' NULL) as [|_]; [contradiction|].
      pose proof Hc as Hc'. cbn [chain] in Hc'.
      destruct Hc' as (pb & Hpb & _).
      rewrite (load_lookup _ _ _ Hpb). cbn [obind].
      destruct (filename (info b) =? filename (info pb)); cbn [negb].
      * apply Hsplit; [discriminate|lia].
      * apply Hsplit; [discriminate|].
        cbn [rev]. rewrite reported_app. cbn. lia.
Qed.

Lemma chain_back_links (h : gmap N block) (l : list N) (prev : N) :
  chain h prev l NULL ->
  forall a b, In a l -> h !! a = Some b -> older (info b) <> NULL ->
  exists ob, h !! older (info b) = Some ob /\ newer (info ob) = a.
Proof.
  revert prev. induction l as [|x l IH]; intros prev Hc a b Hin Hb Ho;
    [destruct Hin|].
  cbn [chain] in Hc. destruct Hc as (bx & Hbx & _ & Hox & Hc).
  destruct Hin as [->|Hin]; [|now apply (IH x Hc a b)].
  assert (bx = b) by congruence. subst bx.
  destruct l as [|y l']; [cbn in Hox; contradiction|].
  cbn [hd] in Hox. cbn [chain] in Hc.
  destruct Hc as (ob & Hob & Hnb & _). rewrite Hox. eauto.
Qed.

(** C10.  After any sequence of [allocate], [allocate_as_chunk],
    [clone_bytes], [reallocate] and [free_pointer] calls in which [malloc]
    answers NULL or an unused block, every request that [malloc] serves
    leaves room for the header within [size_t], and only outstanding
    pointers are given back, no assertion has failed, and the allocator's
    list is a doubly
    linked list without repetition whose blocks are exactly the pointers
    handed out and not yet given back: it starts at [allocations], the
    head's [newer] is NULL, every block's [older] neighbour points back at
    it through [newer], and the heap holds no other block.  The leak report
    then terminates, stands on each of these blocks once, in list order, and
    the counts it prints add up to their number. *)
Theorem C10_allocation_list_well_formed (calls : list call) :
  legal_run calls initial [] = true ->
  exists this nodes lines,
    run calls initial [] = Done (this, map user_pointer nodes)
    /\ List.NoDup nodes
    /\ (forall a, is_Some (heap this !! a) <-> In a nodes)
    /\ allocations this = hd NULL nodes
    /\ chain (heap this) NULL nodes NULL
    /\ (forall b, heap this !! allocations this = Some b ->
                  newer (info b) = NULL)
    /\ (forall a b, heap this !! a = Some b -> older (info b) <> NULL ->
                    exists ob, heap this !! older (info b) = Some ob
                               /\ newer (info ob) = a)
    /\ allocator_report_memory_leaks (length nodes) this
       = Some (Done (nodes, lines))
    /\ reported lines = N.of_nat (length nodes).
Proof.
  intros Hlegal.
  destruct (run_spec calls initial [] well_formed_initial Hlegal)
    as (this & nodes & Hrun & Hwf).
  pose proof Hwf as [Hhead Hchain Hnd Hnn Hdom].
  destruct (report_loop_chain (heap this) nodes NULL 0 [] [] 0
              Hchain Hnn (fun _ => eq_refl)) as (lines & Hrep & Htotal).
  exists this, nodes, lines.
  split; [exact Hrun|]. split; [exact Hnd|]. split; [exact Hdom|].
  split; [exact Hhead|]. split; [exact Hchain|].
  split; [|split; [|split]].
  - intros b Hb. rewrite Hhead in Hb. destruct nodes as [|a l].
    + cbn [hd] in Hb. exfalso.
      assert (H : is_Some (heap this !! NULL)) by eauto.
      apply Hdom in H. destruct H.
    + cbn [hd chain] in Hb, Hchain.
      destruct Hchain as (b' & Hb' & Hn & _). congruence.
  - intros a b Hb Ho.
    apply (chain_back_links _ _ _ Hchain a b); [|exact Hb|exact Ho].
    apply Hdom. eauto.
  - unfold allocator_report_memory_leaks. rewrite Hhead.
    rewrite Nat.add_0_r in Hrep. exact Hrep.
  - rewrite Htotal. cbn. lia.
Qed.

Lemma C10_allocation_list_well_formed_witness :
  legal_run sample_calls initial [] = true
  /\ exists this nodes lines,
       run sample_calls initial [] = Done (this, map user_pointer nodes)
       /\ List.NoDup nodes
       /\ (forall a, is_Some (heap this !! a) <-> In a nodes)
       /\ allocations this = hd NULL nodes
       /\ chain (heap this) NULL nodes NULL
       /\ (forall b, heap this !! allocations this = Some b ->
                     newer (info b) = NULL)
       /\ (forall a b, heap this !! a = Some b -> older (info b) <> NULL ->
                       exists ob, heap this !! older (info b) = Some ob
                                  /\ newer (info ob) = a)
       /\ allocator_report_memory_leaks (length nodes) this
          = Some (Done (nodes, lines))
       /\ reported lines = N.of_nat (length nodes).
Proof.
  split; [vm_compute; reflexivity|].
  apply (C10_allocation_list_well_formed sample_calls).
  vm_compute; reflexivity.
Defined.

(** The sample run end to end: two blocks remain, the reallocated one in
    front, and the report prints one line per call site. *)
Example sample_run_report :
  match run sample_calls initial [] with
  | Done (this, handed) =>
      handed = [41; 33]
      /\ allocator_report_memory_leaks 2 this
         = Some (Done ([40; 32],
                       [ {| leak_count := 1; leak_file := 100;
                            leak_line_number := 12 |};
                         {| leak_count := 1; leak_file := 200;
                            leak_line_number := 7 |} ]))
  | _ => False
  end.
Proof. vm_compute. split; reflexivity. Qed.

End AllocatorFacts.

(** ** More about the allocator *)

Section AllocatorMore.

Import Allocator.
Local Open Scope N_scope.

(** *** The neighbours of a block *)

Lemma well_formed_null (this : state) (nodes : list N) :
  well_formed this nodes -> heap this !! NULL = None.
Proof.
  intros Hwf. destruct (heap this !! NULL) as [b|] eqn:E; [|reflexivity].
  exfalso. apply (wf_nonnull _ _ Hwf). apply (wf_domain _ _ Hwf). eauto.
Qed.

Lemma alter_null (this : state) (nodes : list N) (f : block -> block) :
  well_formed this nodes -> alter f NULL (heap this) = heap this.
Proof.
  intros Hwf. apply alter_id. intros x Hx.
  rewrite (well_formed_null _ _ Hwf) in Hx. discriminate.
Qed.

Lemma insert_as_alter (h : gmap N block) (k : N) (v : block)
  (f : block -> block) :
  h !! k = Some v -> <[k := f v]> h = alter f k h.
Proof.
  intros Hk. apply map_eq. intros j.
  rewrite lookup_insert, lookup_alter. case_decide as E; [|reflexivity].
  now rewrite Hk.
Qed.

Lemma neighbours (this : state) (nodes : list N) (a : N) (b : block) :
  well_formed this nodes -> heap this !! a = Some b ->
  a <> NULL
  /\ (older (info b) = NULL
      \/ exists ob, heap this !! older (info b) = Some ob
                    /\ newer (info ob) = a /\ older (info b) <> a)
  /\ (newer (info b) = NULL /\ allocations this = a
      \/ exists nb, newer (info b) <> NULL
                    /\ heap this !! newer (info b) = Some nb
                    /\ older (info nb) = a /\ newer (info b) <> a
                    /\ newer (info b) <> older (info b)).
Proof.
  intros [Hhead Hchain Hnd Hnn Hdom] Hb.
  assert (Hin : In a nodes) by (apply Hdom; eauto).
  apply in_split in Hin. destruct Hin as (l1 & l2 & ->).
  destruct (NoDup_split _ _ _ Hnd) as (Ha1 & Ha2 & Hnd' & Hdisj).
  apply chain_app in Hchain. destruct Hchain as [Hc1 Hc2].
  cbn [hd chain] in Hc1, Hc2.
  destruct Hc2 as (b' & Hb' & Hbn & Hbo & Hc3).
  assert (b' = b) by congruence. subst b'.
  split; [intros E; apply Hnn, in_or_app; right; left; exact E|].
  split.
  - destruct l2 as [|o l2']; [left; exact Hbo|right].
    cbn [hd] in Hbo. cbn [chain] in Hc3.
    destruct Hc3 as (ob & Hob & Hobn & _). rewrite Hbo.
    exists ob. repeat split; try assumption.
    intros E. apply Ha2. left. exact E.
  - destruct (snoc_cases l1) as [->|(l1' & nw & ->)].
    + left. cbn [List.last] in Hbn. split; [exact Hbn|exact Hhead].
    + right. rewrite last_snoc in Hbn.
      apply chain_app in Hc1. destruct Hc1 as [_ Hnwc].
      cbn [chain hd] in Hnwc. destruct Hnwc as (nb & Hnb & _ & Hnbo & _).
      assert (Hnwin : In nw (l1' ++ [nw])) by (apply in_or_app; right; now left).
      rewrite Hbn. exists nb. repeat split; try assumption.
      * intros E. apply Hnn, in_or_app. left. rewrite <- E. exact Hnwin.
      * intros E. apply Ha1. rewrite <- E. exact Hnwin.
      * intros E. rewrite Hbo in E. destruct l2 as [|o l2'].
        -- cbn [hd] in E. apply Hnn, in_or_app. left. rewrite <- E.
           exact Hnwin.
        -- cbn [hd] in E. subst o. apply (Hdisj nw Hnwin). now left.
Qed.

(** *** What the two primitives leave, exactly *)

Lemma allocate_special_exact (this : state) (nodes : list N)
  (bytes file : N) (line : Z) (use_mutex : bool) (m : N) :
  well_formed this nodes -> m <> NULL -> heap this !! m = None ->
  size_fits bytes = true ->
  allocate_special this bytes file line use_mutex m
  = Done (user_pointer m,
          {| heap := <[m := fresh_block bytes file line (allocations this)]>
                       (alter (fun b => set_newer b m) (allocations this)
                          (heap this));
             allocations := m |}).
Proof.
  intros Hwf Hm Hfresh Hfits.
  unfold allocate_special. rewrite (size_fits_no_wrap _ Hfits).
  destruct (N.eqb_spec m NULL) as [|_]; [contradiction|].
  destruct (N.eqb_spec (allocations this) NULL) as [E|Hhead]; cbn [negb].
  - rewrite E. rewrite (alter_null _ _ _ Hwf). cbn [obind].
    rewrite !(load_lookup _ m _ (lookup_insert_eq _ _ _)). cbn [obind].
    erewrite store_lookup by apply lookup_insert_eq. cbn [obind].
    rewrite insert_insert_eq.
    rewrite !(load_lookup _ m _ (lookup_insert_eq _ _ _)). cbn [obind].
    erewrite store_lookup by apply lookup_insert_eq. cbn [obind].
    rewrite insert_insert_eq. reflexivity.
  - assert (Hb0 : is_Some (heap this !! allocations this)).
    { apply (wf_domain _ _ Hwf). rewrite (wf_head _ _ Hwf) in *.
      destruct nodes; [contradiction|now left]. }
    destruct Hb0 as [b0 Hb0].
    assert (Hne : m <> allocations this) by congruence.
    erewrite (load_lookup _ _ b0)
      by (rewrite lookup_insert_ne by exact Hne; exact Hb0).
    cbn [obind].
    erewrite (store_lookup _ _ b0)
      by (rewrite lookup_insert_ne by exact Hne; exact Hb0).
    cbn [obind].
    erewrite (load_lookup _ m)
      by (rewrite lookup_insert_ne by congruence; apply lookup_insert_eq).
    cbn [obind].
    erewrite (store_lookup _ m)
      by (rewrite lookup_insert_ne by congruence; apply lookup_insert_eq).
    cbn [obind].
    erewrite (load_lookup _ m) by apply lookup_insert_eq.
    cbn [obind].
    erewrite (store_lookup _ m) by apply lookup_insert_eq.
    cbn [obind]. rewrite insert_insert_eq.
    f_equal. f_equal. f_equal. apply map_eq. intros j.
    rewrite !lookup_insert, lookup_alter.
    case_decide as E1; [reflexivity|].
    case_decide as E2; [now rewrite Hb0|reflexivity].
Qed.

Lemma free_pointer_exact (this : state) (nodes : list N) (a : N) (b : block) :
  well_formed this nodes -> heap this !! a = Some b ->
  free_pointer this (user_pointer a)
  = Done {| heap :=
              delete a
                (alter (fun x => set_older x (older (info b)))
                   (newer (info b))
                   (alter (fun x => set_newer x (newer (info b)))
                      (older (info b)) (heap this)));
            allocations := if newer (info b) =? NULL then older (info b)
                           else allocations this |}.
Proof.
  intros Hwf Hb.
  destruct (neighbours _ _ _ _ Hwf Hb) as (Ha & Hold & Hnew).
  unfold free_pointer, user_pointer.
  destruct (N.eqb_spec (a + 1) NULL) as [E|_]; [unfold NULL in E; lia|].
  rewrite N.add_sub. rewrite (load_lookup _ _ _ Hb). cbn [obind].
  set (h1 := alter (fun x => set_newer x (newer (info b))) (older (info b))
               (heap this)).
  assert (Hstep1 :
    (if negb (older (info b) =? NULL)
     then ob <~ load (heap this) (older (info b)) ;;
          assert (newer (info ob) =? a) ;;~
          store (heap this) (older (info b)) (set_newer ob (newer (info b)))
     else Done (heap this)) = Done h1).
  { destruct Hold as [E|(ob & Hob & Hobn & Hoa)].
    - rewrite E. cbn [N.eqb NULL negb]. unfold h1. rewrite E.
      now rewrite (alter_null _ _ _ Hwf).
    - assert (Honz : older (info b) <> NULL).
      { intros E. rewrite E, (well_formed_null _ _ Hwf) in Hob.
        discriminate. }
      destruct (N.eqb_spec (older (info b)) NULL) as [|_]; [contradiction|].
      cbn [negb]. rewrite (load_lookup _ _ _ Hob). cbn [obind].
      rewrite Hobn, N.eqb_refl. cbn [assert obind].
      rewrite (store_lookup _ _ _ _ Hob). f_equal.
      unfold h1. now apply (insert_as_alter _ _ ob
                              (fun x => set_newer x (newer (info b)))). }
  rewrite Hstep1. cbn [obind].
  assert (Hb1 : h1 !! a = Some b).
  { unfold h1. destruct Hold as [E|(ob & _ & _ & Hoa)].
    - rewrite E, (alter_null _ _ _ Hwf). exact Hb.
    - rewrite lookup_alter_ne by exact Hoa. exact Hb. }
  rewrite (load_lookup _ _ _ Hb1). cbn [obind].
  destruct Hnew as [[E Hhead]|(nb & Hnz & Hnb & Hnbo & Hna & Hno)].
  - rewrite E. cbn [N.eqb NULL]. rewrite Hhead, N.eqb_refl.
    cbn [assert obind]. rewrite (load_lookup _ _ _ Hb1). cbn [obind].
    f_equal. f_equal. f_equal. apply map_eq. intros j.
    rewrite lookup_alter. case_decide as Ej; [|reflexivity].
    subst j. fold h1.
    assert (Hn1 : h1 !! NULL = None).
    { unfold h1. rewrite lookup_alter. case_decide as Eo.
      - now rewrite Eo, (well_formed_null _ _ Hwf).
      - apply (well_formed_null _ _ Hwf). }
    now rewrite Hn1.
  - destruct (N.eqb_spec (newer (info b)) NULL) as [|_]; [contradiction|].
    assert (Hnb1 : h1 !! newer (info b) = Some nb).
    { unfold h1. rewrite lookup_alter_ne by congruence. exact Hnb. }
    rewrite (load_lookup _ _ _ Hnb1). cbn [obind].
    rewrite Hnbo, N.eqb_refl. cbn [assert obind].
    rewrite (store_lookup _ _ _ _ Hnb1). cbn [obind].
    rewrite (load_lookup _ a b)
      by (rewrite lookup_insert_ne by exact Hna; exact Hb1).
    cbn [obind]. f_equal. f_equal. f_equal.
    now apply (insert_as_alter _ _ nb
                 (fun x => set_older x (older (info b)))).
Qed.

(** *** What the holders of blocks observe *)

Lemma payload_set_newer (b : block) (p : N) : payload (set_newer b p) = payload b.
Proof. reflexivity. Qed.

Lemma payload_set_older (b : block) (p : N) : payload (set_older b p) = payload b.
Proof. reflexivity. Qed.

Lemma lookup_alter_payload (f : block -> block) (k j : N) (h : gmap N block) :
  (forall x, payload (f x) = payload x) ->
  payload <$> (alter f k h !! j) = payload <$> (h !! j).
Proof.
  intros Hf. rewrite lookup_alter. case_decide as E; [|reflexivity].
  subst j. destruct (h !! k); cbn; [now rewrite Hf|reflexivity].
Qed.

Lemma user_pointer_eqb (a b : N) : (user_pointer a =? user_pointer b) = (a =? b).
Proof.
  unfold user_pointer.
  destruct (N.eqb_spec a b) as [->|Hne];
    [apply N.eqb_refl|apply N.eqb_neq; lia].
Qed.

Lemma user_pointer_sub (a : N) : user_pointer a - 1 = a.
Proof. unfold user_pointer. apply N.add_sub. Qed.

Lemma allocation_observed (this : state) (nodes : list N)
  (bytes file : N) (line : Z) (m j : N) (c : list u_int8_t) :
  well_formed this nodes -> heap this !! m = None ->
  payload <$>
    (<[m := set_contents (fresh_block bytes file line (allocations this)) c]>
       (alter (fun b => set_newer b m) (allocations this) (heap this)) !! j)
  = if j =? m then Some (file, line, bytes, c)
    else payload <$> (heap this !! j).
Proof.
  intros Hwf Hfresh. rewrite lookup_insert.
  destruct (N.eqb_spec j m) as [->|Hne].
  - case_decide; [reflexivity|congruence].
  - case_decide; [congruence|].
    apply lookup_alter_payload; reflexivity.
Qed.

Lemma release_observed (h : gmap N block) (a j : N) (b : block) :
  payload <$>
    (delete a
       (alter (fun x => set_older x (older (info b))) (newer (info b))
          (alter (fun x => set_newer x (newer (info b))) (older (info b))
             h)) !! j)
  = if user_pointer j =? user_pointer a then None
    else payload <$> (h !! j).
Proof.
  rewrite user_pointer_eqb, lookup_delete.
  destruct (N.eqb_spec j a) as [->|Hne].
  - case_decide; [reflexivity|congruence].
  - case_decide; [congruence|].
    rewrite lookup_alter_payload by reflexivity.
    apply lookup_alter_payload; reflexivity.
Qed.

Lemma outstanding_pointer (this : state) (nodes : list N) (p : N) :
  well_formed this nodes ->
  (p =? NULL) || mem p (map user_pointer nodes) = true ->
  p = NULL \/ exists a b, p = user_pointer a /\ In a nodes
                          /\ heap this !! a = Some b.
Proof.
  intros Hwf H. destruct (N.eqb_spec p NULL) as [->|Hp]; [now left|right].
  cbn [orb] in H. apply mem_user_pointer in H. destruct H as (a & Ha & ->).
  destruct (proj2 (wf_domain _ _ Hwf a) Ha) as [b Hb]. eauto.
Qed.

(** Each call, in terms of what the holders of blocks observe: the result is
    the pointer to the block the call adds (NULL when it adds none), that
    block reads as [added] says, the block given back is gone, and every
    other block reads as before. *)
Lemma exec_observed (c : call) (this : state) (nodes : list N) :
  well_formed this nodes ->
  legal c this (map user_pointer nodes) = true ->
  exists returned this',
    exec c this = Done (returned, this')
    /\ returned = match added c this with
                  | Some (m, _) => user_pointer m
                  | None => NULL
                  end
    /\ forall j, payload <$> (heap this' !! j) = observed_after c this j.
Proof.
  intros Hwf Hlegal. unfold legal in Hlegal.
  apply andb_true_iff in Hlegal. destruct Hlegal as [Hlegal Hsize].
  apply andb_true_iff in Hlegal. destruct Hlegal as [Hlegal Hsrc].
  apply andb_true_iff in Hlegal. destruct Hlegal as [Hm Hback].
  apply fresh_answer in Hm.
  assert (Hfits : malloc_answer c <> NULL -> size_fits (requested c) = true)
    by (intros H; exact (size_of_legal _ _ H Hsize)).
  apply (outstanding_pointer _ _ _ Hwf) in Hback.
  pose proof (well_formed_null _ _ Hwf) as Hnull.
  assert (Hkeep : forall j,
            (if user_pointer j =? NULL then None
             else payload <$> (heap this !! j))
            = payload <$> (heap this !! j)).
  { intros j. now rewrite user_pointer_eqb_null. }
  destruct c as [bytes file line m|bytes file line m
                |src bytes file line m|old bytes file line m|ptr];
    cbn [malloc_answer given_back requested] in Hm, Hback, Hsize, Hfits;
    unfold observed_after; cbn [exec added given_back].
  - (* allocate *)
    unfold allocate. destruct Hm as [->|[Hmnz Hfresh]].
    + rewrite allocate_special_failed. cbn [N.eqb NULL].
      exists NULL, this. auto.
    + rewrite (allocate_special_exact _ _ _ _ _ _ _ Hwf Hmnz Hfresh (Hfits Hmnz)).
      destruct (N.eqb_spec m NULL) as [|_]; [contradiction|].
      eexists _, _. split; [reflexivity|]. split; [reflexivity|].
      intros j. cbn [heap].
      change (fresh_block bytes file line (allocations this))
        with (set_contents (fresh_block bytes file line (allocations this))
                (repeat Byte.x00 (N.to_nat bytes))).
      rewrite (allocation_observed _ _ _ _ _ _ _ _ Hwf Hfresh).
      destruct (j =? m); [reflexivity|]. now rewrite Hkeep.
  - (* allocate_as_chunk *)
    unfold allocate_as_chunk. destruct Hm as [->|[Hmnz Hfresh]].
    + rewrite allocate_special_failed. cbn [N.eqb NULL obind].
      exists NULL, this. auto.
    + rewrite (allocate_special_exact _ _ _ _ _ _ _ Hwf Hmnz Hfresh (Hfits Hmnz)).
      destruct (N.eqb_spec m NULL) as [|_]; [contradiction|].
      cbn [obind].
      eexists _, _. split; [reflexivity|]. split; [reflexivity|].
      intros j. cbn [heap].
      change (fresh_block bytes file line (allocations this))
        with (set_contents (fresh_block bytes file line (allocations this))
                (repeat Byte.x00 (N.to_nat bytes))).
      rewrite (allocation_observed _ _ _ _ _ _ _ _ Hwf Hfresh).
      destruct (j =? m); [reflexivity|]. now rewrite Hkeep.
  - (* clone_bytes *)
    unfold clone_bytes. destruct src as [src|]; [|exists NULL, this; auto].
    destruct Hm as [->|[Hmnz Hfresh]].
    + rewrite allocate_special_failed. cbn [N.eqb NULL obind].
      exists NULL, this. auto.
    + rewrite (allocate_special_exact _ _ _ _ _ _ _ Hwf Hmnz Hfresh (Hfits Hmnz)).
      destruct (N.eqb_spec m NULL) as [|_]; [contradiction|].
      cbn [obind]. rewrite user_pointer_eqb_null, user_pointer_sub.
      cbn [heap].
      rewrite (load_lookup _ m _ (lookup_insert_eq _ _ _)). cbn [obind].
      erewrite store_lookup by apply lookup_insert_eq. cbn [obind].
      rewrite insert_insert_eq.
      eexists _, _. split; [reflexivity|]. split; [reflexivity|].
      intros j. cbn [heap].
      change (set_contents (fresh_block bytes file line (allocations this))
                (memcpy (contents (fresh_block bytes file line
                                     (allocations this))) src bytes))
        with (set_contents (fresh_block bytes file line (allocations this))
                (memcpy (repeat Byte.x00 (N.to_nat bytes)) src bytes)).
      rewrite (allocation_observed _ _ _ _ _ _ _ _ Hwf Hfresh).
      destruct (j =? m); [reflexivity|]. now rewrite Hkeep.
  - (* reallocate *)
    unfold reallocate.
    destruct Hback as [->|(a & ob & -> & Ha & Hob)].
    + cbn [N.eqb NULL orb]. exists NULL, this. auto.
    + rewrite user_pointer_eqb_null, user_pointer_sub. cbn [orb].
      destruct Hm as [->|[Hmnz Hfresh]].
      * rewrite allocate_special_failed. cbn [N.eqb NULL obind].
        rewrite (free_pointer_exact _ _ _ _ Hwf Hob). cbn [obind].
        eexists _, _. split; [reflexivity|]. split; [reflexivity|].
        intros j. cbn [heap]. apply release_observed.
      * rewrite (allocate_special_exact _ _ _ _ _ _ _ Hwf Hmnz Hfresh (Hfits Hmnz)).
        destruct (N.eqb_spec m NULL) as [|_]; [contradiction|].
        cbn [obind]. rewrite user_pointer_eqb_null, user_pointer_sub.
        rewrite Hob.
        assert (Hma : m <> a) by congruence.
        destruct (allocate_special_spec _ _ bytes file line false m
                    Hwf Hmnz Hfresh (Hfits Hmnz)) as (this1 & Hexec1 & Hwf1 & _).
        rewrite (allocate_special_exact _ _ _ _ _ _ _ Hwf Hmnz Hfresh (Hfits Hmnz))
          in Hexec1.
        injection Hexec1 as Hthis1.
        set (h1 := <[m := fresh_block bytes file line (allocations this)]>
                     (alter (fun b => set_newer b m) (allocations this)
                        (heap this))) in *.
        assert (Hob1 : exists ob1, h1 !! a = Some ob1
                                   /\ payload ob1 = payload ob).
        { unfold h1. rewrite lookup_insert_ne by exact Hma.
          rewrite lookup_alter. case_decide as E.
          - subst a. rewrite Hob. cbn. eauto.
          - eauto. }
        destruct Hob1 as (ob1 & Hob1 & Hpay).
        cbn [heap allocations].
        rewrite (load_lookup _ _ _ Hob1). cbn [obind].
        rewrite (load_lookup h1 m _ (lookup_insert_eq _ _ _)). cbn [obind].
        erewrite (store_lookup h1 m) by apply lookup_insert_eq.
        cbn [obind].
        set (nb := set_contents _ _).
        assert (Hwf2 : well_formed
                         {| heap := <[m := nb]> h1; allocations := m |}
                         (m :: nodes)).
        { subst this1.
          apply (well_formed_set_contents _ _ m
                   (fresh_block bytes file line (allocations this)) _ Hwf1).
          apply lookup_insert_eq. }
        assert (Hob2 : (<[m := nb]> h1) !! a = Some ob1)
          by (rewrite lookup_insert_ne by exact Hma; exact Hob1).
        rewrite (free_pointer_exact _ _ _ _ Hwf2 Hob2). cbn [obind].
        eexists _, _. split; [reflexivity|]. split; [reflexivity|].
        intros j. cbn [heap]. rewrite release_observed.
        destruct (N.eqb_spec j m) as [->|Hjm].
        -- rewrite user_pointer_eqb.
           destruct (N.eqb_spec m a) as [|_]; [contradiction|].
           rewrite lookup_insert_eq. cbn. unfold nb, carried_over.
           injection Hpay as Hf Hl Hs Hc. rewrite Hs, Hc. reflexivity.
        -- destruct (user_pointer j =? user_pointer a); [reflexivity|].
           rewrite lookup_insert_ne by congruence.
           unfold h1. rewrite lookup_insert_ne by congruence.
           apply lookup_alter_payload; reflexivity.
  - (* free_pointer *)
    destruct Hback as [->|(a & b & -> & Ha & Hb)].
    + rewrite free_pointer_null. cbn [obind].
      exists NULL, this. auto.
    + rewrite (free_pointer_exact _ _ _ _ Hwf Hb). cbn [obind].
      eexists _, _. split; [reflexivity|]. split; [reflexivity|].
      intros j. cbn [heap]. apply release_observed.
Qed.

(** *** Sizes *)

Lemma length_memcpy (dst src : list u_int8_t) (n : N) :
  (N.to_nat n <= length src)%nat -> (N.to_nat n <= length dst)%nat ->
  length (memcpy dst src n) = length dst.
Proof.
  intros Hs Hd. unfold memcpy.
  rewrite length_app, length_firstn, length_skipn. lia.
Qed.

Lemma skipn_zeros (n k : nat) :
  skipn n (repeat Byte.x00 k) = repeat Byte.x00 (k - n).
Proof.
  revert k. induction n as [|n IH]; intros k.
  - now rewrite Nat.sub_0_r.
  - destruct k as [|k]; [reflexivity|]. cbn [repeat skipn]. apply IH.
Qed.

Lemma carried_over_min (b : block) (bytes : N) :
  carried_over b bytes = N.min (size_of_memory (info b)) bytes.
Proof.
  unfold carried_over.
  destruct (N.ltb_spec (size_of_memory (info b)) bytes); lia.
Qed.

Lemma added_answer (c : call) (this : state) (m : N)
  (p : N * Z * N * list u_int8_t) :
  added c this = Some (m, p) -> m = malloc_answer c /\ m <> NULL.
Proof.
  destruct c as [bytes file line m'|bytes file line m'
                |[src|] bytes file line m'|old bytes file line m'|ptr];
    cbn [added malloc_answer]; try discriminate.
  - destruct (N.eqb_spec m' NULL); [discriminate|].
    intros H. injection H as <- _. auto.
  - destruct (N.eqb_spec m' NULL); [discriminate|].
    intros H. injection H as <- _. auto.
  - destruct (N.eqb_spec m' NULL); [discriminate|].
    intros H. injection H as <- _. auto.
  - destruct (old =? NULL); [discriminate|]. cbn [orb].
    destruct (N.eqb_spec m' NULL); [discriminate|].
    destruct (heap this !! (old - 1)); [|discriminate].
    intros H. injection H as <- _. auto.
Qed.

Lemma added_sized (c : call) (this : state) (m file size : N) (line : Z)
  (bytes : list u_int8_t) :
  sized this -> source_readable c = true ->
  added c this = Some (m, (file, line, size, bytes)) ->
  length bytes = N.to_nat size.
Proof.
  intros Hsized Hsrc.
  destruct c as [n f l m'|n f l m'|[src|] n f l m'|old n f l m'|ptr];
    cbn [added source_readable] in *; try discriminate.
  - destruct (m' =? NULL); [discriminate|].
    intros H. injection H as _ _ _ <- <-. apply repeat_length.
  - destruct (m' =? NULL); [discriminate|].
    intros H. injection H as _ _ _ <- <-. apply repeat_length.
  - destruct (m' =? NULL); [discriminate|].
    intros H. injection H as _ _ _ <- <-.
    apply N.leb_le in Hsrc.
    rewrite length_memcpy; rewrite ?repeat_length; lia.
  - destruct (old =? NULL); [discriminate|]. cbn [orb].
    destruct (m' =? NULL); [discriminate|].
    destruct (heap this !! (old - 1)) as [ob|] eqn:Eob; [|discriminate].
    intros H. injection H as _ _ _ <- <-.
    pose proof (Hsized _ _ Eob) as Hlen.
    rewrite carried_over_min.
    rewrite length_memcpy; rewrite ?repeat_length; lia.
Qed.

Lemma exec_sized (c : call) (this this' : state) (nodes : list N)
  (returned : N) :
  well_formed this nodes ->
  legal c this (map user_pointer nodes) = true ->
  sized this ->
  exec c this = Done (returned, this') ->
  sized this'.
Proof.
  intros Hwf Hlegal Hsized Hexec.
  destruct (exec_observed c this nodes Hwf Hlegal)
    as (r & this1 & Hexec1 & _ & Hobs).
  rewrite Hexec in Hexec1. injection Hexec1 as <- <-.
  unfold legal in Hlegal. apply andb_true_iff in Hlegal.
  destruct Hlegal as [Hlegal _]. apply andb_true_iff in Hlegal.
  destruct Hlegal as [_ Hsrc].
  intros j b Hb. pose proof (Hobs j) as Hj. rewrite Hb in Hj. cbn in Hj.
  unfold observed_after in Hj.
  assert (Hold : payload <$> (heap this !! j) = Some (payload b) ->
                 length (contents b) = N.to_nat (size_of_memory (info b))).
  { destruct (heap this !! j) as [b0|] eqn:Eb0; [|discriminate].
    cbn. intros H. injection H as _ _ Hs Hc.
    rewrite <- Hs, <- Hc. now apply (Hsized j). }
  destruct (added c this) as [[m [[[f l] s] cs]]|] eqn:Ea.
  - destruct (j =? m).
    + injection Hj as _ _ Hs Hc. rewrite Hs, Hc.
      symmetry. apply (added_sized c this m f s l cs Hsized Hsrc) in Ea.
      congruence.
    + destruct (user_pointer j =? given_back c); [discriminate|].
      apply Hold. now symmetry.
  - destruct (user_pointer j =? given_back c); [discriminate|].
    apply Hold. now symmetry.
Qed.

Lemma sized_initial : sized initial.
Proof. intros a b H. cbn in H. rewrite lookup_empty in H. discriminate. Qed.

Lemma run_facts (calls : list call) (this this' : state) (nodes : list N)
  (handed' : list N) :
  well_formed this nodes -> sized this ->
  legal_run calls this (map user_pointer nodes) = true ->
  run calls this (map user_pointer nodes) = Done (this', handed') ->
  exists nodes', well_formed this' nodes' /\ sized this'
                 /\ handed' = map user_pointer nodes'.
Proof.
  revert this nodes.
  induction calls as [|c rest IH]; intros this nodes Hwf Hsized.
  - cbn. intros _ H. injection H as <- <-. eauto.
  - cbn [legal_run run]. intros H. apply andb_true_iff in H.
    destruct H as [Hlegal Hrest].
    destruct (exec_spec c this nodes Hwf Hlegal)
      as (r & this1 & nodes1 & Hexec & Hwf1 & Hacc).
    pose proof (exec_sized _ _ _ _ _ Hwf Hlegal Hsized Hexec) as Hsized1.
    rewrite Hexec in *. cbn [obind]. rewrite <- Hacc in *.
    now apply IH.
Qed.

(** The state after a history of calls from the start. *)
Lemma history_facts (calls : list call) (this : state) (handed : list N) :
  legal_run calls initial [] = true ->
  run calls initial [] = Done (this, handed) ->
  exists nodes, well_formed this nodes /\ sized this
                /\ handed = map user_pointer nodes.
Proof.
  intros Hlegal Hrun.
  exact (run_facts calls initial this [] handed well_formed_initial
           sized_initial Hlegal Hrun).
Qed.

Lemma fmap_payload_Some (h : gmap N block) (j : N)
  (p : N * Z * N * list u_int8_t) :
  payload <$> (h !! j) = Some p -> exists b, h !! j = Some b /\ payload b = p.
Proof.
  destruct (h !! j) as [b|]; [|discriminate].
  cbn. intros H. injection H as <-. eauto.
Qed.

Lemma fmap_payload_None (h : gmap N block) (j : N) :
  payload <$> (h !! j) = None -> h !! j = None.
Proof. destruct (h !! j); [discriminate|reflexivity]. Qed.

Lemma legal_intro (c : call) (this : state) (handed : list N) :
  (malloc_answer c = NULL \/ heap this !! malloc_answer c = None) ->
  (given_back c = NULL \/ mem (given_back c) handed = true) ->
  source_readable c = true ->
  (malloc_answer c = NULL \/ size_fits (requested c) = true) ->
  legal c this handed = true.
Proof.
  intros Hm Hb Hs Hf. unfold legal. rewrite Hs, andb_true_r.
  apply andb_true_iff. split.
  - apply andb_true_iff. split.
    + destruct Hm as [-> | ->]; [reflexivity|apply orb_true_r].
    + destruct Hb as [-> | ->]; [reflexivity|apply orb_true_r].
  - destruct Hf as [-> | ->]; [reflexivity|apply orb_true_r].
Qed.

(** X1.  For a request that leaves room for the header within [size_t],
    [allocate] and [allocate_as_chunk] with a block from [malloc]
    return the pointer just behind the header, different from NULL and from
    every outstanding pointer; the block records the call site and the size,
    reads as [bytes] zero bytes and is the new head of the list; the chunk's
    length is [bytes].  When [malloc] fails both return NULL (the chunk with
    length 0) and change nothing. *)
Theorem allocation_is_zeroed (calls : list call) (this : state)
  (handed : list N) (bytes file : N) (line : Z) (m : N) :
  legal_run calls initial [] = true ->
  run calls initial [] = Done (this, handed) ->
  bytes <= SIZE_MAX - sizeof_memory_hdr_t ->
  m <> NULL -> heap this !! m = None ->
  (exists this' b,
      allocate this bytes file line m = Done (user_pointer m, this')
      /\ allocate_as_chunk this bytes file line m
         = Done (user_pointer m, bytes, this')
      /\ heap this' !! m = Some b
      /\ payload b = (file, line, bytes, repeat Byte.x00 (N.to_nat bytes))
      /\ allocations this' = m
      /\ user_pointer m <> NULL
      /\ ~ In (user_pointer m) handed)
  /\ allocate this bytes file line NULL = Done (NULL, this)
  /\ allocate_as_chunk this bytes file line NULL = Done (NULL, 0, this).
Proof.
  intros Hlegal Hrun Hbytes Hm Hfresh.
  assert (Hfits : size_fits bytes = true) by (now apply N.leb_le).
  destruct (history_facts _ _ _ Hlegal Hrun) as (nodes & Hwf & _ & ->).
  split; [|split; reflexivity].
  unfold allocate, allocate_as_chunk.
  rewrite (allocate_special_exact _ _ _ _ _ _ _ Hwf Hm Hfresh Hfits).
  cbn [obind]. rewrite user_pointer_eqb_null.
  eexists _, _. split; [reflexivity|]. split; [reflexivity|].
  cbn [heap allocations]. split; [apply lookup_insert_eq|].
  split; [reflexivity|]. split; [reflexivity|].
  split; [apply user_pointer_nonnull|].
  intros Hin. apply in_map_iff in Hin. destruct Hin as (a & Ea & Ha).
  assert (a = m) by (unfold user_pointer in Ea; lia). subst a.
  apply (wf_domain _ _ Hwf) in Ha. rewrite Hfresh in Ha.
  destruct Ha; discriminate.
Qed.

Lemma allocation_is_zeroed_witness :
  legal_run sample_calls initial [] = true
  /\ run sample_calls initial [] = Done (sample_state, sample_handed)
  /\ 3 <= SIZE_MAX - sizeof_memory_hdr_t
  /\ 50 <> NULL /\ heap sample_state !! 50 = None
  /\ (exists this' b,
        allocate sample_state 3 100 14 50 = Done (user_pointer 50, this')
        /\ allocate_as_chunk sample_state 3 100 14 50
           = Done (user_pointer 50, 3, this')
        /\ heap this' !! 50 = Some b
        /\ payload b = (100, 14%Z, 3, repeat Byte.x00 (N.to_nat 3))
        /\ allocations this' = 50
        /\ user_pointer 50 <> NULL
        /\ ~ In (user_pointer 50) sample_handed)
  /\ allocate sample_state 3 100 14 NULL = Done (NULL, sample_state)
  /\ allocate_as_chunk sample_state 3 100 14 NULL
     = Done (NULL, 0, sample_state).
Proof.
  split; [vm_compute; reflexivity|].
  split; [vm_compute; reflexivity|].
  split; [vm_compute; discriminate|].
  split; [discriminate|].
  split; [vm_compute; reflexivity|].
  apply (allocation_is_zeroed sample_calls sample_state sample_handed
           3 100 14%Z 50).
  - vm_compute; reflexivity.
  - vm_compute; reflexivity.
  - vm_compute; discriminate.
  - discriminate.
  - vm_compute; reflexivity.
Defined.

(** X2.  Freeing the pointer that [allocate] has just returned for a
    request that leaves room for the header within [size_t] puts the
    allocator back exactly as it was: the same blocks with the same links
    and the same head. *)
Theorem allocate_then_free_restores (calls : list call) (this : state)
  (handed : list N) (bytes file : N) (line : Z) (m : N) :
  legal_run calls initial [] = true ->
  run calls initial [] = Done (this, handed) ->
  bytes <= SIZE_MAX - sizeof_memory_hdr_t ->
  m <> NULL -> heap this !! m = None ->
  exists this1,
    allocate this bytes file line m = Done (user_pointer m, this1)
    /\ free_pointer this1 (user_pointer m) = Done this.
Proof.
  intros Hlegal Hrun Hbytes Hm Hfresh.
  assert (Hfits : size_fits bytes = true) by (now apply N.leb_le).
  destruct (history_facts _ _ _ Hlegal Hrun) as (nodes & Hwf & _ & ->).
  destruct (allocate_special_spec _ _ bytes file line true m Hwf Hm Hfresh
              Hfits)
    as (this1 & Hexec & Hwf1 & _).
  unfold allocate. exists this1. split; [exact Hexec|].
  rewrite (allocate_special_exact _ _ _ _ _ _ _ Hwf Hm Hfresh Hfits)
    in Hexec.
  injection Hexec as <-.
  erewrite (free_pointer_exact _ _ m _ Hwf1)
    by (cbn [heap]; apply lookup_insert_eq).
  cbn [heap allocations fresh_block info older newer N.eqb NULL].
  destruct this as [h head]. cbn [heap allocations] in *.
  f_equal. f_equal. apply map_eq. intros j.
  pose proof (well_formed_null _ _ Hwf) as Hnull. cbn [heap] in Hnull.
  rewrite lookup_delete. case_decide as Ejm; [now subst j|].
  rewrite lookup_alter. case_decide as Ej0.
  { subst j. rewrite lookup_alter. case_decide as Eh.
    - rewrite lookup_insert_ne by congruence.
      rewrite lookup_alter_eq. rewrite Eh in *. now rewrite Hnull.
    - rewrite lookup_insert_ne by (unfold NULL in *; congruence).
      rewrite lookup_alter_ne by exact Eh. now rewrite Hnull. }
  rewrite lookup_alter. case_decide as Ejh.
  - subst j. rewrite lookup_insert_ne by exact Ejm.
    rewrite lookup_alter_eq.
    destruct (h !! head) as [b0|] eqn:Eb0; [|reflexivity].
    cbn. f_equal.
    assert (Hn0 : newer (info b0) = NULL).
    { pose proof (wf_head _ _ Hwf) as Hh. cbn [allocations] in Hh.
      pose proof (wf_chain _ _ Hwf) as Hc. cbn [heap] in Hc.
      destruct nodes as [|a0 l]; [cbn in Hh; congruence|].
      cbn [hd] in Hh. subst head. cbn [chain] in Hc.
      destruct Hc as (b' & Hb' & Hn & _). congruence. }
    destruct b0 as [[f l s o n] cs]. cbn in Hn0. subst n. reflexivity.
  - rewrite lookup_insert_ne by exact Ejm.
    now rewrite lookup_alter_ne by exact Ejh.
Qed.

Lemma allocate_then_free_restores_witness :
  legal_run sample_calls initial [] = true
  /\ run sample_calls initial [] = Done (sample_state, sample_handed)
  /\ 3 <= SIZE_MAX - sizeof_memory_hdr_t
  /\ 50 <> NULL /\ heap sample_state !! 50 = None
  /\ exists this1,
       allocate sample_state 3 100 14 50 = Done (user_pointer 50, this1)
       /\ free_pointer this1 (user_pointer 50) = Done sample_state.
Proof.
  split; [vm_compute; reflexivity|].
  split; [vm_compute; reflexivity|].
  split; [vm_compute; discriminate|].
  split; [discriminate|].
  split; [vm_compute; reflexivity|].
  apply (allocate_then_free_restores sample_calls sample_state sample_handed
           3 100 14%Z 50).
  - vm_compute; reflexivity.
  - vm_compute; reflexivity.
  - vm_compute; discriminate.
  - discriminate.
  - vm_compute; reflexivity.
Defined.

(** X3.  Whatever call is made, every block other than the one given back
    still exists afterwards and still reads the same: call site, size and
    bytes. *)
Theorem other_blocks_untouched (calls : list call) (this : state)
  (handed : list N) (c : call) :
  legal_run calls initial [] = true ->
  run calls initial [] = Done (this, handed) ->
  legal c this handed = true ->
  exists returned this',
    exec c this = Done (returned, this')
    /\ forall j b, heap this !! j = Some b ->
                   user_pointer j <> given_back c ->
                   exists b', heap this' !! j = Some b'
                              /\ payload b' = payload b.
Proof.
  intros Hlegal Hrun Hc.
  destruct (history_facts _ _ _ Hlegal Hrun) as (nodes & Hwf & _ & ->).
  destruct (exec_observed c this nodes Hwf Hc)
    as (r & this' & Hexec & _ & Hobs).
  exists r, this'. split; [exact Hexec|].
  intros j b Hb Hj. apply fmap_payload_Some.
  rewrite Hobs. unfold observed_after.
  assert (Hkeep : (if user_pointer j =? given_back c then None
                   else payload <$> (heap this !! j))
                  = Some (payload b)).
  { destruct (N.eqb_spec (user_pointer j) (given_back c));
      [contradiction|]. now rewrite Hb. }
  destruct (added c this) as [[m p]|] eqn:Ea; [|exact Hkeep].
  destruct (N.eqb_spec j m) as [->|_]; [|exact Hkeep].
  exfalso. destruct (added_answer _ _ _ _ Ea) as [Em Hmnz].
  unfold legal in Hc. apply andb_true_iff in Hc. destruct Hc as [Hc _].
  apply andb_true_iff in Hc. destruct Hc as [Hc _].
  apply andb_true_iff in Hc. destruct Hc as [Hfresh _].
  apply fresh_answer in Hfresh. rewrite <- Em in Hfresh.
  destruct Hfresh as [|[_ Hfresh]]; congruence.
Qed.

Lemma other_blocks_untouched_witness :
  legal_run sample_calls initial [] = true
  /\ run sample_calls initial [] = Done (sample_state, sample_handed)
  /\ legal (Call_reallocate 33 8 300 5 50) sample_state sample_handed = true
  /\ exists returned this',
       exec (Call_reallocate 33 8 300 5 50) sample_state
       = Done (returned, this')
       /\ forall j b, heap sample_state !! j = Some b ->
                      user_pointer j
                      <> given_back (Call_reallocate 33 8 300 5 50) ->
                      exists b', heap this' !! j = Some b'
                                 /\ payload b' = payload b.
Proof.
  split; [vm_compute; reflexivity|].
  split; [vm_compute; reflexivity|].
  split; [vm_compute; reflexivity|].
  apply (other_blocks_untouched sample_calls sample_state sample_handed
           (Call_reallocate 33 8 300 5 50)); vm_compute; reflexivity.
Defined.

(** X4.  [reallocate] of an outstanding pointer to a size that leaves room
    for the header within [size_t], when [malloc] delivers,
    returns the new block's pointer; the new block has the requested size
    and the new call site, starts with the old block's bytes up to the
    smaller of the two sizes and is zero after that; the old block is
    gone. *)
Theorem reallocate_carries_data (calls : list call) (this : state)
  (handed : list N) (old bytes file : N) (line : Z) (m : N) :
  legal_run calls initial [] = true ->
  run calls initial [] = Done (this, handed) ->
  mem old handed = true ->
  bytes <= SIZE_MAX - sizeof_memory_hdr_t ->
  m <> NULL -> heap this !! m = None ->
  exists ob this' nb,
    heap this !! (old - 1) = Some ob
    /\ reallocate this old bytes file line m = Done (user_pointer m, this')
    /\ heap this' !! m = Some nb
    /\ filename (info nb) = file /\ Allocator.line (info nb) = line
    /\ size_of_memory (info nb) = bytes
    /\ contents nb
       = firstn (N.to_nat (N.min (size_of_memory (info ob)) bytes))
           (contents ob)
         ++ repeat Byte.x00
              (N.to_nat (bytes - N.min (size_of_memory (info ob)) bytes))
    /\ heap this' !! (old - 1) = None.
Proof.
  intros Hlegal Hrun Hold Hbytes Hm Hfresh.
  assert (Hfits : size_fits bytes = true) by (now apply N.leb_le).
  destruct (history_facts _ _ _ Hlegal Hrun) as (nodes & Hwf & _ & ->).
  assert (Hc : legal (Call_reallocate old bytes file line m) this
                 (map user_pointer nodes) = true)
    by (apply legal_intro; cbn; auto).
  destruct (exec_observed _ this nodes Hwf Hc)
    as (r & this' & Hexec & Hr & Hobs).
  cbn [exec] in Hexec.
  apply mem_user_pointer in Hold. destruct Hold as (a & Ha & ->).
  destruct (proj2 (wf_domain _ _ Hwf a) Ha) as [ob Hob].
  assert (Hma : m <> a) by congruence.
  assert (Hadd : added (Call_reallocate (user_pointer a) bytes file line m)
                   this
                 = Some (m, (file, line, bytes,
                             memcpy (repeat Byte.x00 (N.to_nat bytes))
                               (contents ob) (carried_over ob bytes)))).
  { cbn [added]. rewrite user_pointer_eqb_null, user_pointer_sub, Hob.
    destruct (N.eqb_spec m NULL); [contradiction|reflexivity]. }
  rewrite Hadd in Hr. subst r.
  rewrite user_pointer_sub.
  pose proof (Hobs m) as Hnew. pose proof (Hobs a) as Hgone.
  unfold observed_after in Hnew, Hgone. rewrite Hadd in Hnew, Hgone.
  rewrite N.eqb_refl in Hnew.
  cbn [given_back] in Hgone.
  destruct (N.eqb_spec a m) as [|_]; [congruence|].
  rewrite N.eqb_refl in Hgone.
  apply fmap_payload_Some in Hnew. destruct Hnew as (nb & Hnb & Hpay).
  apply fmap_payload_None in Hgone.
  injection Hpay as Hf Hl Hs Hcs.
  exists ob, this', nb. repeat split; try assumption.
  rewrite Hcs. unfold memcpy. rewrite carried_over_min, skipn_zeros.
  f_equal. f_equal. lia.
Qed.

Lemma reallocate_carries_data_witness :
  legal_run sample_calls initial [] = true
  /\ run sample_calls initial [] = Done (sample_state, sample_handed)
  /\ mem 33 sample_handed = true
  /\ 8 <= SIZE_MAX - sizeof_memory_hdr_t
  /\ 50 <> NULL /\ heap sample_state !! 50 = None
  /\ exists ob this' nb,
       heap sample_state !! (33 - 1) = Some ob
       /\ reallocate sample_state 33 8 300 5 50
          = Done (user_pointer 50, this')
       /\ heap this' !! 50 = Some nb
       /\ filename (info nb) = 300 /\ Allocator.line (info nb) = 5%Z
       /\ size_of_memory (info nb) = 8
       /\ contents nb
          = firstn (N.to_nat (N.min (size_of_memory (info ob)) 8))
              (contents ob)
            ++ repeat Byte.x00
                 (N.to_nat (8 - N.min (size_of_memory (info ob)) 8))
       /\ heap this' !! (33 - 1) = None.
Proof.
  split; [vm_compute; reflexivity|].
  split; [vm_compute; reflexivity|].
  split; [vm_compute; reflexivity|].
  split; [vm_compute; discriminate|].
  split; [discriminate|].
  split; [vm_compute; reflexivity|].
  apply (reallocate_carries_data sample_calls sample_state sample_handed
           33 8 300 5%Z 50).
  - vm_compute; reflexivity.
  - vm_compute; reflexivity.
  - vm_compute; reflexivity.
  - vm_compute; discriminate.
  - discriminate.
  - vm_compute; reflexivity.
Defined.

(** X5.  When [malloc] fails, [reallocate] of an outstanding pointer
    returns NULL and has nevertheless released the old block: it is gone
    from the allocator, and all other blocks read as before. *)
Theorem reallocate_failure_releases (calls : list call) (this : state)
  (handed : list N) (old bytes file : N) (line : Z) :
  legal_run calls initial [] = true ->
  run calls initial [] = Done (this, handed) ->
  mem old handed = true ->
  exists ob this',
    heap this !! (old - 1) = Some ob
    /\ reallocate this old bytes file line NULL = Done (NULL, this')
    /\ heap this' !! (old - 1) = None
    /\ forall j, j <> old - 1 ->
                 payload <$> (heap this' !! j) = payload <$> (heap this !! j).
Proof.
  intros Hlegal Hrun Hold.
  destruct (history_facts _ _ _ Hlegal Hrun) as (nodes & Hwf & _ & ->).
  assert (Hc : legal (Call_reallocate old bytes file line NULL) this
                 (map user_pointer nodes) = true)
    by (apply legal_intro; cbn; auto).
  destruct (exec_observed _ this nodes Hwf Hc)
    as (r & this' & Hexec & Hr & Hobs).
  cbn [exec] in Hexec.
  apply mem_user_pointer in Hold. destruct Hold as (a & Ha & ->).
  destruct (proj2 (wf_domain _ _ Hwf a) Ha) as [ob Hob].
  assert (Hadd : added (Call_reallocate (user_pointer a) bytes file line NULL)
                   this = None).
  { cbn [added N.eqb NULL]. now rewrite orb_true_r. }
  rewrite Hadd in Hr. subst r. rewrite user_pointer_sub.
  exists ob, this'. split; [exact Hob|]. split; [exact Hexec|].
  split.
  - apply fmap_payload_None. rewrite Hobs. unfold observed_after.
    rewrite Hadd. cbn [given_back]. now rewrite N.eqb_refl.
  - intros j Hj. rewrite Hobs. unfold observed_after. rewrite Hadd.
    cbn [given_back]. rewrite user_pointer_eqb.
    destruct (N.eqb_spec j a); [contradiction|reflexivity].
Qed.

Lemma reallocate_failure_releases_witness :
  legal_run sample_calls initial [] = true
  /\ run sample_calls initial [] = Done (sample_state, sample_handed)
  /\ mem 33 sample_handed = true
  /\ exists ob this',
       heap sample_state !! (33 - 1) = Some ob
       /\ reallocate sample_state 33 8 300 5 NULL = Done (NULL, this')
       /\ heap this' !! (33 - 1) = None
       /\ forall j, j <> 33 - 1 ->
                    payload <$> (heap this' !! j)
                    = payload <$> (heap sample_state !! j).
Proof.
  split; [vm_compute; reflexivity|].
  split; [vm_compute; reflexivity|].
  split; [vm_compute; reflexivity|].
  apply (reallocate_failure_releases sample_calls sample_state sample_handed
           33 8 300 5%Z); vm_compute; reflexivity.
Defined.

(** X6.  [clone_bytes] of a buffer of at least [bytes] bytes, when [malloc]
    delivers, returns a new block of size [bytes] that holds the first
    [bytes] bytes of the buffer.  The number of bytes leaves room for the
    header within [size_t], as the length of any buffer in memory does. *)
Theorem clone_bytes_copies (calls : list call) (this : state)
  (handed : list N) (src : list u_int8_t) (bytes file : N) (line : Z)
  (m : N) :
  legal_run calls initial [] = true ->
  run calls initial [] = Done (this, handed) ->
  (bytes <=? N.of_nat (length src)) = true ->
  bytes <= SIZE_MAX - sizeof_memory_hdr_t ->
  m <> NULL -> heap this !! m = None ->
  exists this' nb,
    clone_bytes this (Some src) bytes file line m
    = Done (user_pointer m, this')
    /\ heap this' !! m = Some nb
    /\ size_of_memory (info nb) = bytes
    /\ contents nb = firstn (N.to_nat bytes) src
    /\ length (contents nb) = N.to_nat bytes.
Proof.
  intros Hlegal Hrun Hsrc Hbytes Hm Hfresh.
  assert (Hfits : size_fits bytes = true) by (now apply N.leb_le).
  destruct (history_facts _ _ _ Hlegal Hrun) as (nodes & Hwf & _ & ->).
  assert (Hc : legal (Call_clone_bytes (Some src) bytes file line m) this
                 (map user_pointer nodes) = true)
    by (apply legal_intro; cbn; auto).
  destruct (exec_observed _ this nodes Hwf Hc)
    as (r & this' & Hexec & Hr & Hobs).
  cbn [exec] in Hexec.
  assert (Hadd : added (Call_clone_bytes (Some src) bytes file line m) this
                 = Some (m, (file, line, bytes,
                             memcpy (repeat Byte.x00 (N.to_nat bytes))
                               src bytes))).
  { cbn [added]. destruct (N.eqb_spec m NULL); [contradiction|reflexivity]. }
  rewrite Hadd in Hr. subst r.
  pose proof (Hobs m) as Hnew. unfold observed_after in Hnew.
  rewrite Hadd, N.eqb_refl in Hnew.
  apply fmap_payload_Some in Hnew. destruct Hnew as (nb & Hnb & Hpay).
  injection Hpay as _ _ Hs Hcs.
  assert (Hcopy : contents nb = firstn (N.to_nat bytes) src).
  { rewrite Hcs. unfold memcpy. rewrite skipn_zeros, Nat.sub_diag.
    apply app_nil_r. }
  exists this', nb. repeat split; try assumption.
  rewrite Hcopy, length_firstn. apply N.leb_le in Hsrc. lia.
Qed.

Lemma clone_bytes_copies_witness :
  legal_run sample_calls initial [] = true
  /\ run sample_calls initial [] = Done (sample_state, sample_handed)
  /\ (2 <=? N.of_nat (length [Byte.x0a; Byte.x0b; Byte.x0c])) = true
  /\ 2 <= SIZE_MAX - sizeof_memory_hdr_t
  /\ 50 <> NULL /\ heap sample_state !! 50 = None
  /\ exists this' nb,
       clone_bytes sample_state (Some [Byte.x0a; Byte.x0b; Byte.x0c])
         2 300 5 50
       = Done (user_pointer 50, this')
       /\ heap this' !! 50 = Some nb
       /\ size_of_memory (info nb) = 2
       /\ contents nb = firstn (N.to_nat 2) [Byte.x0a; Byte.x0b; Byte.x0c]
       /\ length (contents nb) = N.to_nat 2.
Proof.
  split; [vm_compute; reflexivity|].
  split; [vm_compute; reflexivity|].
  split; [reflexivity|].
  split; [vm_compute; discriminate|].
  split; [discriminate|].
  split; [vm_compute; reflexivity|].
  apply (clone_bytes_copies sample_calls sample_state sample_handed
           [Byte.x0a; Byte.x0b; Byte.x0c] 2 300 5%Z 50).
  - vm_compute; reflexivity.
  - vm_compute; reflexivity.
  - reflexivity.
  - vm_compute; discriminate.
  - discriminate.
  - vm_compute; reflexivity.
Defined.

(** *** The lines of the leak report *)

Lemma report_loop_runs (h : gmap N block) (l : list N) :
  forall (pprev n : N) (visited : list N) (printed : list leak_line)
         (spare : nat),
    chain h pprev l NULL -> ~ In NULL l ->
    report_loop (length l + spare) h (hd NULL l) pprev n visited printed
    = Some (Done (rev visited ++ l,
                  rev printed ++ runs n (map (site_at h) l))).
Proof.
  induction l as [|a l IH]; intros pprev n visited printed spare Hc Hnn.
  - cbn [hd map runs]. rewrite !app_nil_r.
    destruct (length [] + spare)%nat; reflexivity.
  - cbn [chain] in Hc. destruct Hc as (b & Hb & Hbn & Hbo & Hc).
    assert (Ha : a <> NULL) by (intros E; apply Hnn; left; exact E).
    assert (Hnn' : ~ In NULL l) by (intros H; apply Hnn; now right).
    cbn [length Nat.add hd report_loop].
    destruct (N.eqb_spec a NULL) as [|_]; [contradiction|].
    rewrite (load_lookup _ _ _ Hb). rewrite Hbn, N.eqb_refl. cbn [negb].
    rewrite Hbo. cbn [map runs]. unfold site_at at 1. rewrite Hb.
    assert (Hstep : forall n' printed',
      report_loop (length l + spare) h (hd NULL l) a n' (a :: visited)
        printed'
      = Some (Done (rev visited ++ a :: l,
                    rev printed' ++ runs n' (map (site_at h) l)))).
    { intros n' printed'. rewrite (IH a n' (a :: visited) _ spare Hc Hnn').
      cbn [rev]. now rewrite <- app_assoc. }
    destruct l as [|a' l'].
    + cbn [hd N.eqb NULL map].
      refine (eq_trans (Hstep _ _) _).
      cbn [rev map runs]. now rewrite <- !app_assoc, app_nil_r.
    + cbn [hd].
      assert (Ha' : a' <> NULL) by (intros E; apply Hnn'; left; exact E).
      destruct (N.eqb_spec a' NULL) as [|_]; [contradiction|].
      pose proof Hc as Hc'. cbn [chain] in Hc'.
      destruct Hc' as (pb & Hpb & _).
      rewrite (load_lookup _ _ _ Hpb). cbn [obind map].
      unfold site_at at 1. rewrite Hpb.
      destruct (filename (info b) =? filename (info pb)); cbn [negb].
      * refine (eq_trans (Hstep _ _) _). reflexivity.
      * refine (eq_trans (Hstep _ _) _).
        cbn [rev]. now rewrite <- !app_assoc.
Qed.

Lemma runs_same_file (f : N) (sites : list (N * Z)) (n : N) (s : N * Z) :
  Forall (fun x => fst x = f) (s :: sites) ->
  runs n (s :: sites)
  = [ {| leak_count := n + N.of_nat (length (s :: sites));
         leak_file := f;
         leak_line_number := snd (List.last (s :: sites) s) |} ].
Proof.
  revert n s. induction sites as [|s' sites IH]; intros n [f0 ln] Hall.
  - pose proof (Forall_inv Hall) as Hf. cbn in Hf. subst f0. reflexivity.
  - pose proof (Forall_inv Hall) as Hf. cbn in Hf. subst f0.
    pose proof (Forall_inv_tail Hall) as Hrest.
    destruct s' as [f' ln'].
    pose proof (Forall_inv Hrest) as Hf'. cbn in Hf'. subst f'.
    cbn [runs]. rewrite N.eqb_refl.
    change (runs (n + 1) ((f, ln') :: sites)
            = [ {| leak_count :=
                     n + N.of_nat (length ((f, ln) :: (f, ln') :: sites));
                   leak_file := f;
                   leak_line_number :=
                     snd (List.last ((f, ln') :: sites) (f, ln)) |} ]).
    rewrite (IH (n + 1) (f, ln') Hrest). f_equal. f_equal.
    + cbn [length]. lia.
    + f_equal. clear. revert ln'. induction sites as [|x sites IH];
        intros ln'; [reflexivity|].
      change (List.last (x :: sites) (f, ln') = List.last (x :: sites) (f, ln)).
      destruct sites as [|y sites]; [reflexivity|].
      change (List.last (y :: sites) (f, ln') = List.last (y :: sites) (f, ln)).
      clear. revert y. induction sites as [|z sites IH]; intros y;
        [reflexivity|].
      change (List.last (z :: sites) (f, ln') = List.last (z :: sites) (f, ln)).
      apply IH.
Qed.

Lemma report_of_well_formed (this : state) (nodes : list N) :
  well_formed this nodes ->
  allocator_report_memory_leaks (length nodes) this
  = Some (Done (nodes, runs 0 (map (site_at (heap this)) nodes))).
Proof.
  intros Hwf.
  unfold allocator_report_memory_leaks.
  rewrite (wf_head _ _ Hwf).
  pose proof (report_loop_runs (heap this) nodes NULL 0 [] [] 0
                (wf_chain _ _ Hwf) (wf_nonnull _ _ Hwf)) as H.
  rewrite Nat.add_0_r in H. exact H.
Qed.

(** X7.  After any history of calls the leak report, given as many
    iterations as there are outstanding pointers, walks the outstanding
    blocks newest first and prints one line per maximal run of consecutive
    blocks with the same file name: the line carries the length of the run
    and the line number of the run's oldest block. *)
Theorem report_prints_runs (calls : list call) (this : state)
  (handed : list N) :
  legal_run calls initial [] = true ->
  run calls initial [] = Done (this, handed) ->
  exists nodes,
    handed = map user_pointer nodes
    /\ allocator_report_memory_leaks (length handed) this
       = Some (Done (nodes, runs 0 (map (site_at (heap this)) nodes))).
Proof.
  intros Hlegal Hrun.
  destruct (history_facts _ _ _ Hlegal Hrun) as (nodes & Hwf & _ & ->).
  exists nodes. split; [reflexivity|].
  rewrite length_map. exact (report_of_well_formed _ _ Hwf).
Qed.

Lemma report_prints_runs_witness :
  legal_run sample_calls initial [] = true
  /\ run sample_calls initial [] = Done (sample_state, sample_handed)
  /\ exists nodes,
       sample_handed = map user_pointer nodes
       /\ allocator_report_memory_leaks (length sample_handed) sample_state
          = Some (Done (nodes,
                        runs 0 (map (site_at (heap sample_state)) nodes))).
Proof.
  split; [vm_compute; reflexivity|].
  split; [vm_compute; reflexivity|].
  apply (report_prints_runs sample_calls sample_state sample_handed);
    vm_compute; reflexivity.
Defined.

(** X8.  When all outstanding blocks were allocated from one file and there
    is at least one, the leak report is a single line: it counts all of them
    and names the line number of the oldest one only. *)
Theorem report_merges_one_file (calls : list call) (this : state)
  (handed : list N) (f : N) :
  legal_run calls initial [] = true ->
  run calls initial [] = Done (this, handed) ->
  handed <> [] ->
  forallb (fun p => fst (site_at (heap this) (p - 1)) =? f) handed = true ->
  exists nodes oldest ob,
    handed = map user_pointer nodes
    /\ List.last nodes NULL = oldest
    /\ heap this !! oldest = Some ob
    /\ older (info ob) = NULL
    /\ allocator_report_memory_leaks (length handed) this
       = Some (Done (nodes,
                     [ {| leak_count := N.of_nat (length handed);
                          leak_file := f;
                          leak_line_number := line (info ob) |} ])).
Proof.
  intros Hlegal Hrun Hne Hfile.
  destruct (history_facts _ _ _ Hlegal Hrun) as (nodes & Hwf & _ & ->).
  pose proof (report_of_well_formed _ _ Hwf) as Hrep.
  rewrite <- (length_map user_pointer) in Hrep.
  destruct nodes as [|a l]; [now contradiction Hne|].
  assert (Hlast : In (List.last (a :: l) NULL) (a :: l)).
  { clear. revert a. induction l as [|x l IH]; intros a; [now left|].
    right. apply (IH x). }
  destruct (proj2 (wf_domain _ _ Hwf _) Hlast) as [ob Hob].
  exists (a :: l), (List.last (a :: l) NULL), ob.
  split; [reflexivity|]. split; [reflexivity|]. split; [exact Hob|].
  split.
  { pose proof (wf_chain _ _ Hwf) as Hc. clear -Hc Hob.
    revert Hc Hob. generalize NULL at 1 as prev. revert a.
    induction l as [|x l IH]; intros a prev Hc Hob.
    - cbn in *. destruct Hc as (b & Hb & _ & Ho & _). congruence.
    - cbn [chain] in Hc. destruct Hc as (b & _ & _ & _ & Hc).
      apply (IH x a Hc). exact Hob. }
  rewrite Hrep. f_equal. f_equal. f_equal.
  cbn [map].
  rewrite (runs_same_file f).
  - rewrite N.add_0_l. cbn [map length]. rewrite !length_map.
    f_equal.
    change (site_at (heap this) a :: map (site_at (heap this)) l)
      with (map (site_at (heap this)) (a :: l)).
    assert (Hl : forall (d : N * Z) (l0 : list N) (x : N),
               List.last (map (site_at (heap this)) (x :: l0)) d
               = site_at (heap this) (List.last (x :: l0) NULL)).
    { clear. intros d l0. induction l0 as [|y l0 IH]; intros x;
        [reflexivity|].
      change (List.last (map (site_at (heap this)) (y :: l0)) d
              = site_at (heap this) (List.last (y :: l0) NULL)).
      apply IH. }
    rewrite Hl. unfold site_at. now rewrite Hob.
  - change (Forall (fun x => fst x = f)
              (map (site_at (heap this)) (a :: l))).
    apply List.Forall_forall. intros s Hs. apply in_map_iff in Hs.
    destruct Hs as (x & <- & Hx).
    rewrite forallb_forall in Hfile.
    specialize (Hfile (user_pointer x) (in_map user_pointer _ _ Hx)).
    rewrite user_pointer_sub in Hfile. now apply N.eqb_eq in Hfile.
Qed.

Lemma report_merges_one_file_witness :
  legal_run one_file_calls initial [] = true
  /\ run one_file_calls initial [] = Done (one_file_state, one_file_handed)
  /\ one_file_handed <> []
  /\ forallb (fun p => fst (site_at (heap one_file_state) (p - 1)) =? 100)
       one_file_handed = true
  /\ exists nodes oldest ob,
       one_file_handed = map user_pointer nodes
       /\ List.last nodes NULL = oldest
       /\ heap one_file_state !! oldest = Some ob
       /\ older (info ob) = NULL
       /\ allocator_report_memory_leaks (length one_file_handed)
            one_file_state
          = Some (Done (nodes,
                        [ {| leak_count := N.of_nat (length one_file_handed);
                             leak_file := 100;
                             leak_line_number := line (info ob) |} ])).
Proof.
  split; [vm_compute; reflexivity|].
  split; [vm_compute; reflexivity|].
  split; [vm_compute; discriminate|].
  split; [vm_compute; reflexivity|].
  apply (report_merges_one_file one_file_calls one_file_state
           one_file_handed 100).
  - vm_compute; reflexivity.
  - vm_compute; reflexivity.
  - vm_compute; discriminate.
  - vm_compute; reflexivity.
Defined.

End AllocatorMore.

(** ** More about the exchange object *)

Section ExchangeMore.

Import GmpHelper.

(** *** What stays allocated *)

Lemma resource_eqb_eq (a b : resource) : resource_eqb a b = true <-> a = b.
Proof.
  destruct a as [| |[]], b as [| |[]]; cbn; split; intros H;
    try reflexivity; try discriminate.
Qed.

Lemma tally_remove_first (r r' : resource) (l : list resource) :
  tally r (remove_first r' l)
  = if resource_eqb r r' then Nat.pred (tally r l) else tally r l.
Proof.
  induction l as [|x l IH]; [now destruct (resource_eqb r r')|].
  cbn [remove_first tally].
  destruct (resource_eqb r' x) eqn:Ex.
  - apply resource_eqb_eq in Ex. subst x.
    destruct (resource_eqb r r'); reflexivity.
  - cbn [tally]. rewrite IH.
    destruct (resource_eqb r r') eqn:Er; [|reflexivity].
    apply resource_eqb_eq in Er. subst r'. rewrite Ex. reflexivity.
Qed.

Lemma outstanding_app (log1 log2 : list event) :
  outstanding (log1 ++ log2) = outstanding_from (outstanding log1) log2.
Proof. unfold outstanding, outstanding_from. apply fold_left_app. Qed.

Lemma outstanding_from_app (held : list resource) (log1 log2 : list event) :
  outstanding_from held (log1 ++ log2)
  = outstanding_from (outstanding_from held log1) log2.
Proof. unfold outstanding_from. apply fold_left_app. Qed.

Lemma perform_account this e a p (o : operation) this' l
  (k : nat) (held : list resource) :
  valid_facts this e a p ->
  perform o this = Some (this', l) ->
  (forall r, tally r held = held_by this k r) ->
  shared_secret_is_computed this = (0 <? k)%nat ->
  (forall r, tally r (outstanding_from held l)
             = held_by this' (k + (if is_set o then 1 else 0)) r)
  /\ shared_secret_is_computed this'
     = (0 <? k + (if is_set o then 1 else 0))%nat.
Proof.
  intros Hv Hperf Hheld Hflag.
  destruct o as [|c| |]; unfold perform in Hperf; cbn [is_set].
  - pose proof (get_my_public_value_valid _ _ _ _ Hv) as Hg. cbv zeta in Hg.
    rewrite Hg in Hperf. cbn in Hperf. injection Hperf as <- <-.
    rewrite Nat.add_0_r.
    destruct (my_public_value_is_computed this) eqn:Ef.
    + split; [exact Hheld|exact Hflag].
    + split; [|exact Hflag].
      intros r. cbn. specialize (Hheld r).
      destruct r as [| |[]]; cbn in *; rewrite ?Ef in Hheld; lia.
  - pose proof (set_other_public_value_valid _ _ _ _ c Hv) as Hs.
    cbv zeta in Hs. rewrite Hs in Hperf. cbn in Hperf.
    injection Hperf as <- <-.
    split; [|cbn; destruct k; reflexivity].
    intros r. cbn. specialize (Hheld r).
    destruct r as [| |[]]; cbn in *; lia.
  - rewrite (get_other_public_value_valid _ _ _ _ Hv) in Hperf.
    pose proof (vf_shared _ _ _ _ Hv) as Hsec.
    rewrite Nat.add_0_r.
    destruct (shared_secret_is_computed this) eqn:Ef.
    + destruct Hsec as (o & Ho & _). rewrite Ho in Hperf. cbn in Hperf.
      injection Hperf as <- <-. rewrite Ef. auto.
    + cbn in Hperf. injection Hperf as <- <-. rewrite Ef. auto.
  - rewrite (get_shared_secret_valid _ _ _ _ Hv) in Hperf.
    pose proof (vf_shared _ _ _ _ Hv) as Hsec.
    rewrite Nat.add_0_r.
    destruct (shared_secret_is_computed this) eqn:Ef.
    + destruct Hsec as (o & _ & _ & Hs). rewrite Hs in Hperf. cbn in Hperf.
      injection Hperf as <- <-. rewrite Ef. auto.
    + cbn in Hperf. injection Hperf as <- <-. rewrite Ef. auto.
Qed.

Lemma perform_all_account (ops : list operation) this e a p this' l
  (k : nat) (held : list resource) :
  valid_facts this e a p ->
  perform_all ops this = Some (this', l) ->
  (forall r, tally r held = held_by this k r) ->
  shared_secret_is_computed this = (0 <? k)%nat ->
  (forall r, tally r (outstanding_from held l)
             = held_by this' (k + peer_sets ops) r)
  /\ shared_secret_is_computed this' = (0 <? k + peer_sets ops)%nat
  /\ valid_facts this' e a p.
Proof.
  revert this l k held.
  induction ops as [|o rest IH]; intros this l k held Hv Hperf Hheld Hflag.
  - cbn in Hperf. injection Hperf as <- <-.
    unfold peer_sets. cbn. rewrite Nat.add_0_r. auto.
  - cbn [perform_all] in Hperf.
    destruct (perform_total _ _ _ _ o Hv) as (this1 & l1 & H1 & Hv1 & _).
    rewrite H1 in Hperf. cbn [bind] in Hperf.
    destruct (perform_all rest this1) as [[this2 l2]|] eqn:H2;
      [|discriminate].
    injection Hperf as <- <-.
    destruct (perform_account _ _ _ _ o _ _ k held Hv H1 Hheld Hflag)
      as [Hheld1 Hflag1].
    destruct (IH _ _ _ _ Hv1 H2 Hheld1 Hflag1) as (Hheld2 & Hflag2 & Hv2).
    rewrite outstanding_from_app.
    assert (Ek : (k + (if is_set o then 1 else 0) + peer_sets rest
                  = k + peer_sets (o :: rest))%nat).
    { unfold peer_sets. cbn [List.filter].
      destruct (is_set o); cbn [length]; lia. }
    rewrite Ek in *. auto.
Qed.

Lemma destroy_log this e a p :
  valid_facts this e a p ->
  destroy this
  = Some (SUCCESS,
          [Release R_gmp_helper; Release (R_mpz N_modulus);
           Release (R_mpz N_my_prime)]
          ++ (if my_public_value_is_computed this
              then [Release (R_mpz N_my_public_value)] else [])
          ++ (if shared_secret_is_computed this
              then [Release (R_mpz N_other_public_value);
                    Release (R_mpz N_shared_secret)] else [])
          ++ [Release R_object]).
Proof.
  intros [_ Ha _ _ Hm _ _ Hpub Hsec].
  unfold destroy. rewrite Ha, Hm.
  destruct (my_public_value_is_computed this);
    destruct (shared_secret_is_computed this);
    [destruct Hsec as (o & Ho & _ & Hs)|
     destruct Hsec as [Ho Hs]|
     destruct Hsec as (o & Ho & _ & Hs)|
     destruct Hsec as [Ho Hs]];
    rewrite ?Hpub, ?Ho, ?Hs; reflexivity.
Qed.

(** X9.  An object that is constructed, used through any sequence of calls
    and destroyed leaves allocated exactly the peer values and shared
    secrets of all but the last [set_other_public_value] call: nothing when
    that operation was called at most once, and one orphaned pair for every
    further call. *)
Theorem life_leaves_orphaned_pairs (env : environment) (g : Z)
  (ops : list operation) (this : private_diffie_hellman_t)
  (log : list event) :
  lifetime env g ops = Some (Some this, log) ->
  exists l,
    destroy this = Some (SUCCESS, l)
    /\ forall r,
         tally r (outstanding (log ++ l))
         = match r with
           | R_mpz N_other_public_value | R_mpz N_shared_secret =>
               Nat.pred (peer_sets ops)
           | _ => 0%nat
           end.
Proof.
  intros H. unfold lifetime in H.
  destruct (diffie_hellman_create env g) as [[[this0|] l0]|] eqn:Ec;
    cbn [bind] in H; try discriminate.
  destruct (create_valid _ _ _ _ Ec) as (Hv & Hpub0 & Hsec0).
  apply valid_iff in Hv. destruct Hv as (e & a & p & Hv).
  destruct (perform_all ops this0) as [[this1 l1]|] eqn:Hp; [|discriminate].
  cbn in H. rewrite app_nil_r in H. injection H as <- <-.
  assert (Hheld0 : forall r, tally r (outstanding l0) = held_by this0 0 r).
  { rewrite create_outcomes in Ec.
    destruct (alloc_thing_ok env), (gmp_helper_ok env); try discriminate.
    cbn [negb] in Ec.
    destruct (lookup_group (g mod 65536)); [|discriminate].
    destruct (random_bytes env _); [|discriminate].
    injection Ec as <- <-. intros r. destruct r as [| |[]]; reflexivity. }
  destruct (perform_all_account ops _ _ _ _ _ _ 0%nat _ Hv Hp Hheld0 Hsec0)
    as (Hheld & Hflag & Hv1).
  rewrite (destroy_log _ _ _ _ Hv1). eexists. split; [reflexivity|].
  intros r. rewrite outstanding_app, outstanding_app.
  cbn [Nat.add] in Hheld, Hflag.
  set (held := outstanding_from (outstanding l0) l1) in *.
  assert (Hk : peer_sets ops = tally (R_mpz N_shared_secret) held)
    by (now rewrite Hheld).
  pose proof (Hheld r) as Hr.
  pose proof (Hheld R_gmp_helper) as H1. pose proof (Hheld R_object) as H2.
  destruct (my_public_value_is_computed this1) eqn:Ep;
    destruct (shared_secret_is_computed this1) eqn:Es;
    cbn [app outstanding_from fold_left];
    rewrite ?tally_remove_first;
    destruct r as [| |[]]; cbn [resource_eqb mpz_name_eqb];
    rewrite ?Hr; cbn [held_by]; rewrite ?Ep; try reflexivity;
    symmetry in Hflag; try apply Nat.ltb_ge in Hflag; lia.
Qed.

Lemma life_leaves_orphaned_pairs_witness :
  lifetime alice_env MODP_768_BIT two_peers
  = Some (Some (object_after alice_env two_peers),
          log_after alice_env two_peers)
  /\ exists l,
       destroy (object_after alice_env two_peers) = Some (SUCCESS, l)
       /\ forall r,
            tally r (outstanding (log_after alice_env two_peers ++ l))
            = match r with
              | R_mpz N_other_public_value | R_mpz N_shared_secret =>
                  Nat.pred (peer_sets two_peers)
              | _ => 0%nat
              end.
Proof.
  split; [vm_compute; reflexivity|].
  apply (life_leaves_orphaned_pairs alice_env MODP_768_BIT two_peers).
  vm_compute; reflexivity.
Defined.

(** *** What the calls leave alone *)

Lemma perform_parameters this e a p (o : operation) this' l :
  valid_facts this e a p ->
  perform o this = Some (this', l) ->
  parameters this' = parameters this
  /\ my_public_value_is_computed this'
     = my_public_value_is_computed this || is_get_my_public_value o.
Proof.
  intros Hv Hperf.
  destruct o as [|c| |]; unfold perform in Hperf; cbn [is_get_my_public_value].
  - pose proof (get_my_public_value_valid _ _ _ _ Hv) as Hg. cbv zeta in Hg.
    rewrite Hg in Hperf. cbn in Hperf. injection Hperf as <- _.
    destruct (my_public_value_is_computed this) eqn:Ef; cbn; auto.
  - pose proof (set_other_public_value_valid _ _ _ _ c Hv) as Hs.
    cbv zeta in Hs. rewrite Hs in Hperf. cbn in Hperf.
    injection Hperf as <- _. cbn. now rewrite orb_false_r.
  - rewrite (get_other_public_value_valid _ _ _ _ Hv) in Hperf.
    pose proof (vf_shared _ _ _ _ Hv) as Hsec.
    destruct (shared_secret_is_computed this).
    + destruct Hsec as (o & Ho & _). rewrite Ho in Hperf. cbn in Hperf.
      injection Hperf as <- _. now rewrite orb_false_r.
    + cbn in Hperf. injection Hperf as <- _. now rewrite orb_false_r.
  - rewrite (get_shared_secret_valid _ _ _ _ Hv) in Hperf.
    pose proof (vf_shared _ _ _ _ Hv) as Hsec.
    destruct (shared_secret_is_computed this).
    + destruct Hsec as (o & _ & _ & Hs). rewrite Hs in Hperf. cbn in Hperf.
      injection Hperf as <- _. now rewrite orb_false_r.
    + cbn in Hperf. injection Hperf as <- _. now rewrite orb_false_r.
Qed.

Lemma perform_all_parameters (ops : list operation) this e a p this' l :
  valid_facts this e a p ->
  perform_all ops this = Some (this', l) ->
  parameters this' = parameters this
  /\ my_public_value_is_computed this'
     = my_public_value_is_computed this
       || existsb is_get_my_public_value ops.
Proof.
  revert this l.
  induction ops as [|o rest IH]; intros this l Hv Hperf.
  - cbn in Hperf. injection Hperf as <- _. cbn. now rewrite orb_false_r.
  - cbn [perform_all] in Hperf.
    destruct (perform_total _ _ _ _ o Hv) as (this1 & l1 & H1 & Hv1 & _).
    rewrite H1 in Hperf. cbn [bind] in Hperf.
    destruct (perform_all rest this1) as [[this2 l2]|] eqn:H2;
      [|discriminate].
    injection Hperf as <- _.
    destruct (perform_parameters _ _ _ _ o _ _ Hv H1) as [Hp1 Hf1].
    destruct (IH _ _ Hv1 H2) as [Hp2 Hf2].
    split; [congruence|].
    rewrite Hf2, Hf1. cbn [existsb]. now rewrite orb_assoc.
Qed.

Lemma lifetime_split env g ops this log :
  lifetime env g ops = Some (Some this, log) ->
  exists this0 l0 l1 e a p,
    diffie_hellman_create env g = Some (Some this0, l0)
    /\ perform_all ops this0 = Some (this, l1)
    /\ log = l0 ++ l1
    /\ valid_facts this0 e a p
    /\ valid_facts this e a p
    /\ my_public_value_is_computed this0 = false
    /\ shared_secret_is_computed this0 = false.
Proof.
  intros H. unfold lifetime in H.
  destruct (diffie_hellman_create env g) as [[[this0|] l0]|] eqn:Ec;
    cbn [bind] in H; try discriminate.
  destruct (create_valid _ _ _ _ Ec) as (Hv & Hpub0 & Hsec0).
  apply valid_iff in Hv. destruct Hv as (e & a & p & Hv).
  destruct (perform_all_total ops _ _ _ _ Hv) as (this1 & l1 & Hp & Hv1 & _).
  rewrite Hp in H. cbn in H. rewrite app_nil_r in H. injection H as <- <-.
  exists this0, l0, l1, e, a, p. auto 10.
Qed.

(** X10.  No sequence of calls changes what the constructor chose: group,
    modulus, modulus length, generator and private exponent are those of the
    freshly constructed object for as long as the object lives; and the
    public value is held exactly when [get_my_public_value] has been called
    at least once. *)
Theorem parameters_fixed_for_life (env : environment) (g : Z)
  (ops : list operation) (this : private_diffie_hellman_t)
  (log : list event) :
  lifetime env g ops = Some (Some this, log) ->
  exists this0 l0,
    diffie_hellman_create env g = Some (Some this0, l0)
    /\ parameters this = parameters this0
    /\ dh_group_number this = g mod 65536
    /\ my_public_value_is_computed this
       = existsb is_get_my_public_value ops
    /\ (my_public_value this <> None
        <-> In Get_my_public_value ops).
Proof.
  intros H.
  destruct (lifetime_split _ _ _ _ _ H)
    as (this0 & l0 & l1 & e & a & p & Hc & Hp & _ & Hv0 & Hv & Hf0 & _).
  destruct (perform_all_parameters _ _ _ _ _ _ _ Hv0 Hp) as [Hpar Hflag].
  rewrite Hf0 in Hflag. cbn [orb] in Hflag.
  exists this0, l0. split; [exact Hc|]. split; [exact Hpar|].
  split.
  { assert (Hg : dh_group_number this = dh_group_number this0)
      by (unfold parameters in Hpar; congruence).
    rewrite Hg. rewrite create_outcomes in Hc.
    destruct (alloc_thing_ok env), (gmp_helper_ok env); try discriminate.
    cbn [negb] in Hc.
    destruct (lookup_group (g mod 65536)); [|discriminate].
    destruct (random_bytes env _); [|discriminate].
    injection Hc as <- _. reflexivity. }
  split; [exact Hflag|].
  pose proof (vf_public _ _ _ _ Hv) as Hpub. rewrite Hflag in Hpub.
  destruct (existsb is_get_my_public_value ops) eqn:Ex.
  - apply existsb_exists in Ex. destruct Ex as (o & Hin & Ho).
    destruct o; try discriminate. rewrite Hpub. split; [auto|discriminate].
  - rewrite Hpub. split; [congruence|]. intros Hin.
    assert (Hex : existsb is_get_my_public_value ops = true)
      by (apply existsb_exists; exists Get_my_public_value; auto).
    congruence.
Qed.

Lemma parameters_fixed_for_life_witness :
  lifetime alice_env MODP_768_BIT two_peers
  = Some (Some (object_after alice_env two_peers),
          log_after alice_env two_peers)
  /\ exists this0 l0,
       diffie_hellman_create alice_env MODP_768_BIT = Some (Some this0, l0)
       /\ parameters (object_after alice_env two_peers) = parameters this0
       /\ dh_group_number (object_after alice_env two_peers)
          = MODP_768_BIT mod 65536
       /\ my_public_value_is_computed (object_after alice_env two_peers)
          = existsb is_get_my_public_value two_peers
       /\ (my_public_value (object_after alice_env two_peers) <> None
           <-> In Get_my_public_value two_peers).
Proof.
  split; [vm_compute; reflexivity|].
  apply (parameters_fixed_for_life alice_env MODP_768_BIT two_peers
           _ (log_after alice_env two_peers)).
  vm_compute; reflexivity.
Defined.

(** *** The latest peer value *)

(** X11.  Whatever was called before, the shared secret and the peer value
    an object gives out are those of the latest [set_other_public_value]
    call, computed with the exponent and modulus the constructor chose;
    with no such call both getters fail. *)
Theorem latest_peer_decides (env : environment) (g : Z)
  (ops : list operation) (this : private_diffie_hellman_t)
  (log : list event) :
  lifetime env g ops = Some (Some this, log) ->
  exists this0 l0 a p,
    diffie_hellman_create env g = Some (Some this0, l0)
    /\ my_prime this0 = Some a
    /\ modulus this0 = Some p
    /\ match last_peer ops with
       | Some c =>
           get_shared_secret this
           = Some ((SUCCESS,
                    Some (be_bytes (modulus_length this0)
                            ((chunk_to_mpz c ^ a) mod p))), [])
           /\ get_other_public_value this
              = Some (mpz_to_chunk (chunk_to_mpz c) (modulus_length this0),
                      [])
       | None =>
           get_shared_secret this = Some ((FAILED, None), [])
           /\ get_other_public_value this = Some ((FAILED, None), [])
       end.
Proof.
  intros H.
  destruct (lifetime_split _ _ _ _ _ H)
    as (this0 & l0 & l1 & e & a & p & Hc & Hp & _ & Hv0 & Hv & _ & Hs0).
  destruct (perform_all_total ops _ _ _ _ Hv0)
    as (this1 & l1' & Hp' & _ & Hlast).
  rewrite Hp in Hp'. injection Hp' as <- <-.
  exists this0, l0, a, p. split; [exact Hc|].
  split; [exact (vf_prime _ _ _ _ Hv0)|].
  split; [exact (vf_modulus _ _ _ _ Hv0)|].
  assert (Hlen : modulus_length this = modulus_length this0)
    by (rewrite (vf_length _ _ _ _ Hv), (vf_length _ _ _ _ Hv0); reflexivity).
  rewrite (get_shared_secret_valid _ _ _ _ Hv),
    (get_other_public_value_valid _ _ _ _ Hv).
  pose proof (vf_shared _ _ _ _ Hv) as Hsec.
  destruct (last_peer ops) as [c|]; destruct Hlast as [Hf Ho].
  - rewrite Hf in *. destruct Hsec as (o & Ho' & _ & Hs).
    rewrite Ho in Ho'. injection Ho' as <-.
    rewrite Hs, Ho, Hlen, mpz_powm_spec. auto.
  - rewrite Hs0 in Hf. rewrite Hf. auto.
Qed.

Lemma latest_peer_decides_witness :
  lifetime alice_env MODP_768_BIT two_peers
  = Some (Some (object_after alice_env two_peers),
          log_after alice_env two_peers)
  /\ exists this0 l0 a p,
       diffie_hellman_create alice_env MODP_768_BIT = Some (Some this0, l0)
       /\ my_prime this0 = Some a
       /\ modulus this0 = Some p
       /\ match last_peer two_peers with
          | Some c =>
              get_shared_secret (object_after alice_env two_peers)
              = Some ((SUCCESS,
                       Some (be_bytes (modulus_length this0)
                               ((chunk_to_mpz c ^ a) mod p))), [])
              /\ get_other_public_value (object_after alice_env two_peers)
                 = Some (mpz_to_chunk (chunk_to_mpz c)
                           (modulus_length this0), [])
          | None =>
              get_shared_secret (object_after alice_env two_peers)
              = Some ((FAILED, None), [])
              /\ get_other_public_value (object_after alice_env two_peers)
                 = Some ((FAILED, None), [])
          end.
Proof.
  split; [vm_compute; reflexivity|].
  apply (latest_peer_decides alice_env MODP_768_BIT two_peers
           _ (log_after alice_env two_peers)).
  vm_compute; reflexivity.
Defined.

(** *** Peer values that give the secret away *)

Lemma moduli_above_one :
  forallb (fun e => 1 <? chunk_to_mpz (entry_modulus e)) modulus_info_entries
  = true.
Proof. vm_compute. reflexivity. Qed.

Lemma valid_facts_modulus_above_one this e a p :
  valid_facts this e a p -> 1 < p /\ (0 < modulus_length this)%nat.
Proof.
  intros Hv.
  destruct (valid_facts_modulus _ _ _ _ Hv) as [_ Hp].
  pose proof (vf_lookup _ _ _ _ Hv) as Hl.
  apply lookup_group_In in Hl. destruct Hl as [Hin _].
  pose proof moduli_above_one as Hall. rewrite forallb_forall in Hall.
  specialize (Hall _ Hin). apply Z.ltb_lt in Hall.
  rewrite <- (vf_p _ _ _ _ Hv) in Hall. split; [exact Hall|].
  destruct (modulus_length this); [cbn in Hp; lia|lia].
Qed.

Lemma be_bytes_zero (n : nat) : be_bytes n 0 = repeat Byte.x00 n.
Proof. unfold be_bytes. now rewrite le_bytes_zero, rev_repeat. Qed.

Lemma be_bytes_one (n : nat) :
  be_bytes (S n) 1 = repeat Byte.x00 n ++ [Byte.x01].
Proof.
  unfold be_bytes. cbn [le_bytes rev]. change (1 / 256) with 0.
  rewrite le_bytes_zero, rev_repeat. reflexivity.
Qed.

(** X12.  The peer's value is taken as it comes.  When the latest peer value
    decodes to 1 the shared secret is the number 1, whatever the private
    exponent; when it decodes to 0 and the exponent is positive the shared
    secret is all zero bytes.  Both are given out with SUCCESS. *)
Theorem degenerate_peer_accepted (env : environment) (g : Z)
  (ops : list operation) (this : private_diffie_hellman_t)
  (log : list event) (c : chunk_t) :
  lifetime env g ops = Some (Some this, log) ->
  last_peer ops = Some c ->
  exists a,
    my_prime this = Some a
    /\ (chunk_to_mpz c = 1 ->
        get_shared_secret this
        = Some ((SUCCESS,
                 Some (repeat Byte.x00 (modulus_length this - 1)
                       ++ [Byte.x01])), []))
    /\ (chunk_to_mpz c = 0 -> 0 < a ->
        get_shared_secret this
        = Some ((SUCCESS, Some (repeat Byte.x00 (modulus_length this))),
                [])).
Proof.
  intros H Hlast.
  destruct (lifetime_split _ _ _ _ _ H)
    as (this0 & l0 & l1 & e & a & p & Hc & Hp & _ & Hv0 & Hv & _ & Hs0).
  destruct (perform_all_total ops _ _ _ _ Hv0)
    as (this1 & l1' & Hp' & _ & Hl).
  rewrite Hp in Hp'. injection Hp' as <- <-.
  rewrite Hlast in Hl. destruct Hl as [Hf Ho].
  destruct (valid_facts_modulus_above_one _ _ _ _ Hv) as [Hp1 Hn].
  pose proof (vf_prime_nonneg _ _ _ _ Hv) as Ha.
  pose proof (vf_shared _ _ _ _ Hv) as Hsec. rewrite Hf in Hsec.
  destruct Hsec as (o & Ho' & _ & Hs).
  rewrite Ho in Ho'. injection Ho' as <-.
  exists a. split; [exact (vf_prime _ _ _ _ Hv)|].
  rewrite (get_shared_secret_valid _ _ _ _ Hv), Hf, Hs, mpz_powm_spec.
  split.
  - intros ->. rewrite Z.pow_1_l by exact Ha.
    rewrite Z.mod_small by lia.
    destruct (modulus_length this) as [|n]; [lia|].
    rewrite be_bytes_one. cbn [Nat.sub]. now rewrite Nat.sub_0_r.
  - intros -> Hpos. rewrite Z.pow_0_l by exact Hpos.
    rewrite Z.mod_0_l by lia. now rewrite be_bytes_zero.
Qed.

Lemma degenerate_peer_accepted_witness :
  lifetime alice_env MODP_768_BIT
    [Get_my_public_value; Set_other_public_value zero_chunk]
  = Some (Some (object_after alice_env
                  [Get_my_public_value; Set_other_public_value zero_chunk]),
          log_after alice_env
            [Get_my_public_value; Set_other_public_value zero_chunk])
  /\ last_peer [Get_my_public_value; Set_other_public_value zero_chunk]
     = Some zero_chunk
  /\ exists a,
       my_prime (object_after alice_env
                   [Get_my_public_value; Set_other_public_value zero_chunk])
       = Some a
       /\ (chunk_to_mpz zero_chunk = 1 ->
           get_shared_secret
             (object_after alice_env
                [Get_my_public_value; Set_other_public_value zero_chunk])
           = Some ((SUCCESS,
                    Some (repeat Byte.x00
                            (modulus_length
                               (object_after alice_env
                                  [Get_my_public_value;
                                   Set_other_public_value zero_chunk]) - 1)
                          ++ [Byte.x01])), []))
       /\ (chunk_to_mpz zero_chunk = 0 -> 0 < a ->
           get_shared_secret
             (object_after alice_env
                [Get_my_public_value; Set_other_public_value zero_chunk])
           = Some ((SUCCESS,
                    Some (repeat Byte.x00
                            (modulus_length
                               (object_after alice_env
                                  [Get_my_public_value;
                                   Set_other_public_value zero_chunk])))),
                   [])).
Proof.
  split; [vm_compute; reflexivity|].
  split; [reflexivity|].
  apply (degenerate_peer_accepted alice_env MODP_768_BIT
           [Get_my_public_value; Set_other_public_value zero_chunk]
           _ (log_after alice_env
                [Get_my_public_value; Set_other_public_value zero_chunk])).
  - vm_compute; reflexivity.
  - reflexivity.
Defined.

End ExchangeMore.
